(** * cloudflare-d1-go: the result-mapping engine and the migration engine

    A shallow embedding of the Go packages [utils] (response envelope,
    cursor, scanning, coercion) and [migrations] (ordering, parser, planner,
    executor), followed by the properties of the specification that are
    settled against them.

    Conventions of the embedding:
    - a Go [interface{}] value decoded from JSON is a [wire] value;
    - a Go [map[string]T] is a [gmap string T];
    - a Go [error] is an [error] value, [nil] is [None] (or the right
      injection of a sum when the function also returns a result);
    - a function that mutates through a pointer returns the new pointee;
    - a loop driven by [Rows.Next] takes fuel, and the fuel that is passed
      is proved sufficient. *)

From Stdlib Require Import ZArith String Ascii List Bool Lia DecimalString.
From stdpp Require Import base option list gmap strings fin_maps sorting.

Local Open Scope string_scope.
Local Open Scope Z_scope.
Local Set Warnings "-register-all".

(* ===================================================================== *)
(** * Errors *)
(* ===================================================================== *)

(** [errors.New] and [fmt.Errorf] without [%w] build a plain message;
    [fmt.Errorf] with [%w] keeps the wrapped cause next to the message. *)
Inductive error : Type :=
| errorString (s : string)
| wrapError (msg : string) (err : error).

Definition Error (e : error) : string :=
  match e with
  | errorString s => s
  | wrapError msg _ => msg
  end.

Definition Unwrap (e : error) : option error :=
  match e with
  | errorString _ => None
  | wrapError _ err => Some err
  end.

Definition errors_New (s : string) : error := errorString s.

(** [fmt.Errorf(prefix + "%w", err)] *)
Definition Errorf_w (prefix : string) (err : error) : error :=
  wrapError (prefix ++ Error err) err.

(* ===================================================================== *)
(** * Wire values *)
(* ===================================================================== *)

(** What [encoding/json] puts in an [interface{}]: [nil], [bool],
    [float64], [string], [[]interface{}], [map[string]interface{}].
    [F] is the type of [float64] values. *)
Inductive wire (F : Type) : Type :=
| WNull
| WBool (b : bool)
| WNumber (f : F)
| WString (s : string)
| WArray (l : list (wire F))
| WObject (m : gmap string (wire F)).

Arguments WNull {F}.
Arguments WBool {F} b.
Arguments WNumber {F} f.
Arguments WString {F} s.
Arguments WArray {F} l.
Arguments WObject {F} m.

(* ===================================================================== *)
(** * The Go library and runtime *)
(* ===================================================================== *)

(** The functions of Go's standard library and runtime that the packages
    call and whose behaviour is not decided by the repository. The
    development is generic in them. *)
Class GoLib : Type := {
  (** the values of type [float64] *)
  float64 : Type;
  (** the conversions [int(f)] and [int64(f)] *)
  float64_to_int : float64 -> Z;
  float64_to_int64 : float64 -> Z;
  (** the constant [0] and the test [f == 0] *)
  float64_zero : float64;
  float64_is_zero : float64 -> bool;
  (** [fmt.Sprintf("%v", f)] on a [float64] *)
  float64_format : float64 -> string;
  (** [fmt.Sprintf("%v", x)] on a slice or a map *)
  composite_format : wire float64 -> string;
  (** [fmt.Sscanf(s, "%d", &i)] with [i] an [int]: the scanned value when
      the returned error is [nil] *)
  Sscanf_d : string -> option Z;
  (** the [%q] verb on a string *)
  strconv_Quote : string -> string;
  strings_ToLower : string -> string;
  strings_TrimSpace : string -> string;
  (** the tokens a [bufio.Scanner] with the default split function yields
      until [Scan] returns false *)
  bufio_ScanLines : string -> list string;
  (** the order in which [for k := range m] visits the keys of a map *)
  map_range_keys : gmap string (wire float64) -> list string;
  (** a type implementing [sql.Scanner], and its [Scan] method *)
  Scanner : Type;
  Scanner_Scan : Scanner -> wire float64 -> Scanner * option error;
}.

(** ** Strings: the functions of package [strings] that work on bytes *)

(** [strings.HasPrefix(s, prefix)] *)
Definition strings_HasPrefix (s prefix : string) : bool := String.prefix prefix s.

(** [strings.Contains(s, substr)] *)
Fixpoint strings_Contains (s substr : string) : bool :=
  String.prefix substr s ||
  match s with
  | EmptyString => false
  | String _ s' => strings_Contains s' substr
  end.

(** [strings.Split(s, sep)] for a separator of one byte: the pieces between
    the separators, one more than there are separators. *)
Fixpoint Split_byte (sep : ascii) (piece : string) (s : string) : list string :=
  match s with
  | EmptyString => [String.rev piece]
  | String c s' =>
      if Ascii.eqb c sep then String.rev piece :: Split_byte sep EmptyString s'
      else Split_byte sep (String c piece) s'
  end.

Definition strings_Split_semicolon (s : string) : list string :=
  Split_byte ";"%char EmptyString s.

(** [len(s) > 0] *)
Definition nonempty (s : string) : bool :=
  match s with EmptyString => false | String _ _ => true end.

(** The newline and the tab as strings. *)
Definition nl : string := String (ascii_of_nat 10) EmptyString.
Definition tab : string := String (ascii_of_nat 9) EmptyString.

(** ** Integers *)

(** The [%d] verb: the decimal digits, after a minus sign for a negative
    number. *)
Definition format_d (z : Z) : string := NilZero.string_of_int (Z.to_int z).

Definition format_n (n : nat) : string := format_d (Z.of_nat n).

(** The Go [int] and [int64] of a 64-bit platform: a result outside the
    range wraps around. *)
Definition max_int : Z := 2 ^ 63 - 1.
Definition min_int : Z := - 2 ^ 63.
Definition wrap_int (z : Z) : Z := (z + 2 ^ 63) mod 2 ^ 64 - 2 ^ 63.

(** The decimal value of a run of digits; [None] on any other byte. *)
Definition digit_value (c : ascii) : option Z :=
  let n := Z.of_nat (nat_of_ascii c) in
  if (48 <=? n) && (n <=? 57) then Some (n - 48) else None.

Fixpoint digits_value (acc : Z) (s : string) : option Z :=
  match s with
  | EmptyString => Some acc
  | String c s' =>
      match digit_value c with
      | Some d => digits_value (10 * acc + d) s'
      | None => None
      end
  end.

(** [strconv.ParseInt(s, 10, 64)]: an optional sign, then one or more
    decimal digits; a value outside the [int64] range is a range error. The
    two kinds of [*strconv.NumError]: *)
Inductive NumError : Type := ErrSyntax | ErrRange.

Definition strconv_ParseInt (s : string) : NumError + Z :=
  let '(neg, body) :=
    match s with
    | String "-"%char s' => (true, s')
    | String "+"%char s' => (false, s')
    | _ => (false, s)
    end in
  match body with
  | EmptyString => inl ErrSyntax
  | _ =>
      match digits_value 0 body with
      | None => inl ErrSyntax
      | Some n =>
          let v := if neg then - n else n in
          if (min_int <=? v) && (v <=? max_int) then inr v else inl ErrRange
      end
  end.

(** ** Slices *)

(** A Go slice: [nil], or a sequence of elements. *)
Inductive slice (A : Type) : Type :=
| nil_slice
| slice_of (elems : list A).
Arguments nil_slice {A}.
Arguments slice_of {A} elems.

Definition slice_elems {A} (s : slice A) : list A :=
  match s with nil_slice => [] | slice_of elems => elems end.

(** [append(s, x)] *)
Definition slice_append {A} (s : slice A) (x : A) : slice A :=
  slice_of (slice_elems s ++ [x])%list.

(* ===================================================================== *)
(** * Package utils: the cursor and the coercion of wire values *)
(* ===================================================================== *)

Section utils_rows.
Context {lib : GoLib}.

Local Abbreviation wire := (wire float64).

(** The [%T] verb on a decoded JSON value. *)
Definition typeName (src : wire) : string :=
  match src with
  | WNull => "<nil>"
  | WBool _ => "bool"
  | WNumber _ => "float64"
  | WString _ => "string"
  | WArray _ => "[]interface {}"
  | WObject _ => "map[string]interface {}"
  end.

(** [fmt.Sprintf("%v", src)] *)
Definition Sprintf_v (src : wire) : string :=
  match src with
  | WNull => "<nil>"
  | WBool b => if b then "true" else "false"
  | WNumber f => float64_format f
  | WString s => s
  | WArray _ | WObject _ => composite_format src
  end.

(** A destination handed to [convertAssign], by the case of its type switch
    that the dynamic type selects; a pointer carries the value it points
    at. Pointers are not nil. *)
Inductive Dest : Type :=
| PString (v : string)          (* *string *)
| PInt (v : Z)                  (* *int *)
| PInt64 (v : Z)                (* *int64 *)
| PFloat64 (v : float64)        (* *float64 *)
| PBool (v : bool)              (* *bool *)
| PAny (v : wire)               (* *interface{} *)
| PScanner (v : Scanner)        (* an sql.Scanner *)
| POther (tname : string)       (* a pointer to a value of any other type *)
| NotPtr (tname : string).      (* anything that is not a pointer *)

(** [convertAssign(dest, src)]: the destination afterwards and the error. *)
Definition convertAssign (dest : Dest) (src : wire) : Dest * option error :=
  match dest with
  | PString _ =>
      match src with
      | WNull => (PString "", None)
      | _ => (PString (Sprintf_v src), None)
      end
  | PInt _ =>
      match src with
      | WNull => (PInt 0, None)
      | WNumber f => (PInt (float64_to_int f), None)
      | WString s =>
          match Sscanf_d s with
          | Some i => (PInt i, None)
          | None => (dest, Some (errorString ("cannot convert " ++ typeName src ++ " to int")))
          end
      | _ => (dest, Some (errorString ("cannot convert " ++ typeName src ++ " to int")))
      end
  | PInt64 _ =>
      match src with
      | WNull => (PInt64 0, None)
      | WNumber f => (PInt64 (float64_to_int64 f), None)
      | _ => (dest, Some (errorString ("cannot convert " ++ typeName src ++ " to int64")))
      end
  | PFloat64 _ =>
      match src with
      | WNull => (PFloat64 float64_zero, None)
      | WNumber f => (PFloat64 f, None)
      | _ => (dest, Some (errorString ("cannot convert " ++ typeName src ++ " to float64")))
      end
  | PBool _ =>
      match src with
      | WNull => (PBool false, None)
      | WBool b => (PBool b, None)
      | WNumber f => (PBool (negb (float64_is_zero f)), None)
      | _ => (dest, Some (errorString ("cannot convert " ++ typeName src ++ " to bool")))
      end
  | PAny _ => (PAny src, None)
  | PScanner d => let '(d', err) := Scanner_Scan d src in (PScanner d', err)
  | POther _ => (dest, None)
  | NotPtr _ => (dest, Some (errors_New "destination not a pointer"))
  end.

(** ** Rows *)

(** [type Rows struct]. A row is a [map[string]interface{}]. *)
Record Rows : Type := mkRows {
  rows : list (gmap string wire);
  columns : list string;
  current : Z;
  lastErr : option error;
}.

(** [NewRows(rows, columns)] *)
Definition NewRows (rows : list (gmap string wire)) (columns : list string) : Rows :=
  let columns :=
    match columns, rows with
    | [], row0 :: _ => foldl (fun columns k => (columns ++ [k])%list) [] (map_range_keys row0)
    | _, _ => columns
    end in
  {| rows := rows; columns := columns; current := -1; lastErr := None |}.

Definition len {A} (l : list A) : Z := Z.of_nat (length l).

(** The number of rows the cursor holds. *)
Definition row_count (r : Rows) : nat := length (rows r).

(** [r.rows[i]] for an index that the caller has checked to be in range. *)
Definition row_at (r : Rows) (i : Z) : gmap string wire :=
  default ∅ (rows r !! Z.to_nat i).

(** [(r *Rows) Next()]: the cursor afterwards and the result. *)
Definition Rows_Next (r : Rows) : Rows * bool :=
  let r := {| rows := rows r; columns := columns r;
              current := wrap_int (current r + 1); lastErr := lastErr r |} in
  (r, current r <? len (rows r)).

(** [(r *Rows) Err()] *)
Definition Rows_Err (r : Rows) : option error := lastErr r.

(** [(r *Rows) Columns()] *)
Definition Rows_Columns (r : Rows) : list string * option error := (columns r, None).

(** [(r *Rows) Close()] *)
Definition Rows_Close (r : Rows) : Rows * option error :=
  ({| rows := []; columns := columns r; current := current r; lastErr := lastErr r |}, None).

Definition closed_or_unpositioned (r : Rows) : bool :=
  (current r <? 0) || (current r >=? len (rows r)).

(** The loop of [Scan] from column index [i] on: [cols] and [dest] are
    what is left of [r.columns] and of [dest] from that index. *)
Fixpoint Rows_Scan_loop (row : gmap string wire) (i : nat)
    (cols : list string) (dest : list Dest) : list Dest * option error :=
  match cols, dest with
  | colName :: cols', d :: dest' =>
      let val := match row !! colName with Some val => val | None => WNull end in
      match convertAssign d val with
      | (d', Some err) =>
          (d' :: dest',
           Some (errorString ("sql: Scan error on column index " ++ format_n i ++
                              ", name " ++ strconv_Quote colName ++ ": " ++ Error err)))
      | (d', None) =>
          let '(dest'', err) := Rows_Scan_loop row (S i) cols' dest' in
          (d' :: dest'', err)
      end
  | _, _ => (dest, None)
  end.

(** [(r *Rows) Scan(dest ...interface{})]: the destinations afterwards and
    the error. *)
Definition Rows_Scan (r : Rows) (dest : list Dest) : list Dest * option error :=
  if closed_or_unpositioned r then (dest, Some (errors_New "sql: Rows is closed"))
  else
    let row := row_at r (current r) in
    if negb (length dest =? length (columns r))%nat then
      (dest, Some (errorString ("sql: expected " ++ format_n (length (columns r)) ++
                                " destination arguments in Scan, not " ++
                                format_n (length dest))))
    else Rows_Scan_loop row 0 (columns r) dest.

(** ** Destination records *)

(** A field of a struct type, as [reflect] shows it: its name, the value of
    its [db] tag (empty when it has none) and the field itself seen through
    [v.Field(i).Addr().Interface()]. Fields are exported. *)
Record Field : Type := mkField {
  Name : string;
  db : string;
  cell : Dest;
}.

(** A value of the element type of a destination slice, or the value a
    pointer handed to [StructScan] points at. *)
Inductive Elem : Type :=
| Struct (fields : list Field)
| NotStruct (tname : string).

(** The [dest interface{}] of [StructScan]. *)
Inductive StructDest : Type :=
| PtrTo (e : Elem)
| NotPtrTo (tname : string).

(** The loop of [StructScan] over the fields of the struct. *)
Fixpoint StructScan_loop (row : gmap string wire) (fields : list Field)
    : list Field * option error :=
  match fields with
  | [] => ([], None)
  | field :: fields' =>
      let tag := db field in
      let tag := if nonempty tag then tag else strings_ToLower (Name field) in
      match row !! tag with
      | Some val =>
          match convertAssign (cell field) val with
          | (d', Some err) =>
              ({| Name := Name field; db := db field; cell := d' |} :: fields',
               Some (errorString ("sql: StructScan error on field " ++ Name field ++
                                  ": " ++ Error err)))
          | (d', None) =>
              let '(fields'', err) := StructScan_loop row fields' in
              ({| Name := Name field; db := db field; cell := d' |} :: fields'', err)
          end
      | None =>
          let '(fields'', err) := StructScan_loop row fields' in
          (field :: fields'', err)
      end
  end.

(** [StructScan] on a pointer to [e]: the pointee afterwards. *)
Definition StructScan_ptr (r : Rows) (e : Elem) : Elem * option error :=
  if closed_or_unpositioned r then (e, Some (errors_New "sql: Rows is closed"))
  else
    match e with
    | Struct fields =>
        let row := row_at r (current r) in
        let '(fields', err) := StructScan_loop row fields in
        (Struct fields', err)
    | NotStruct _ => (e, Some (errors_New "sql: StructScan requires a pointer to a struct"))
    end.

(** [(r *Rows) StructScan(dest interface{})] *)
Definition Rows_StructScan (r : Rows) (dest : StructDest) : StructDest * option error :=
  match dest with
  | PtrTo e => let '(e', err) := StructScan_ptr r e in (PtrTo e', err)
  | NotPtrTo _ =>
      if closed_or_unpositioned r then (dest, Some (errors_New "sql: Rows is closed"))
      else (dest, Some (errors_New "sql: StructScan requires a pointer to a struct"))
  end.

(** The [dest interface{}] of [StructScanAll]: [tname] is what [%T] prints
    for it, [zero] the zero value of the element type of the slice. *)
Inductive SliceDest : Type :=
| PtrToSlice (tname : string) (zero : Elem) (s : slice Elem)
| PtrToOther (tname : string)
| NotPtrAtAll (tname : string).

(** The loop [for r.Next() { ... }] of [StructScanAll]. [None] when the
    fuel runs out. *)
Fixpoint StructScanAll_loop (fuel : nat) (r : Rows) (zero : Elem)
    (sliceValue : slice Elem) (count : nat)
    : option (Rows * slice Elem * option error) :=
  match fuel with
  | O => None
  | S fuel =>
      let '(r, more) := Rows_Next r in
      if more then
        match StructScan_ptr r zero with
        | (_, Some err) =>
            Some (r, sliceValue,
                  Some (Errorf_w ("StructScan failed at index " ++ format_n count ++ ": ") err))
        | (elem, None) =>
            StructScanAll_loop fuel r zero (slice_append sliceValue elem) (S count)
        end
      else Some (r, sliceValue, None)
  end.

(** [(r *Rows) StructScanAll(dest interface{})]: the cursor and the
    destination afterwards and the error. The loop runs at most once per
    row and once more. *)
Definition Rows_StructScanAll (r : Rows) (dest : SliceDest)
    : option (Rows * SliceDest * option error) :=
  match dest with
  | NotPtrAtAll tname =>
      Some (r, dest, Some (errorString ("dest must be a pointer, got " ++ tname)))
  | PtrToOther tname =>
      Some (r, dest, Some (errorString ("dest must be a pointer to a slice, got " ++ tname)))
  | PtrToSlice tname zero sliceValue =>
      match StructScanAll_loop (S (row_count r)) r zero sliceValue 0 with
      | Some (r, sliceValue, err) => Some (r, PtrToSlice tname zero sliceValue, err)
      | None => None
      end
  end.

End utils_rows.

(* ===================================================================== *)
(** * Package utils: the response envelope *)
(* ===================================================================== *)

Section utils_request.
Context {lib : GoLib}.

Local Abbreviation wire := (wire float64).

(** An entry of [APIResponse.Errors]. *)
Record APIError : Type := mkAPIError {
  Code : Z;
  Message : string;
}.

(** [type APIResponse struct] *)
Record APIResponse : Type := mkAPIResponse {
  Result : wire;
  Success : bool;
  Errors : list APIError;
}.

(** The error both [ToRows] and [ToResult] return for an envelope whose
    [Success] is false. *)
Definition api_failure (r : APIResponse) : error :=
  match Errors r with
  | e0 :: _ => errorString ("api error: " ++ Message e0)
  | [] => errorString "api error: unknown"
  end.

(** The type assertions [x.([]interface{})], [x.(map[string]interface{})]
    and [x.(string)]. *)
Definition as_array (x : wire) : option (list wire) :=
  match x with WArray l => Some l | _ => None end.

Definition as_object (x : wire) : option (gmap string wire) :=
  match x with WObject m => Some m | _ => None end.

Definition as_string (x : wire) : option string :=
  match x with WString s => Some s | _ => None end.

Definition as_float64 (x : wire) : option float64 :=
  match x with WNumber f => Some f | _ => None end.

(** [m[k]] on a [map[string]interface{}]: [nil] for a missing key. *)
Definition index_object (m : gmap string wire) (k : string) : wire :=
  match m !! k with Some v => v | None => WNull end.

(** The loop that collects the strings of [colsRaw]. *)
Definition collect_columns (colsRaw : list wire) : list string :=
  foldl (fun columns c =>
           match as_string c with
           | Some s => (columns ++ [s])%list
           | None => columns
           end) [] colsRaw.

(** The loop [for j, col := range columns { rowMap[col] = v[j] }], for
    [columns] and [v] of one length. *)
Fixpoint fill_rowMap (rowMap : gmap string wire) (columns : list string) (v : list wire)
    : gmap string wire :=
  match columns, v with
  | col :: columns', x :: v' => fill_rowMap (<[col := x]> rowMap) columns' v'
  | _, _ => rowMap
  end.

(** The loop of [ToRows] over [rowsRaw], from index [i] on. *)
Fixpoint ToRows_loop (columns : list string) (i : nat) (rowsRaw : list wire)
    : error + list (gmap string wire) :=
  match rowsRaw with
  | [] => inr []
  | row :: rowsRaw' =>
      let rowMap : error + gmap string wire :=
        match row with
        | WObject v => inr v
        | WArray v =>
            if (length columns =? length v)%nat then inr (fill_rowMap ∅ columns v)
            else inl (errorString ("row " ++ format_n i ++ " has " ++ format_n (length v) ++
                                   " values but expected " ++ format_n (length columns) ++
                                   " columns"))
        | _ => inl (errorString ("row " ++ format_n i ++ " has unexpected type: " ++
                                 typeName row))
        end in
      match rowMap with
      | inl err => inl err
      | inr rowMap =>
          match ToRows_loop columns (S i) rowsRaw' with
          | inl err => inl err
          | inr rows => inr (rowMap :: rows)
          end
      end
  end.

(** [(r *APIResponse) ToRows()] *)
Definition ToRows (r : APIResponse) : error + Rows :=
  if negb (Success r) then inl (api_failure r)
  else
    match as_array (Result r) with
    | None => inl (errorString "unexpected result format: not an array")
    | Some [] => inr (NewRows [] [])
    | Some (result0 :: _) =>
        match as_object result0 with
        | None => inl (errorString "unexpected result item format")
        | Some queryResult =>
            match as_object (index_object queryResult "results") with
            | None => inl (errorString "missing results map")
            | Some resultsData =>
                match as_array (index_object resultsData "rows") with
                | None => inr (NewRows [] [])
                | Some rowsRaw =>
                    let columns :=
                      match as_array (index_object resultsData "columns") with
                      | Some colsRaw => collect_columns colsRaw
                      | None => []
                      end in
                    match ToRows_loop columns 0 rowsRaw with
                    | inl err => inl err
                    | inr rows => inr (NewRows rows columns)
                    end
                end
            end
        end
    end.

(** Modelled from the spec: the type [Result] and its constructor
    [NewResult], which [ToResult] calls and which are not among the source
    files; the summary holds the last inserted identifier and the count of
    affected rows. *)
Record ExecResult : Type := NewResult {
  lastInsertId : Z;
  rowsAffected : Z;
}.

(** [(r *APIResponse) ToResult()] *)
Definition ToResult (r : APIResponse) : error + ExecResult :=
  if negb (Success r) then inl (api_failure r)
  else
    match as_array (Result r) with
    | None => inl (errorString "unexpected result format: not an array")
    | Some [] => inr (NewResult 0 0)
    | Some (result0 :: _) =>
        match as_object result0 with
        | None => inl (errorString "unexpected result item format")
        | Some queryResult =>
            match as_object (index_object queryResult "meta") with
            | None => inr (NewResult 0 0)
            | Some metaData =>
                let lastInsertId :=
                  match metaData !! "last_row_id" with
                  | Some (WNumber f) => float64_to_int64 f
                  | _ => 0
                  end in
                let rowsAffected :=
                  match metaData !! "changes" with
                  | Some val =>
                      match as_float64 val with
                      | Some f => float64_to_int64 f
                      | None => 0
                      end
                  | None =>
                      match metaData !! "rows_written" with
                      | Some (WNumber f) => float64_to_int64 f
                      | _ => 0
                      end
                  end in
                inr (NewResult lastInsertId rowsAffected)
            end
        end
    end.

(** [(r *APIResponse) StructScanAll(dest interface{})]; the cursor is
    closed on return and is not returned. *)
Definition APIResponse_StructScanAll (r : APIResponse) (dest : SliceDest)
    : option (SliceDest * option error) :=
  match ToRows r with
  | inl err => Some (dest, Some err)
  | inr rows =>
      match Rows_StructScanAll rows dest with
      | Some (_, dest, err) => Some (dest, err)
      | None => None
      end
  end.

(** [(r *APIResponse) Get(dest interface{})] *)
Definition APIResponse_Get (r : APIResponse) (dest : StructDest) : StructDest * option error :=
  match ToRows r with
  | inl err => (dest, Some err)
  | inr rows =>
      let '(rows, more) := Rows_Next rows in
      if negb more then (dest, Some (errorString "sql: no rows in result set"))
      else Rows_StructScan rows dest
  end.

End utils_request.

(* ===================================================================== *)
(** * Package migrations: migrations and their order *)
(* ===================================================================== *)

(** [type MigrationDirection int] *)
Inductive MigrationDirection : Type := Up | Down.

(** [type Migration struct] *)
Record Migration : Type := mkMigration {
  Id : string;
  Migration_Up : list string;
  Migration_Down : list string;
  DisableTransactionUp : bool;
  DisableTransactionDown : bool;
}.

Definition is_digit (c : ascii) : bool :=
  match digit_value c with Some _ => true | None => false end.

Definition is_newline (c : ascii) : bool := Ascii.eqb c (ascii_of_nat 10).

(** The longest run of decimal digits at the start of [s], and the rest. *)
Fixpoint span_digits (s : string) : string * string :=
  match s with
  | EmptyString => (EmptyString, EmptyString)
  | String c s' =>
      if is_digit c then let '(ds, rest) := span_digits s' in (String c ds, rest)
      else (EmptyString, s)
  end.

Fixpoint has_newline (s : string) : bool :=
  match s with
  | EmptyString => false
  | String c s' => is_newline c || has_newline s'
  end.

(** [numberPrefixRegex.FindStringSubmatch(id)] for the expression
    [^(\d+).*$]: one digit or more, then any bytes but a newline up to the
    end of the text. The result is the whole match and the digits, or
    nothing. *)
Definition numberPrefixRegex_FindStringSubmatch (id : string) : list string :=
  let '(ds, rest) := span_digits id in
  if nonempty ds && negb (has_newline rest) then [id; ds] else [].

(** [(m Migration) NumberPrefixMatches()] *)
Definition NumberPrefixMatches (m : Migration) : list string :=
  numberPrefixRegex_FindStringSubmatch (Id m).

(** [(m Migration) isNumeric()] *)
Definition isNumeric (m : Migration) : bool :=
  (0 <? len (NumberPrefixMatches m)).

(** [(m Migration) VersionInt()]. On an id without a numeric prefix the Go
    method panics on the index; [Less] calls it on numeric ids only, and
    the model gives 0 there. *)
Definition VersionInt (m : Migration) : Z :=
  match NumberPrefixMatches m !! 1%nat with
  | Some v =>
      match strconv_ParseInt v with
      | inl _ => 0
      | inr value => value
      end
  | None => 0
  end.

(** [(m Migration) Less(other *Migration)] *)
Definition Less (m other : Migration) : bool :=
  if isNumeric m && isNumeric other && negb (VersionInt m =? VersionInt other) then
    VersionInt m <? VersionInt other
  else if isNumeric m && negb (isNumeric other) then true
  else if negb (isNumeric m) && isNumeric other then false
  else String.ltb (Id m) (Id other).

(** What [sort.Sort(byId(migrations))] establishes: no migration is
    [Less] than one that stands before it. *)
Definition sorted_byId (ms : list Migration) : Prop :=
  StronglySorted (fun a b => Less b a = false) ms.

(** [type MigrationSource interface]: what [FindMigrations] returns. *)
Record MigrationSource : Type := mkSource {
  FindMigrations : error + list Migration;
}.

(* ===================================================================== *)
(** * Package migrations: the parser *)
(* ===================================================================== *)

Section migrations_parser.
Context {lib : GoLib}.

(** [type ParsedMigration struct]; the two flags carry the suffix [_p]. *)
Record ParsedMigration : Type := mkParsed {
  UpStatements : list string;
  DownStatements : list string;
  DisableTransactionUp_p : bool;
  DisableTransactionDown_p : bool;
}.

(** [splitSQLStatements(sql)] *)
Definition splitSQLStatements (sql : string) : list string :=
  strings_Split_semicolon sql.

(** [appendStatement(p, dir, sql)] *)
Definition appendStatement (p : ParsedMigration) (dir : MigrationDirection) (sql : string)
    : ParsedMigration :=
  foldl (fun p stmt =>
           let stmt := strings_TrimSpace stmt in
           if negb (nonempty stmt) then p
           else
             match dir with
             | Up =>
                 {| UpStatements := (UpStatements p ++ [stmt])%list;
                    DownStatements := DownStatements p;
                    DisableTransactionUp_p := DisableTransactionUp_p p;
                    DisableTransactionDown_p := DisableTransactionDown_p p |}
             | Down =>
                 {| UpStatements := UpStatements p;
                    DownStatements := (DownStatements p ++ [stmt])%list;
                    DisableTransactionUp_p := DisableTransactionUp_p p;
                    DisableTransactionDown_p := DisableTransactionDown_p p |}
             end)
        p (splitSQLStatements sql).

(** The variables of the loop of [parseMigration]: [p],
    [currentDirection] and [buf]. *)
Record parser_state : Type := mkParser {
  parsed : ParsedMigration;
  currentDirection : MigrationDirection;
  buf : string;
}.

(** [if buf.Len() > 0 { appendStatement(p, currentDirection, buf.String()) }] *)
Definition flush (st : parser_state) : ParsedMigration :=
  if nonempty (buf st) then appendStatement (parsed st) (currentDirection st) (buf st)
  else parsed st.

(** The body of the loop of [parseMigration] on one line. *)
Definition parse_line (st : parser_state) (line : string) : parser_state :=
  if strings_HasPrefix line "-- +migrate Up" then
    let p := flush st in
    {| parsed :=
         if strings_Contains line "notransaction" then
           {| UpStatements := UpStatements p; DownStatements := DownStatements p;
              DisableTransactionUp_p := true;
              DisableTransactionDown_p := DisableTransactionDown_p p |}
         else p;
       currentDirection := Up;
       buf := if nonempty (buf st) then EmptyString else buf st |}
  else if strings_HasPrefix line "-- +migrate Down" then
    let p := flush st in
    {| parsed :=
         if strings_Contains line "notransaction" then
           {| UpStatements := UpStatements p; DownStatements := DownStatements p;
              DisableTransactionUp_p := DisableTransactionUp_p p;
              DisableTransactionDown_p := true |}
         else p;
       currentDirection := Down;
       buf := if nonempty (buf st) then EmptyString else buf st |}
  else if strings_HasPrefix line "-- +migrate StatementBegin" then st
  else if strings_HasPrefix line "-- +migrate StatementEnd" then st
  else
    {| parsed := parsed st;
       currentDirection := currentDirection st;
       buf := (if nonempty (buf st) then buf st ++ nl else buf st) ++ line |}.

Definition parser_init : parser_state :=
  {| parsed := {| UpStatements := []; DownStatements := [];
                  DisableTransactionUp_p := false; DisableTransactionDown_p := false |};
     currentDirection := Up;
     buf := EmptyString |}.

(** The loop of [parseMigration] over the lines and the flush after it. *)
Definition parse_lines (lines : list string) : ParsedMigration :=
  flush (foldl parse_line parser_init lines).

(** [parseMigration(r)], [text] being what [r] reads. The error it returns
    is always nil. *)
Definition parseMigration (text : string) : error + ParsedMigration :=
  inr (parse_lines (bufio_ScanLines text)).

(** [ParseMigration(id, r)] *)
Definition ParseMigration (id : string) (text : string) : error + Migration :=
  match parseMigration text with
  | inl err => inl (Errorf_w ("Error parsing migration (" ++ id ++ "): ") err)
  | inr parsed =>
      inr {| Id := id;
             Migration_Up := UpStatements parsed;
             Migration_Down := DownStatements parsed;
             DisableTransactionUp := DisableTransactionUp_p parsed;
             DisableTransactionDown := DisableTransactionDown_p parsed |}
  end.

End migrations_parser.

(* ===================================================================== *)
(** * Package migrations: the planner and the executor *)
(* ===================================================================== *)

(** The database collaborator: the [*Client] the executor is handed, with
    the remote service behind it, and the clock. A call takes the state of
    the world and gives the state after it. *)
Class D1Client {lib : GoLib} : Type := {
  World : Type;
  (** [client.Query(query, params)] *)
  client_Query : string -> list string -> World -> World * (error + APIResponse);
  (** [client.CreateTable(createQuery)] *)
  client_CreateTable : string -> World -> World * (error + APIResponse);
  (** [time.Now().Format(time.RFC3339)] *)
  time_Now_RFC3339 : World -> string;
}.

(** [type MigrationSet struct] *)
Record MigrationSet : Type := mkMigrationSet {
  TableName : string;
}.

(** [(ms MigrationSet) getTableName()] *)
Definition getTableName (ms : MigrationSet) : string :=
  if negb (nonempty (TableName ms)) then "d1_migrations" else TableName ms.

(** The four statements the executor issues on its ledger table. *)
Definition ensureTable_query (ms : MigrationSet) : string :=
  "CREATE TABLE IF NOT EXISTS " ++ getTableName ms ++ " (" ++ nl ++
  tab ++ tab ++ "id TEXT PRIMARY KEY," ++ nl ++
  tab ++ tab ++ "applied_at DATETIME" ++ nl ++
  tab ++ ");".

Definition select_query (ms : MigrationSet) : string :=
  "SELECT id FROM " ++ getTableName ms ++ " ORDER BY id ASC;".

Definition insert_query (ms : MigrationSet) : string :=
  "INSERT INTO " ++ getTableName ms ++ " (id, applied_at) VALUES (?, ?);".

Definition delete_query (ms : MigrationSet) : string :=
  "DELETE FROM " ++ getTableName ms ++ " WHERE id = ?;".

(** ** The planner *)

(** The loop that fills [appliedMap]. *)
Definition build_appliedMap (applied : list string) : gmap string bool :=
  foldl (fun appliedMap id => <[id := true]> appliedMap) ∅ applied.

(** The loop that fills [migrationMap]. *)
Definition build_migrationMap (all : list Migration) : gmap string Migration :=
  foldl (fun migrationMap m => <[Id m := m]> migrationMap) ∅ all.

(** [appliedMap[id]]: false for a missing key. *)
Definition index_bool (appliedMap : gmap string bool) (id : string) : bool :=
  match appliedMap !! id with Some b => b | None => false end.

(** The loop of the upward branch. *)
Definition plan_up_loop (appliedMap : gmap string bool) (all : list Migration)
    : list Migration :=
  foldl (fun toApply m =>
           if negb (index_bool appliedMap (Id m)) then (toApply ++ [m])%list else toApply)
        [] all.

(** The loop [for i := len(applied) - 1; i >= 0; i--] of the downward
    branch; [n] is [i + 1]. *)
Fixpoint plan_down_loop (migrationMap : gmap string Migration) (applied : list string)
    (n : nat) (toApply : list Migration) : list Migration :=
  match n with
  | O => toApply
  | S i =>
      let toApply :=
        match applied !! i with
        | Some id =>
            match migrationMap !! id with
            | Some m => (toApply ++ [m])%list
            | None => toApply
            end
        | None => toApply
        end in
      plan_down_loop migrationMap applied i toApply
  end.

(** [(ms MigrationSet) planMigrations(all, applied, dir, max)] *)
Definition planMigrations (all : list Migration) (applied : list string)
    (dir : MigrationDirection) (max : Z) : list Migration :=
  let appliedMap := build_appliedMap applied in
  let toApply :=
    match dir with
    | Up => plan_up_loop appliedMap all
    | Down => plan_down_loop (build_migrationMap all) applied (length applied) []
    end in
  if (0 <? max) && (max <? len toApply) then take (Z.to_nat max) toApply else toApply.

Section migrations_executor.
Context {lib : GoLib} {client : D1Client}.

(** The error of a call whose response is dropped: [_, err := ...]. *)
Definition err_of {A} (res : error + A) : option error :=
  match res with inl err => Some err | inr _ => None end.

(** [(ms MigrationSet) ensureTable(client)] *)
Definition ensureTable (ms : MigrationSet) (w : World) : World * option error :=
  let '(w, res) := client_CreateTable (ensureTable_query ms) w in
  (w, err_of res).

(** The local [record] of [getAppliedMigrations]:
    [struct { Id string `db:"id"` }]. *)
Definition record_zero : Elem :=
  Struct [ {| Name := "Id"; db := "id"; cell := PString "" |} ].

(** [record.Id] *)
Definition record_Id (record : Elem) : string :=
  match record with
  | Struct ({| cell := PString id |} :: _) => id
  | _ => ""
  end.

(** The loop [for rows.Next() { ... }] of [getAppliedMigrations]. [None]
    when the fuel runs out. *)
Fixpoint getAppliedMigrations_loop (fuel : nat) (rows : Rows) (ids : list string)
    : option (error + list string) :=
  match fuel with
  | O => None
  | S fuel =>
      let '(rows, more) := Rows_Next rows in
      if more then
        match StructScan_ptr rows record_zero with
        | (_, Some err) => Some (inl err)
        | (record, None) =>
            getAppliedMigrations_loop fuel rows (ids ++ [record_Id record])%list
        end
      else Some (inr ids)
  end.

(** [(ms MigrationSet) getAppliedMigrations(client)] *)
Definition getAppliedMigrations (ms : MigrationSet) (w : World)
    : option (World * (error + list string)) :=
  let '(w, res) := client_Query (select_query ms) [] w in
  match res with
  | inl err => Some (w, inl err)
  | inr res =>
      match ToRows res with
      | inl err => Some (w, inl err)
      | inr rows =>
          match getAppliedMigrations_loop (S (row_count rows)) rows [] with
          | Some r => Some (w, r)
          | None => None
          end
      end
  end.

(** The loop of [applyMigration] over the queries of the migration. *)
Fixpoint run_queries (queries : list string) (w : World) : World * option error :=
  match queries with
  | [] => (w, None)
  | q :: queries' =>
      let '(w, res) := client_Query q [] w in
      match err_of res with
      | Some err => (w, Some err)
      | None => run_queries queries' w
      end
  end.

(** [(ms MigrationSet) applyMigration(client, m, dir)] *)
Definition applyMigration (ms : MigrationSet) (m : Migration) (dir : MigrationDirection)
    (w : World) : World * option error :=
  let queries := match dir with Down => Migration_Down m | Up => Migration_Up m end in
  match run_queries queries w with
  | (w, Some err) => (w, Some err)
  | (w, None) =>
      match dir with
      | Up =>
          let '(w, res) := client_Query (insert_query ms) [Id m; time_Now_RFC3339 w] w in
          (w, err_of res)
      | Down =>
          let '(w, res) := client_Query (delete_query ms) [Id m] w in
          (w, err_of res)
      end
  end.

(** The loop of [ExecMax] over the plan. *)
Fixpoint apply_plan (ms : MigrationSet) (dir : MigrationDirection)
    (toApply : list Migration) (count : nat) (w : World) : World * (nat * option error) :=
  match toApply with
  | [] => (w, (count, None))
  | migration :: toApply' =>
      match applyMigration ms migration dir w with
      | (w, Some err) =>
          (w, (count, Some (Errorf_w ("failed to apply migration " ++ Id migration ++ ": ") err)))
      | (w, None) => apply_plan ms dir toApply' (S count) w
      end
  end.

(** Steps 1 to 4 of [ExecMax]: the plan [toApply], or the error the
    function returns before it applies anything. *)
Definition ExecMax_plan (ms : MigrationSet) (m : MigrationSource) (dir : MigrationDirection)
    (max : Z) (w : World) : option (World * (error + list Migration)) :=
  match ensureTable ms w with
  | (w, Some err) => Some (w, inl (Errorf_w "failed to ensure migration table: " err))
  | (w, None) =>
      match getAppliedMigrations ms w with
      | None => None
      | Some (w, inl err) => Some (w, inl (Errorf_w "failed to get applied migrations: " err))
      | Some (w, inr applied) =>
          match FindMigrations m with
          | inl err => Some (w, inl (Errorf_w "failed to find migrations: " err))
          | inr allMigrations => Some (w, inr (planMigrations allMigrations applied dir max))
          end
      end
  end.

(** [(ms MigrationSet) ExecMax(client, m, dir, max)]: the world afterwards,
    the count and the error. *)
Definition ExecMax (ms : MigrationSet) (m : MigrationSource) (dir : MigrationDirection)
    (max : Z) (w : World) : option (World * (nat * option error)) :=
  match ExecMax_plan ms m dir max w with
  | None => None
  | Some (w, inl err) => Some (w, (O, Some err))
  | Some (w, inr toApply) => Some (apply_plan ms dir toApply O w)
  end.

(** [Exec(client, m, dir)] and the package-level [ExecMax], on the
    package's [migSet]. *)
Definition Exec (migSet : MigrationSet) (m : MigrationSource) (dir : MigrationDirection)
    (w : World) : option (World * (nat * option error)) :=
  ExecMax migSet m dir 0 w.

End migrations_executor.

(* ===================================================================== *)
(** * Package utils: the conversion of query parameters *)
(* ===================================================================== *)

(** What [ConvertParams] takes from outside the repository, besides
    [GoLib]. *)
Class ParamsLib {lib : GoLib} : Type := {
  (** the values of type [float32] and [fmt.Sprintf("%v", v)] on them *)
  float32 : Type;
  float32_format : float32 -> string;
  (** the values of type [time.Time] and
      [v.Format("2006-01-02 15:04:05")] *)
  time_Time : Type;
  time_Format_datetime : time_Time -> string;
  (** the values of every other type, what [%T] prints for them and
      [json.Marshal] *)
  other : Type;
  other_typeName : other -> string;
  json_Marshal : other -> error + string;
}.

Section utils_params.
Context {lib : GoLib} {plib : ParamsLib}.

(** An argument of [ConvertParams], by the case of the type switch that
    its dynamic type selects. The integer types of all widths, signed and
    unsigned, are printed alike and share a constructor. *)
Inductive Arg : Type :=
| ArgNil
| ArgString (v : string)
| ArgInt (v : Z)
| ArgFloat32 (v : float32)
| ArgFloat64 (v : float64)
| ArgBool (v : bool)
| ArgTime (v : time_Time)
| ArgBytes (v : string)
| ArgOther (v : other).

(** The body of the loop of [ConvertParams] on argument [i]. *)
Definition convertParam (i : nat) (arg : Arg) : error + string :=
  match arg with
  | ArgNil => inr ""
  | ArgString v => inr v
  | ArgInt v => inr (format_d v)
  | ArgFloat32 v => inr (float32_format v)
  | ArgFloat64 v => inr (float64_format v)
  | ArgBool v => inr (if v then "1" else "0")
  | ArgTime v => inr (time_Format_datetime v)
  | ArgBytes v => inr v
  | ArgOther v =>
      match json_Marshal v with
      | inl err =>
          inl (errorString ("无法转换参数 #" ++ format_n i ++ " (类型:" ++
                            other_typeName v ++ "): " ++ Error err))
      | inr b => inr b
      end
  end.

(** The loop of [ConvertParams] from index [i] on. *)
Fixpoint ConvertParams_loop (i : nat) (args : list Arg) : error + list string :=
  match args with
  | [] => inr []
  | arg :: args' =>
      match convertParam i arg with
      | inl err => inl err
      | inr s =>
          match ConvertParams_loop (S i) args' with
          | inl err => inl err
          | inr result => inr (s :: result)
          end
      end
  end.

(** [ConvertParams(args ...interface{})]: the result is never a nil slice
    when the error is nil. *)
Definition ConvertParams (args : list Arg) : error + list string :=
  match args with
  | [] => inr []
  | _ => ConvertParams_loop 0 args
  end.

End utils_params.

(* ===================================================================== *)
(** * Package client: the client *)
(* ===================================================================== *)

(** The transport: [utils.DoRequest], which sends the request and decodes
    the envelope, and the encoding of the request body. A request takes
    the state of the network and the service and gives the state after
    it. *)
Class Transport {lib : GoLib} : Type := {
  Net : Type;
  (** [utils.DoRequest(method, url, payload, apiToken)] *)
  DoRequest : string -> string -> string -> string -> Net -> Net * (error + APIResponse);
  (** [json.Marshal] of the request body with its [sql] and [params] *)
  marshal_body : string -> slice string -> error + string;
}.

(** [type Client struct] *)
Record Client : Type := mkClient {
  AccountID : string;
  APIToken : string;
  DatabaseID : string;
}.

(** [NewClient(accountID, apiToken)]: [None] is the nil client. *)
Definition NewClient (accountID apiToken : string) : option Client :=
  if negb (nonempty accountID) || negb (nonempty apiToken) then None
  else Some {| AccountID := accountID; APIToken := apiToken; DatabaseID := "" |}.

Section client.
Context {lib : GoLib} {plib : ParamsLib} {net : Transport}.

Definition raw_url (c : Client) (databaseID : string) : string :=
  "https://api.cloudflare.com/client/v4/accounts/" ++ AccountID c ++
  "/d1/database/" ++ databaseID ++ "/raw".

(** [(c *Client) QueryDB(databaseID, query, params)] *)
Definition Client_QueryDB (c : Client) (databaseID query : string) (params : slice string)
    (w : Net) : Net * (error + APIResponse) :=
  match marshal_body query params with
  | inl err => (w, inl (Errorf_w "failed to marshal request body: " err))
  | inr body => DoRequest "POST" (raw_url c databaseID) body (APIToken c) w
  end.

(** [(c *Client) CreateTableWithID(databaseID, createQuery)] *)
Definition Client_CreateTableWithID (c : Client) (databaseID createQuery : string)
    (w : Net) : Net * (error + APIResponse) :=
  match marshal_body createQuery (slice_of []) with
  | inl err => (w, inl (Errorf_w "failed to marshal request body: " err))
  | inr body => DoRequest "POST" (raw_url c databaseID) body (APIToken c) w
  end.

(** [(c *Client) RemoveTableWithID(databaseID, tableName)] *)
Definition Client_RemoveTableWithID (c : Client) (databaseID tableName : string)
    (w : Net) : Net * (error + APIResponse) :=
  let query := "DROP TABLE IF EXISTS " ++ tableName ++ ";" in
  match marshal_body query (slice_of []) with
  | inl err => (w, inl (Errorf_w "failed to marshal request body: " err))
  | inr body => DoRequest "POST" (raw_url c databaseID) body (APIToken c) w
  end.

Definition not_connected : error :=
  errorString "no database connected, call ConnectDB first".

(** [(c *Client) Query(query, params)] *)
Definition Client_Query (c : Client) (query : string) (params : slice string)
    (w : Net) : Net * (error + APIResponse) :=
  if negb (nonempty (DatabaseID c)) then (w, inl not_connected)
  else Client_QueryDB c (DatabaseID c) query params w.

(** [(c *Client) CreateTable(createQuery)] *)
Definition Client_CreateTable (c : Client) (createQuery : string)
    (w : Net) : Net * (error + APIResponse) :=
  if negb (nonempty (DatabaseID c)) then (w, inl not_connected)
  else Client_CreateTableWithID c (DatabaseID c) createQuery w.

(** [(c *Client) RemoveTable(tableName)] *)
Definition Client_RemoveTable (c : Client) (tableName : string)
    (w : Net) : Net * (error + APIResponse) :=
  if negb (nonempty (DatabaseID c)) then (w, inl not_connected)
  else Client_RemoveTableWithID c (DatabaseID c) tableName w.

(** [(c *Client) Select(dest, query, args...)]: the network and the
    destination afterwards and the error. *)
Definition Client_Select (c : Client) (dest : SliceDest) (query : string) (args : list Arg)
    (w : Net) : option (Net * SliceDest * option error) :=
  match ConvertParams args with
  | inl err => Some (w, dest, Some err)
  | inr params =>
      match Client_Query c query (slice_of params) w with
      | (w, inl err) => Some (w, dest, Some err)
      | (w, inr res) =>
          match APIResponse_StructScanAll res dest with
          | Some (dest, err) => Some (w, dest, err)
          | None => None
          end
      end
  end.

(** [(c *Client) Get(dest, query, args...)] *)
Definition Client_Get (c : Client) (dest : StructDest) (query : string) (args : list Arg)
    (w : Net) : Net * StructDest * option error :=
  match ConvertParams args with
  | inl err => (w, dest, Some err)
  | inr params =>
      match Client_Query c query (slice_of params) w with
      | (w, inl err) => (w, dest, Some err)
      | (w, inr res) => let '(dest, err) := APIResponse_Get res dest in (w, dest, err)
      end
  end.

(** Modelled from the spec: the method [RowsAffected] of the type [Result],
    which is not among the source files; it gives the count of affected
    rows of the summary and no error. *)
Definition RowsAffected (result : ExecResult) : Z * option error :=
  (rowsAffected result, None).

(** [(c *Client) Exec(query, args...)] *)
Definition Client_Exec (c : Client) (query : string) (args : list Arg)
    (w : Net) : Net * (Z * option error) :=
  match ConvertParams args with
  | inl err => (w, (0, Some err))
  | inr params =>
      match Client_Query c query (slice_of params) w with
      | (w, inl err) => (w, (0, Some err))
      | (w, inr res) =>
          match ToResult res with
          | inl err => (w, (0, Some err))
          | inr result => (w, RowsAffected result)
          end
      end
  end.

(** The client as the database collaborator of the executor, which hands
    [nil] for the parameters of a statement without any. The executor
    reads the clock through [now]. *)
Definition client_collaborator (c : Client) (now : Net -> string) : D1Client :=
  {| World := Net;
     client_Query := fun query params =>
       Client_Query c query (match params with [] => nil_slice | _ => slice_of params end);
     client_CreateTable := Client_CreateTable c;
     time_Now_RFC3339 := now |}.

End client.

(* ===================================================================== *)
(** * Package migrations: the in-memory source *)
(* ===================================================================== *)

(** The relation [sort.Sort(byId(...))] puts between a migration and the
    ones after it. *)
Definition byId_le (a b : Migration) : Prop := Less b a = false.

#[global] Instance byId_le_dec : RelDecision byId_le.
Proof. intros a b. unfold byId_le. apply _. Defined.

(** [type MemoryMigrationSource struct] *)
Record MemoryMigrationSource : Type := mkMemorySource {
  Migrations : list Migration;
}.

(** [(m MemoryMigrationSource) FindMigrations()]. [sort.Sort] is not
    stable: where two migrations have one id the model takes the order of
    a merge sort, and what is proved of the result holds for every sorted
    permutation. *)
Definition MemoryMigrationSource_FindMigrations (m : MemoryMigrationSource)
    : error + list Migration :=
  inr (merge_sort byId_le (Migrations m)).

(* ===================================================================== *)
(** * A reference library: ASCII text and whole numbers *)
(* ===================================================================== *)

(** An instance of [GoLib] on which the definitions above can be run. It
    agrees with Go on ASCII text of lines shorter than the scanner's
    buffer and on numbers without a fraction; [%q] is exact on text
    without quotes, backslashes and control bytes. *)

Definition code (c : ascii) : Z := Z.of_nat (nat_of_ascii c).

Definition quote : string := String (ascii_of_nat 34) EmptyString.

Definition is_space (c : ascii) : bool :=
  ((9 <=? code c) && (code c <=? 13)) || (code c =? 32).

Definition is_blank (c : ascii) : bool := (code c =? 32) || (code c =? 9).

Fixpoint drop_while (p : ascii -> bool) (s : string) : string :=
  match s with
  | EmptyString => EmptyString
  | String c s' => if p c then drop_while p s' else s
  end.

Definition ascii_TrimSpace (s : string) : string :=
  String.rev (drop_while is_space (String.rev (drop_while is_space s))).

Definition lower (c : ascii) : ascii :=
  if (65 <=? code c) && (code c <=? 90) then ascii_of_nat (nat_of_ascii c + 32) else c.

Fixpoint ascii_ToLower (s : string) : string :=
  match s with
  | EmptyString => EmptyString
  | String c s' => String (lower c) (ascii_ToLower s')
  end.

(** The reversed line without the carriage return that ends it. *)
Definition dropCR_rev (line : string) : string :=
  String.rev match line with
             | String c line' => if code c =? 13 then line' else line
             | EmptyString => line
             end.

Fixpoint scan_lines (line : string) (s : string) : list string :=
  match s with
  | EmptyString => if nonempty line then [dropCR_rev line] else []
  | String c s' =>
      if is_newline c then dropCR_rev line :: scan_lines EmptyString s'
      else scan_lines (String c line) s'
  end.

Definition scan_decimal (s : string) : option Z :=
  let s := drop_while is_blank s in
  let '(sign, s) :=
    match s with
    | String "-"%char s' => ("-", s')
    | String "+"%char s' => ("+", s')
    | _ => ("", s)
    end in
  let '(ds, _) := span_digits s in
  if nonempty ds then
    match strconv_ParseInt (sign ++ ds) with
    | inr v => Some v
    | inl _ => None
    end
  else None.

Definition join (sep : string) (l : list string) : string :=
  match l with
  | [] => EmptyString
  | x :: l' => foldl (fun acc y => acc ++ sep ++ y) x l'
  end.

(** The order of [<] on Go strings and of a [TEXT] column: byte by byte. *)
Definition text_le (a b : string) : Prop := String.leb a b = true.

#[global] Instance text_le_dec : RelDecision text_le.
Proof. intros a b. unfold text_le. apply _. Defined.

Definition key_le (a b : string * string) : Prop := text_le (fst a) (fst b).

#[global] Instance key_le_dec : RelDecision key_le.
Proof. intros a b. unfold key_le. apply _. Defined.

Fixpoint format_v (w : wire Z) : string :=
  match w with
  | WNull => "<nil>"
  | WBool b => if b then "true" else "false"
  | WNumber z => format_d z
  | WString s => s
  | WArray l => "[" ++ join " " (map format_v l) ++ "]"
  | WObject m =>
      "map[" ++
      join " " (map (fun kv => fst kv ++ ":" ++ snd kv)
                  (merge_sort key_le (map_to_list (format_v <$> m)))) ++
      "]"
  end.

#[global] Instance ascii_lib : GoLib := {|
  float64 := Z;
  float64_to_int := fun z => z;
  float64_to_int64 := fun z => z;
  float64_zero := 0;
  float64_is_zero := fun z => z =? 0;
  float64_format := fun z => format_d z;
  composite_format := format_v;
  Sscanf_d := scan_decimal;
  strconv_Quote := fun s => quote ++ s ++ quote;
  strings_ToLower := ascii_ToLower;
  strings_TrimSpace := ascii_TrimSpace;
  bufio_ScanLines := scan_lines EmptyString;
  map_range_keys := fun m => (map_to_list m).*1;
  Scanner := wire Z;
  Scanner_Scan := fun _ src => (src, None);
|}.

(** A reference instance of [ParamsLib] over [ascii_lib]: a [float32]
    without a fraction, a time given by its formatted text, and a value of
    another type given by its JSON text, or by nothing when
    [json.Marshal] refuses it, as it does a channel. *)
#[global] Instance ascii_params : ParamsLib (lib := ascii_lib) := {|
  float32 := Z;
  float32_format := fun z => format_d z;
  time_Time := string;
  time_Format_datetime := fun t => t;
  other := option string;
  other_typeName := fun v => match v with Some _ => "map[string]int" | None => "chan int" end;
  json_Marshal := fun v =>
    match v with
    | Some text => inr text
    | None => inl (errorString "json: unsupported type: chan int")
    end;
|}.

(** A reference transport: the network keeps the payloads it was sent,
    and every request is answered with an empty success. The body is the
    statement followed by its parameters, one per line. *)
#[global] Instance logging_net : Transport (lib := ascii_lib) := {|
  Net := list string;
  DoRequest := fun method url payload apiToken w =>
    ((w ++ [payload])%list, inr {| Result := WArray []; Success := true; Errors := [] |});
  marshal_body := fun query params => inr (join nl (query :: slice_elems params));
|}.

(* ===================================================================== *)
(** * A reference database: the ledger table behind the client *)
(* ===================================================================== *)

(** A model of the remote service as the executor uses it. The ledger
    table keeps its rows in the order of insertion, has [id] as its primary
    key and answers [ORDER BY id ASC] in the byte order of the ids. Every
    other statement is recorded and succeeds, and leaves the ledger alone.
    A failure the service reports comes back as an envelope without a Go
    error, as [DoRequest] decodes it; a statement listed in [unreachable]
    fails in the transport, with a Go error. *)
Record LedgerDB : Type := mkLedgerDB {
  ledger : option (list (string * string));
  journal : list string;
  unreachable : list string;
  wall_clock : string;
}.

Section ledger_db.
Context {lib : GoLib}.
Variable ms : MigrationSet.

Definition set_ledger (w : LedgerDB) (l : list (string * string)) : LedgerDB :=
  {| ledger := Some l; journal := journal w;
     unreachable := unreachable w; wall_clock := wall_clock w |}.

Definition record_statement (w : LedgerDB) (q : string) : LedgerDB :=
  {| ledger := ledger w; journal := (journal w ++ [q])%list;
     unreachable := unreachable w; wall_clock := wall_clock w |}.

(** The ids of the ledger in the order of insertion. *)
Definition ledger_ids (w : LedgerDB) : list string :=
  match ledger w with
  | Some l => l.*1
  | None => []
  end.

(** The envelope of a statement that succeeded, with its columns and its
    positional rows. *)
Definition success_envelope (cols : list string) (rs : list (list string)) : APIResponse :=
  {| Result :=
       WArray [ WObject (<["results" :=
                  WObject (<["columns" := WArray (WString <$> cols)]>
                          (<["rows" := WArray ((fun r => WArray (WString <$> r)) <$> rs)]> ∅))]>
                (<["success" := WBool true]> ∅)) ];
     Success := true;
     Errors := [] |}.

Definition failure_envelope (msg : string) : APIResponse :=
  {| Result := WArray [];
     Success := false;
     Errors := [ {| Code := 7500; Message := msg |} ] |}.

Definition db_Query (q : string) (params : list string) (w : LedgerDB)
    : LedgerDB * (error + APIResponse) :=
  if bool_decide (q ∈ unreachable w) then (w, inl (errorString "connection refused"))
  else if String.eqb q (select_query ms) then
    match ledger w with
    | Some l => (w, inr (success_envelope ["id"] ((fun id => [id]) <$> merge_sort text_le l.*1)))
    | None => (w, inr (failure_envelope ("no such table: " ++ getTableName ms)))
    end
  else if String.eqb q (insert_query ms) then
    match ledger w, params with
    | Some l, [id; applied_at] =>
        if bool_decide (id ∈ l.*1) then
          (w, inr (failure_envelope "UNIQUE constraint failed"))
        else (set_ledger w (l ++ [(id, applied_at)])%list, inr (success_envelope [] []))
    | Some _, _ => (w, inr (failure_envelope "wrong number of parameter bindings"))
    | None, _ => (w, inr (failure_envelope ("no such table: " ++ getTableName ms)))
    end
  else if String.eqb q (delete_query ms) then
    match ledger w, params with
    | Some l, [id] =>
        (set_ledger w (filter (fun row => row.1 ≠ id) l), inr (success_envelope [] []))
    | Some _, _ => (w, inr (failure_envelope "wrong number of parameter bindings"))
    | None, _ => (w, inr (failure_envelope ("no such table: " ++ getTableName ms)))
    end
  else (record_statement w q, inr (success_envelope [] [])).

Definition db_CreateTable (q : string) (w : LedgerDB) : LedgerDB * (error + APIResponse) :=
  if bool_decide (q ∈ unreachable w) then (w, inl (errorString "connection refused"))
  else if String.eqb q (ensureTable_query ms) then
    match ledger w with
    | Some _ => (w, inr (success_envelope [] []))
    | None => (set_ledger w [], inr (success_envelope [] []))
    end
  else (record_statement w q, inr (success_envelope [] [])).

Definition ledger_db : D1Client := {|
  World := LedgerDB;
  client_Query := db_Query;
  client_CreateTable := db_CreateTable;
  time_Now_RFC3339 := wall_clock;
|}.

(** The same database behind a service that refuses the statements listed
    in [refused], as it does a statement with an SQL error: a refused
    statement changes nothing and is answered with a failure envelope,
    which [DoRequest] decodes and returns with a nil Go error. *)
Definition refused_Query (refused : list string) (q : string) (params : list string)
    (w : LedgerDB) : LedgerDB * (error + APIResponse) :=
  if bool_decide (q ∈ refused) then (w, inr (failure_envelope ("SQL error in: " ++ q)))
  else db_Query q params w.

Definition refusing_db (refused : list string) : D1Client := {|
  World := LedgerDB;
  client_Query := refused_Query refused;
  client_CreateTable := db_CreateTable;
  time_Now_RFC3339 := wall_clock;
|}.

End ledger_db.

(* ===================================================================== *)
(** * Vocabulary of the properties *)
(* ===================================================================== *)

Section vocabulary.
Context {lib : GoLib}.

(** The destinations of the coercion table: string, integer, floating
    point, boolean and any-typed. *)
Definition in_coercion_table (d : Dest) : bool :=
  match d with
  | PString _ | PInt _ | PInt64 _ | PFloat64 _ | PBool _ | PAny _ => true
  | PScanner _ | POther _ | NotPtr _ => false
  end.

(** The column "null" of the coercion table: the empty string, zero,
    false, nil. *)
Definition null_coercion (d : Dest) : Dest :=
  match d with
  | PString _ => PString ""
  | PInt _ => PInt 0
  | PInt64 _ => PInt64 0
  | PFloat64 _ => PFloat64 float64_zero
  | PBool _ => PBool false
  | PAny _ => PAny WNull
  | PScanner _ | POther _ | NotPtr _ => d
  end.

(** The cursor after one more call of [Next]. *)
Definition advanced (r : Rows) : Rows :=
  {| rows := rows r; columns := columns r; current := current r + 1; lastErr := lastErr r |}.

(** The envelope is a success whose first result holds the Column Set
    [cols] and the raw rows [rowsRaw]. *)
Definition carries (r : APIResponse) (cols : list string)
    (rowsRaw : list (wire float64)) : Prop :=
  Success r = true /\
  exists (queryResult resultsData : gmap string (wire float64)) (rest : list (wire float64)),
    Result r = WArray (WObject queryResult :: rest) /\
    queryResult !! "results" = Some (WObject resultsData) /\
    resultsData !! "rows" = Some (WArray rowsRaw) /\
    cols = match resultsData !! "columns" with
           | Some (WArray colsRaw) => collect_columns colsRaw
           | _ => []
           end.

(** The error of a positional row of the wrong width. *)
Definition RowWidthMismatch (i actual expected : nat) : error :=
  errorString ("row " ++ format_n i ++ " has " ++ format_n actual ++
               " values but expected " ++ format_n expected ++ " columns").

(** A line that starts the up or the down section. *)
Definition is_direction_directive (line : string) : bool :=
  strings_HasPrefix line "-- +migrate Up" || strings_HasPrefix line "-- +migrate Down".

(** A line that begins or ends a statement block. *)
Definition is_block_directive (line : string) : bool :=
  strings_HasPrefix line "-- +migrate StatementBegin" ||
  strings_HasPrefix line "-- +migrate StatementEnd".

(** The buffer after more lines, none of them a direction directive: the
    lines that are no directive, joined by newlines. *)
Definition accumulate (b : string) (lines : list string) : string :=
  foldl (fun b line =>
           if is_block_directive line then b
           else (if nonempty b then b ++ nl else b) ++ line)
        b lines.

(** The statements of a buffer: split at the semicolons, trimmed, the
    empty ones dropped. *)
Definition statements_of (sql : string) : list string :=
  filter (fun stmt => nonempty stmt = true) (strings_TrimSpace <$> splitSQLStatements sql).

(** What flushing a buffer appends: nothing for the empty buffer. *)
Definition flushed (b : string) : list string :=
  if nonempty b then statements_of b else [].

(** [ups] put before the up statements of [p]. *)
Definition prepend_up (ups : list string) (p : ParsedMigration) : ParsedMigration :=
  {| UpStatements := (ups ++ UpStatements p)%list;
     DownStatements := DownStatements p;
     DisableTransactionUp_p := DisableTransactionUp_p p;
     DisableTransactionDown_p := DisableTransactionDown_p p |}.

(** The lines of a text without the empty lines it starts with. *)
Fixpoint drop_leading_empty (lines : list string) : list string :=
  match lines with
  | [] => []
  | line :: lines' => if nonempty line then lines else drop_leading_empty lines'
  end.

(** The state of the parser with [ups] put before its up statements. *)
Definition with_preamble (ups : list string) (st : parser_state) : parser_state :=
  {| parsed := prepend_up ups (parsed st);
     currentDirection := currentDirection st;
     buf := buf st |}.

(** The queries of a migration in a direction. *)
Definition queries_of (m : Migration) (dir : MigrationDirection) : list string :=
  match dir with Down => Migration_Down m | Up => Migration_Up m end.

(** A plan cut at [max] migrations when [max] is positive. *)
Definition capped {A} (max : Z) (l : list A) : list A :=
  if (0 <? max) && (max <? len l) then take (Z.to_nat max) l else l.

(** The ids of the known migrations. *)
Definition known_ids (all : list Migration) : list string := Id <$> all.

(** A length a Go slice can have. *)
Definition fits_int (n : nat) : Prop := Z.of_nat n <= max_int.

(** The database once the ledger table is ensured. *)
Definition ensured (w : LedgerDB) : LedgerDB :=
  match ledger w with
  | Some _ => w
  | None => set_ledger w []
  end.

(** The rows of the answer to the select on the ledger, normalized. *)
Definition id_rows (ids : list string) : list (gmap string (wire float64)) :=
  (fun id => {[ "id" := WString id ]}) <$> ids.

(** The transport reaches the service for the two statements with which
    every run starts. *)
Definition ledger_reachable (ms : MigrationSet) (w : LedgerDB) : Prop :=
  ensureTable_query ms ∉ unreachable w /\ select_query ms ∉ unreachable w.

(** The ordering rule in the words of the specification. The numeric run
    an id starts with, and its value as an integer: *)
Definition numeric_run (id : string) : string := (span_digits id).1.

Definition starts_numeric (id : string) : bool := nonempty (numeric_run id).

Definition run_value (id : string) : Z := default 0 (digits_value 0 (numeric_run id)).

(** Two ids with a numeric run are compared by the values of the runs,
    and as text when the values are equal; an id with a numeric run stands
    before an id without; two ids without are compared as text. *)
Definition ordering_rule (a b : string) : bool :=
  match starts_numeric a, starts_numeric b with
  | true, true =>
      if run_value a =? run_value b then String.ltb a b else run_value a <? run_value b
  | true, false => true
  | false, true => false
  | false, false => String.ltb a b
  end.

(** The cursor after [k] calls of [Next]. *)
Fixpoint Next_times (k : nat) (r : Rows) : Rows :=
  match k with
  | O => r
  | S k => (Rows_Next (Next_times k r)).1
  end.

(** The column a field of a destination record is matched with: its [db]
    tag, or its name in lower case. *)
Definition column_of (field : Field) : string :=
  if nonempty (db field) then db field else strings_ToLower (Name field).

(** Two destinations of one kind: the same case of the type switch. *)
Definition same_kind (d d' : Dest) : Prop :=
  match d, d' with
  | PString _, PString _ | PInt _, PInt _ | PInt64 _, PInt64 _
  | PFloat64 _, PFloat64 _ | PBool _, PBool _ | PAny _, PAny _
  | PScanner _, PScanner _ => True
  | POther t, POther t' | NotPtr t, NotPtr t' => t = t'
  | _, _ => False
  end.

(** Both lists of statements hold no empty statement. *)
Definition no_empty_statement (p : ParsedMigration) : Prop :=
  Forall (fun stmt => nonempty stmt = true) (UpStatements p) /\
  Forall (fun stmt => nonempty stmt = true) (DownStatements p).

End vocabulary.

(** ** Sample values *)

(** A migration with two statements in each direction. *)
Definition sample_migration (id : string) : Migration :=
  {| Id := id;
     Migration_Up := ["create " ++ id; "fill " ++ id];
     Migration_Down := ["empty " ++ id; "drop " ++ id];
     DisableTransactionUp := false;
     DisableTransactionDown := false |}.

Definition sample_set : MigrationSet := {| TableName := "" |}.

Definition sample_source : MigrationSource :=
  {| FindMigrations :=
       inr [sample_migration "1_a"; sample_migration "2_b"; sample_migration "3_c"] |}.

(** A database without a ledger table, and one whose ledger holds three
    ids applied in the order 1_a, 3_c, 2_b. *)
Definition fresh_db (unreachable : list string) : LedgerDB :=
  {| ledger := None; journal := []; unreachable := unreachable;
     wall_clock := "2026-01-01T00:00:00Z" |}.

Definition applied_db : LedgerDB :=
  {| ledger := Some [("1_a", "2026-01-01T00:00:00Z"); ("3_c", "2026-01-02T00:00:00Z");
                     ("2_b", "2026-01-03T00:00:00Z")];
     journal := []; unreachable := [];
     wall_clock := "2026-01-04T00:00:00Z" |}.

(* ===================================================================== *)
(** * Properties *)
(* ===================================================================== *)

(** ** The failure envelope *)

Section envelope_properties.
Context {lib : GoLib}.

(** C7. An envelope with success=false makes both ToRows and ToResult fail
    with the error "api error: " followed by the message of the first
    reported error, and with "api error: unknown" when no error is
    reported. *)
Theorem failure_envelope_is_api_error (r : APIResponse) :
  Success r = false ->
  match Errors r with
  | e :: _ =>
      ToRows r = inl (errorString ("api error: " ++ Message e)) /\
      ToResult r = inl (errorString ("api error: " ++ Message e))
  | [] =>
      ToRows r = inl (errorString "api error: unknown") /\
      ToResult r = inl (errorString "api error: unknown")
  end.
Proof.
  intros Hfail. unfold ToRows, ToResult, api_failure. rewrite Hfail. cbn [negb].
  destruct (Errors r); split; reflexivity.
Qed.

End envelope_properties.

Lemma failure_envelope_is_api_error_witness :
  let r := {| Result := WNull (F := Z); Success := false;
              Errors := [ {| Code := 7500; Message := "no such table: users" |};
                          {| Code := 7501; Message := "second" |} ] |} in
  ToRows r = inl (errorString "api error: no such table: users") /\
  ToResult r = inl (errorString "api error: no such table: users").
Proof.
  intros r. exact (failure_envelope_is_api_error (lib := ascii_lib) r eq_refl).
Defined.

(** ** Coercion and scanning *)

Section scan_properties.
Context {lib : GoLib}.

Lemma wrap_int_id (z : Z) : min_int <= z <= max_int -> wrap_int z = z.
Proof.
  unfold wrap_int, min_int, max_int. intros Hz.
  rewrite Z.mod_small; lia.
Qed.

(** The sibling of the 64-bit case: an [int] destination scans a string. *)
Lemma int_destination_scans_strings (d : Z) (s : string) :
  convertAssign (PInt d) (WString s) =
  match Sscanf_d s with
  | Some i => (PInt i, None)
  | None => (PInt d, Some (errorString "cannot convert string to int"))
  end.
Proof. reflexivity. Qed.

(** C3. A 64-bit integer destination does not parse a string wire value:
    whatever the string, also one of decimal digits, the coercion fails
    with a conversion error and leaves the destination as it was. *)
Theorem int64_destination_rejects_strings (d : Z) (s : string) :
  convertAssign (PInt64 d) (WString s) =
  (PInt64 d, Some (errorString "cannot convert string to int64")).
Proof. reflexivity. Qed.

(** A null wire value gives each destination of the coercion table its
    null value. *)
Lemma convertAssign_null (d : Dest) :
  in_coercion_table d = true -> convertAssign d WNull = (null_coercion d, None).
Proof. destruct d; intros Hd; try discriminate Hd; reflexivity. Qed.

Lemma Rows_Next_in_range (r : Rows) :
  -1 <= current r < max_int ->
  Rows_Next r = (advanced r, current r + 1 <? len (rows r)).
Proof.
  intros Hc. unfold Rows_Next, advanced. cbn [current rows].
  rewrite wrap_int_id; [reflexivity | unfold min_int, max_int in *; lia].
Qed.

Lemma StructScanAll_loop_no_rows (fuel : nat) (r : Rows) (zero : Elem)
    (s : slice Elem) (count : nat) :
  rows r = [] -> -1 <= current r < max_int ->
  StructScanAll_loop (S fuel) r zero s count = Some (advanced r, s, None).
Proof.
  intros Hrows Hc. cbn [StructScanAll_loop].
  rewrite Rows_Next_in_range by exact Hc. rewrite Hrows. unfold len. cbn [length].
  destruct (current r + 1 <? Z.of_nat 0) eqn:Hlt; [apply Z.ltb_lt in Hlt; lia | reflexivity].
Qed.

(** C2 (amended). On a cursor that holds no row, StructScanAll on a pointer
    to a slice succeeds and leaves the slice as the caller supplied it: a
    nil slice stays nil, an empty slice stays empty, a slice with elements
    keeps them. *)
Theorem StructScanAll_no_rows_keeps_destination (r : Rows) (tname : string)
    (zero : Elem) (s : slice Elem) :
  rows r = [] -> -1 <= current r < max_int ->
  Rows_StructScanAll r (PtrToSlice tname zero s) =
  Some (advanced r, PtrToSlice tname zero s, None).
Proof.
  intros Hrows Hc. unfold Rows_StructScanAll.
  rewrite StructScanAll_loop_no_rows by assumption. reflexivity.
Qed.

(** The loop of [Scan] over a first part of the columns that converts
    without error goes on with the rest. *)
Lemma Rows_Scan_loop_app (row : gmap string (wire float64)) (pre : list string) :
  forall (i : nat) (cols : list string) (dpre dest dpre' : list Dest),
  length dpre = length pre ->
  Rows_Scan_loop row i pre dpre = (dpre', None) ->
  Rows_Scan_loop row i (pre ++ cols)%list (dpre ++ dest)%list =
  let '(dest', err) := Rows_Scan_loop row (i + length pre) cols dest in
  ((dpre' ++ dest')%list, err).
Proof.
  induction pre as [|c pre IH]; intros i cols dpre dest dpre' Hlen Hpre.
  - destruct dpre; [|discriminate Hlen]. cbn in Hpre. injection Hpre as <-.
    cbn [app length]. rewrite Nat.add_0_r.
    destruct (Rows_Scan_loop row i cols dest). reflexivity.
  - destruct dpre as [|d dpre]; [discriminate Hlen|].
    cbn [app Rows_Scan_loop] in *.
    destruct (convertAssign d _) as [d' [err|]]; [discriminate Hpre|].
    destruct (Rows_Scan_loop row (S i) pre dpre) as [ds e] eqn:Hrest.
    injection Hpre as <- ->.
    rewrite (IH (S i) cols dpre dest ds) by (auto with lia).
    cbn [length]. replace (i + S (length pre))%nat with (S i + length pre)%nat by lia.
    destruct (Rows_Scan_loop row (S i + length pre) cols dest). reflexivity.
Qed.

(** C10. When the current row has no entry for a column of the Column Set,
    Scan does not fail on that column: the destination of the column, one
    of the coercion table, receives its null value, and Scan goes on with
    the columns after it, from which alone an error can still come. *)
Theorem Scan_missing_column_is_null (r : Rows) (pre post : list string) (col : string)
    (dpre dpost dpre' : list Dest) (d : Dest) :
  closed_or_unpositioned r = false ->
  columns r = (pre ++ col :: post)%list ->
  length dpre = length pre -> length dpost = length post ->
  row_at r (current r) !! col = None ->
  in_coercion_table d = true ->
  Rows_Scan_loop (row_at r (current r)) 0 pre dpre = (dpre', None) ->
  Rows_Scan r (dpre ++ d :: dpost)%list =
  let '(dpost', err) :=
    Rows_Scan_loop (row_at r (current r)) (S (length pre)) post dpost in
  ((dpre' ++ null_coercion d :: dpost')%list, err).
Proof.
  intros Hopen Hcols Hlpre Hlpost Hmiss Hd Hpre. unfold Rows_Scan.
  rewrite Hopen, Hcols.
  replace (length (dpre ++ d :: dpost) =? length (pre ++ col :: post))%nat with true.
  2:{ symmetry. apply Nat.eqb_eq. rewrite !length_app. cbn [length]. lia. }
  cbn [negb].
  rewrite (Rows_Scan_loop_app _ pre 0 (col :: post) dpre (d :: dpost) dpre' Hlpre Hpre).
  cbn [Nat.add Rows_Scan_loop]. rewrite Hmiss, (convertAssign_null d Hd).
  destruct (Rows_Scan_loop _ (S (length pre)) post dpost). reflexivity.
Qed.

End scan_properties.

Lemma StructScanAll_no_rows_keeps_destination_witness :
  Rows_StructScanAll (lib := ascii_lib) (NewRows [] [])
    (PtrToSlice "*[]main.User" (Struct []) (slice_of [])) =
  Some (advanced (NewRows [] []), PtrToSlice "*[]main.User" (Struct []) (slice_of []), None).
Proof.
  apply (StructScanAll_no_rows_keeps_destination (lib := ascii_lib)).
  - reflexivity.
  - cbn. unfold max_int. lia.
Defined.

(** C2, as stated, fails: a nil destination slice is still nil, not an
    empty slice, after StructScanAll on a cursor without rows. *)
Lemma StructScanAll_no_rows_nil_stays_nil :
  exists r,
    Rows_StructScanAll (lib := ascii_lib) (NewRows [] [])
      (PtrToSlice "*[]main.User" (Struct []) nil_slice) =
    Some (r, PtrToSlice "*[]main.User" (Struct []) nil_slice, None) /\
    PtrToSlice "*[]main.User" (Struct []) nil_slice <>
    PtrToSlice "*[]main.User" (Struct []) (slice_of []).
Proof.
  exists (advanced (NewRows [] [])). split; [reflexivity | discriminate].
Qed.

Lemma Scan_missing_column_is_null_witness :
  Rows_Scan (lib := ascii_lib)
    {| rows := [ {[ "name" := WString "Alice" ]} ]; columns := ["name"; "age"];
       current := 0; lastErr := None |}
    [PString "x"; PInt (-1)] =
  ([PString "Alice"; PInt 0], None).
Proof.
  apply (Scan_missing_column_is_null (lib := ascii_lib)
           {| rows := [ {[ "name" := WString "Alice" ]} ]; columns := ["name"; "age"];
              current := 0; lastErr := None |}
           ["name"] [] "age" [PString "x"] [] [PString "Alice"] (PInt (-1)));
    reflexivity.
Defined.

(** ** Positional rows *)

Section normalizer_properties.
Context {lib : GoLib}.

Lemma fill_rowMap_other (columns : list string) :
  forall (rowMap : gmap string (wire float64)) (v : list (wire float64)) (col : string),
  col ∉ columns -> fill_rowMap rowMap columns v !! col = rowMap !! col.
Proof.
  induction columns as [|c columns IH]; intros rowMap v col Hnot; [reflexivity|].
  destruct v as [|x v]; [reflexivity|]. cbn [fill_rowMap].
  rewrite IH by set_solver. apply lookup_insert_ne. set_solver.
Qed.

(** With distinct column names, value [j] of the row is found under
    column [j]. *)
Lemma fill_rowMap_pairs (columns : list string) :
  forall (rowMap : gmap string (wire float64)) (v : list (wire float64))
         (j : nat) (col : string) (x : wire float64),
  NoDup columns -> columns !! j = Some col -> v !! j = Some x ->
  fill_rowMap rowMap columns v !! col = Some x.
Proof.
  induction columns as [|c columns IH]; intros rowMap v j col x Hnd Hcol Hx;
    [discriminate Hcol|].
  destruct v as [|y v]; [discriminate Hx|].
  apply NoDup_cons in Hnd as [Hc Hnd]. cbn [fill_rowMap].
  destruct j as [|j]; cbn in Hcol, Hx.
  - injection Hcol as ->. injection Hx as ->.
    rewrite fill_rowMap_other by exact Hc. apply lookup_insert_eq.
  - eapply IH; eassumption.
Qed.

(** The loop over the raw rows, past a first part that is accepted. *)
Lemma ToRows_loop_app (columns : list string) (pre : list (wire float64)) :
  forall (i : nat) (rest : list (wire float64)) (rs : list (gmap string (wire float64))),
  ToRows_loop columns i pre = inr rs ->
  ToRows_loop columns i (pre ++ rest)%list =
  match ToRows_loop columns (i + length pre) rest with
  | inl err => inl err
  | inr rs' => inr (rs ++ rs')%list
  end.
Proof.
  induction pre as [|row pre IH]; intros i rest rs Hpre.
  - cbn in Hpre. injection Hpre as <-. cbn [app length]. rewrite Nat.add_0_r.
    by destruct (ToRows_loop columns i rest).
  - cbn [app ToRows_loop length] in *.
    destruct (match row with WArray _ | WObject _ => _ | _ => _ end) as [err|rowMap];
      [discriminate Hpre|].
    destruct (ToRows_loop columns (S i) pre) as [err|rs0] eqn:Hrest; [discriminate Hpre|].
    injection Hpre as <-.
    rewrite (IH (S i) rest rs0 Hrest).
    replace (i + S (length pre))%nat with (S i + length pre)%nat by lia.
    by destruct (ToRows_loop columns (S i + length pre) rest).
Qed.

Lemma ToRows_carries (r : APIResponse) (cols : list string) (rowsRaw : list (wire float64)) :
  carries r cols rowsRaw ->
  ToRows r =
  match ToRows_loop cols 0 rowsRaw with
  | inl err => inl err
  | inr rows => inr (NewRows rows cols)
  end.
Proof.
  intros (Hok & queryResult & resultsData & rest & Hres & Hq & Hrows & ->).
  unfold ToRows, index_object. rewrite Hok, Hres. cbn [negb as_array as_object].
  rewrite Hq. cbn [as_object]. rewrite Hrows. cbn [as_array].
  destruct (resultsData !! "columns") as [[]|]; reflexivity.
Qed.

(** C8. With a Column Set of N names, a positional row whose length is not
    N makes normalization fail with the error that names the index of the
    row, its length and N; a positional row of length N is accepted, the
    normalization goes on with the rows after it, and value j of the row
    is found under column j. *)
Theorem positional_row_width (r : APIResponse) (cols : list string)
    (pre post : list (wire float64)) (v : list (wire float64))
    (rs : list (gmap string (wire float64))) :
  carries r cols (pre ++ WArray v :: post)%list ->
  NoDup cols ->
  ToRows_loop cols 0 pre = inr rs ->
  (length v <> length cols ->
   ToRows r = inl (RowWidthMismatch (length pre) (length v) (length cols))) /\
  (length v = length cols ->
   ToRows r =
   match ToRows_loop cols (S (length pre)) post with
   | inl err => inl err
   | inr rs' => inr (NewRows (rs ++ fill_rowMap ∅ cols v :: rs')%list cols)
   end /\
   forall (j : nat) (col : string) (x : wire float64),
     cols !! j = Some col -> v !! j = Some x ->
     fill_rowMap ∅ cols v !! col = Some x).
Proof.
  intros Hcarries Hnd Hpre.
  rewrite (ToRows_carries r cols _ Hcarries), (ToRows_loop_app cols pre 0 _ rs Hpre).
  cbn [Nat.add ToRows_loop]. split.
  - intros Hne. apply Nat.eqb_neq in Hne. rewrite Nat.eqb_sym in Hne.
    rewrite Hne. reflexivity.
  - intros Heq. split.
    + rewrite <- Heq, Nat.eqb_refl.
      by destruct (ToRows_loop cols (S (length pre)) post).
    + intros j col x. by apply fill_rowMap_pairs.
Qed.

End normalizer_properties.

Lemma positional_row_width_witness :
  let cols := ["id"; "name"] in
  let r := {| Result := WArray [WObject {[ "results" := WObject (<[ "columns" :=
                          WArray [WString "id"; WString "name"] ]> {[ "rows" :=
                          WArray [WArray [WNumber 1%Z; WString "Alice"];
                                  WArray [WNumber 2%Z; WString "Bob"]] ]}) ]}];
              Success := true; Errors := [] |} in
  fill_rowMap (lib := ascii_lib) ∅ cols [WNumber 2%Z; WString "Bob"] !! "name" =
  Some (WString "Bob").
Proof.
  intros cols r.
  refine (proj2 (proj2 (positional_row_width (lib := ascii_lib) r cols
            [WArray [WNumber 1%Z; WString "Alice"]] [] [WNumber 2%Z; WString "Bob"]
            [fill_rowMap ∅ cols [WNumber 1%Z; WString "Alice"]] _ _ _) _) 1%nat "name" _ _ _).
  - split; [reflexivity|]. eexists _, _, _. repeat split; reflexivity.
  - apply (bool_decide_unpack _). reflexivity.
  - reflexivity.
  - reflexivity.
  - reflexivity.
  - reflexivity.
Defined.

(** ** The parser *)

Section parser_properties.
Context {lib : GoLib}.

Lemma append_assoc (a b c : string) : (a ++ b) ++ c = a ++ b ++ c.
Proof.
  induction a as [|x a IH]; [reflexivity|].
  change (String x ((a ++ b) ++ c) = String x (a ++ b ++ c)). by rewrite IH.
Qed.

Lemma nonempty_append_l (a b : string) : nonempty a = true -> nonempty (a ++ b) = true.
Proof. by destruct a. Qed.

(** [appendStatement] puts the statements of the buffer after those the
    direction already has. *)
Lemma appendStatement_loop_prepend (ups : list string) (dir : MigrationDirection)
    (stmts : list string) :
  forall p : ParsedMigration,
  foldl (fun p stmt =>
           let stmt := strings_TrimSpace stmt in
           if negb (nonempty stmt) then p
           else
             match dir with
             | Up =>
                 {| UpStatements := (UpStatements p ++ [stmt])%list;
                    DownStatements := DownStatements p;
                    DisableTransactionUp_p := DisableTransactionUp_p p;
                    DisableTransactionDown_p := DisableTransactionDown_p p |}
             | Down =>
                 {| UpStatements := UpStatements p;
                    DownStatements := (DownStatements p ++ [stmt])%list;
                    DisableTransactionUp_p := DisableTransactionUp_p p;
                    DisableTransactionDown_p := DisableTransactionDown_p p |}
             end)
        (prepend_up ups p) stmts =
  prepend_up ups
    (foldl (fun p stmt =>
           let stmt := strings_TrimSpace stmt in
           if negb (nonempty stmt) then p
           else
             match dir with
             | Up =>
                 {| UpStatements := (UpStatements p ++ [stmt])%list;
                    DownStatements := DownStatements p;
                    DisableTransactionUp_p := DisableTransactionUp_p p;
                    DisableTransactionDown_p := DisableTransactionDown_p p |}
             | Down =>
                 {| UpStatements := UpStatements p;
                    DownStatements := (DownStatements p ++ [stmt])%list;
                    DisableTransactionUp_p := DisableTransactionUp_p p;
                    DisableTransactionDown_p := DisableTransactionDown_p p |}
             end)
        p stmts).
Proof.
  induction stmts as [|stmt stmts IH]; intros p; [reflexivity|].
  cbn [foldl]. cbv zeta.
  destruct (nonempty (strings_TrimSpace stmt)); cbn [negb]; [|apply IH].
  rewrite <- IH. f_equal. destruct dir; unfold prepend_up; cbn; f_equal.
  by rewrite app_assoc.
Qed.

Lemma appendStatement_prepend (ups : list string) (p : ParsedMigration)
    (dir : MigrationDirection) (sql : string) :
  appendStatement (prepend_up ups p) dir sql = prepend_up ups (appendStatement p dir sql).
Proof. apply appendStatement_loop_prepend. Qed.

Lemma appendStatement_Up_loop (stmts : list string) :
  forall p : ParsedMigration,
  foldl (fun p stmt =>
           let stmt := strings_TrimSpace stmt in
           if negb (nonempty stmt) then p
           else
             {| UpStatements := (UpStatements p ++ [stmt])%list;
                DownStatements := DownStatements p;
                DisableTransactionUp_p := DisableTransactionUp_p p;
                DisableTransactionDown_p := DisableTransactionDown_p p |})
        p stmts =
  {| UpStatements :=
       (UpStatements p ++
        filter (fun stmt => nonempty stmt = true) (strings_TrimSpace <$> stmts))%list;
     DownStatements := DownStatements p;
     DisableTransactionUp_p := DisableTransactionUp_p p;
     DisableTransactionDown_p := DisableTransactionDown_p p |}.
Proof.
  induction stmts as [|stmt stmts IH]; intros p.
  - cbn. rewrite app_nil_r. by destruct p.
  - cbn [foldl fmap list_fmap]. cbv zeta. rewrite IH.
    destruct (nonempty (strings_TrimSpace stmt)) eqn:Hne; cbn [negb].
    + rewrite filter_cons_True by exact Hne. cbn. by rewrite <- app_assoc.
    + rewrite filter_cons_False by (rewrite Hne; discriminate). reflexivity.
Qed.

(** The statements of the buffer, in order, go after the up statements. *)
Lemma appendStatement_Up (p : ParsedMigration) (sql : string) :
  appendStatement p Up sql =
  {| UpStatements := (UpStatements p ++ statements_of sql)%list;
     DownStatements := DownStatements p;
     DisableTransactionUp_p := DisableTransactionUp_p p;
     DisableTransactionDown_p := DisableTransactionDown_p p |}.
Proof. apply appendStatement_Up_loop. Qed.

Lemma flush_with_preamble (ups : list string) (st : parser_state) :
  flush (with_preamble ups st) = prepend_up ups (flush st).
Proof.
  unfold flush, with_preamble. cbn.
  destruct (nonempty (buf st)); [apply appendStatement_prepend | reflexivity].
Qed.

Lemma parse_line_with_preamble (ups : list string) (st : parser_state) (line : string) :
  parse_line (with_preamble ups st) line = with_preamble ups (parse_line st line).
Proof.
  unfold parse_line. rewrite !flush_with_preamble.
  change (buf (with_preamble ups st)) with (buf st).
  change (parsed (with_preamble ups st)) with (prepend_up ups (parsed st)).
  change (currentDirection (with_preamble ups st)) with (currentDirection st).
  repeat (match goal with |- context [if ?b then _ else _] => destruct b end);
    reflexivity.
Qed.

Lemma parse_rest_with_preamble (ups : list string) (lines : list string) :
  forall st : parser_state,
  foldl parse_line (with_preamble ups st) lines =
  with_preamble ups (foldl parse_line st lines).
Proof.
  induction lines as [|line lines IH]; intros st; [reflexivity|].
  cbn [foldl]. rewrite parse_line_with_preamble. apply IH.
Qed.

(** Lines that are no direction directive leave the section and the
    statements alone and only add to the buffer. *)
Lemma parse_preamble (pre : list string) :
  forall st : parser_state,
  Forall (fun line => is_direction_directive line = false) pre ->
  foldl parse_line st pre =
  {| parsed := parsed st; currentDirection := currentDirection st;
     buf := accumulate (buf st) pre |}.
Proof.
  induction pre as [|line pre IH]; intros st Hpre.
  - by destruct st.
  - apply Forall_cons in Hpre as [Hline Hpre]. cbn [foldl].
    rewrite (IH _ Hpre). unfold accumulate at 2. cbn [foldl]. fold (accumulate).
    unfold is_direction_directive in Hline. apply orb_false_iff in Hline as [Hup Hdown].
    unfold parse_line, is_block_directive. rewrite Hup, Hdown.
    destruct (strings_HasPrefix line "-- +migrate StatementBegin"); [by destruct st|].
    destruct (strings_HasPrefix line "-- +migrate StatementEnd"); [by destruct st|].
    reflexivity.
Qed.

(** C9. The lines before the first line that is a direction directive (all
    the lines, when the text has none) are accumulated, those that are no
    directive joined by newlines, and their statements are flushed into the
    Up statement list, before the statements of the rest of the text. *)
Theorem preamble_goes_to_Up (text : string) (pre rest : list string) :
  bufio_ScanLines text = (pre ++ rest)%list ->
  Forall (fun line => is_direction_directive line = false) pre ->
  match rest with
  | [] => True
  | d :: _ => is_direction_directive d = true
  end ->
  parseMigration text =
  inr (prepend_up (flushed (accumulate EmptyString pre)) (parse_lines rest)).
Proof.
  intros Hlines Hpre Hrest. unfold parseMigration, parse_lines. f_equal.
  rewrite Hlines, foldl_app, (parse_preamble pre parser_init Hpre).
  cbn [parsed currentDirection buf parser_init].
  generalize (accumulate EmptyString pre). intros b.
  set (p0 := {| UpStatements := []; DownStatements := [];
                DisableTransactionUp_p := false; DisableTransactionDown_p := false |}).
  assert (Hflush : flush {| parsed := p0; currentDirection := Up; buf := b |} =
                   prepend_up (flushed b) p0).
  { unfold flush, flushed. cbn [buf parsed currentDirection].
    destruct (nonempty b); [|reflexivity].
    rewrite appendStatement_Up. unfold prepend_up. cbn. by rewrite app_nil_r. }
  destruct rest as [|d rest].
  - cbn [foldl]. rewrite Hflush. reflexivity.
  - cbn [foldl].
    assert (Hd : parse_line {| parsed := p0; currentDirection := Up; buf := b |} d =
                 with_preamble (flushed b) (parse_line parser_init d)).
    { unfold is_direction_directive in Hrest. unfold parse_line.
      rewrite Hflush. unfold flush, with_preamble.
      cbn [buf nonempty parsed currentDirection parser_init]. fold p0.
      destruct (strings_HasPrefix d "-- +migrate Up").
      - destruct (strings_Contains d "notransaction"), b; reflexivity.
      - cbn in Hrest. rewrite Hrest.
        destruct (strings_Contains d "notransaction"), b; reflexivity. }
    rewrite Hd, parse_rest_with_preamble, flush_with_preamble. reflexivity.
Qed.

Lemma accumulate_nonempty (lines : list string) :
  forall b : string,
  nonempty b = true ->
  accumulate b lines =
  foldl (fun acc y => acc ++ nl ++ y) b
        (filter (fun line => is_block_directive line = false) lines).
Proof.
  induction lines as [|line lines IH]; intros b Hb; [reflexivity|].
  unfold accumulate. cbn [foldl]. fold accumulate.
  destruct (is_block_directive line) eqn:Hblock.
  - rewrite filter_cons_False by (rewrite Hblock; discriminate). by apply IH.
  - rewrite filter_cons_True by exact Hblock. cbn [foldl]. rewrite Hb.
    rewrite IH by (apply nonempty_append_l, nonempty_append_l, Hb).
    by rewrite append_assoc.
Qed.

(** The accumulated buffer is the lines that are no directive, without the
    empty lines that come first, joined by newlines. *)
Lemma accumulate_join (lines : list string) :
  accumulate EmptyString lines =
  join nl (drop_leading_empty (filter (fun line => is_block_directive line = false) lines)).
Proof.
  induction lines as [|line lines IH]; [reflexivity|].
  unfold accumulate. cbn [foldl]. fold accumulate.
  destruct (is_block_directive line) eqn:Hblock.
  - rewrite filter_cons_False by (rewrite Hblock; discriminate). exact IH.
  - rewrite filter_cons_True by exact Hblock. cbn [nonempty append drop_leading_empty].
    destruct (nonempty line) eqn:Hline.
    + rewrite accumulate_nonempty by exact Hline. reflexivity.
    + destruct line; [exact IH | discriminate Hline].
Qed.

End parser_properties.

Lemma preamble_goes_to_Up_witness :
  parseMigration (lib := ascii_lib)
    ("CREATE TABLE t(x);" ++ nl ++ "INSERT INTO t VALUES (1);" ++ nl ++
     "-- +migrate Down" ++ nl ++ "DROP TABLE t;" ++ nl) =
  inr (prepend_up
         (flushed (accumulate EmptyString ["CREATE TABLE t(x);"; "INSERT INTO t VALUES (1);"]))
         (parse_lines ["-- +migrate Down"; "DROP TABLE t;"])).
Proof.
  apply (preamble_goes_to_Up (lib := ascii_lib) _
           ["CREATE TABLE t(x);"; "INSERT INTO t VALUES (1);"]
           ["-- +migrate Down"; "DROP TABLE t;"]).
  - reflexivity.
  - repeat constructor.
  - reflexivity.
Defined.

(** ** The executor, for any database collaborator *)

Section executor_properties.
Context {lib : GoLib} {client : D1Client}.

(** The queries of a migration run in order up to the first that fails;
    none is issued after it. *)
Lemma run_queries_first_failure (qs1 : list string) :
  forall (q : string) (qs2 : list string) (w w1 w2 : World) (cause : error),
  run_queries qs1 w = (w1, None) ->
  client_Query q [] w1 = (w2, inl cause) ->
  run_queries (qs1 ++ q :: qs2)%list w = (w2, Some cause).
Proof.
  induction qs1 as [|q1 qs1 IH]; intros q qs2 w w1 w2 cause Hqs1 Hq.
  - cbn in Hqs1. injection Hqs1 as <-. cbn [app run_queries]. rewrite Hq. reflexivity.
  - cbn [app run_queries] in *. destruct (client_Query q1 [] w) as [w' res].
    destruct (err_of res); [discriminate Hqs1|]. eapply IH; eassumption.
Qed.

Lemma applyMigration_statement_failure (ms : MigrationSet) (m : Migration)
    (dir : MigrationDirection) (qs1 qs2 : list string) (q : string)
    (w w1 w2 : World) (cause : error) :
  queries_of m dir = (qs1 ++ q :: qs2)%list ->
  run_queries qs1 w = (w1, None) ->
  client_Query q [] w1 = (w2, inl cause) ->
  applyMigration ms m dir w = (w2, Some cause).
Proof.
  intros Hqs Hqs1 Hq. unfold applyMigration. fold (queries_of m dir). rewrite Hqs.
  rewrite (run_queries_first_failure qs1 q qs2 w w1 w2 cause Hqs1 Hq). reflexivity.
Qed.

(** The loop over the plan, past the migrations that complete. *)
Lemma apply_plan_app (ms : MigrationSet) (dir : MigrationDirection) (pre : list Migration) :
  forall (rest : list Migration) (count count' : nat) (w w1 : World),
  apply_plan ms dir pre count w = (w1, (count', None)) ->
  count' = (count + length pre)%nat /\
  apply_plan ms dir (pre ++ rest)%list count w = apply_plan ms dir rest count' w1.
Proof.
  induction pre as [|m pre IH]; intros rest count count' w w1 Hpre.
  - cbn in Hpre. injection Hpre as <- <-. cbn. split; [lia | reflexivity].
  - cbn [app apply_plan length] in *.
    destruct (applyMigration ms m dir w) as [w' [err|]]; [discriminate Hpre|].
    destruct (IH rest _ _ _ _ Hpre) as [-> Happ]. split; [lia | exact Happ].
Qed.

(** When the migrations of the plan before [m] complete and the call for
    a statement of [m] returns a Go error (the request could not be
    encoded or sent, or the answer not decoded) after the statements
    before it ran in order, the run stops there: it returns the number of
    the migrations that completed and an error that wraps the cause and
    names the id of [m]. The world is the one the failing call left: the
    completed migrations and the statements of [m] that ran are not
    rolled back, and nothing runs after the failure. *)
Theorem first_failure_aborts_run (ms : MigrationSet) (src : MigrationSource)
    (dir : MigrationDirection) (max : Z) (w w0 w1 w2 w3 : World)
    (pre post : list Migration) (m : Migration)
    (qs1 qs2 : list string) (q : string) (cause : error) :
  ExecMax_plan ms src dir max w = Some (w0, inr (pre ++ m :: post)%list) ->
  apply_plan ms dir pre 0 w0 = (w1, (length pre, None)) ->
  queries_of m dir = (qs1 ++ q :: qs2)%list ->
  run_queries qs1 w1 = (w2, None) ->
  client_Query q [] w2 = (w3, inl cause) ->
  ExecMax ms src dir max w =
  Some (w3, (length pre,
             Some (wrapError ("failed to apply migration " ++ Id m ++ ": " ++ Error cause)
                             cause))).
Proof.
  intros Hplan Hpre Hqs Hqs1 Hq. unfold ExecMax. rewrite Hplan.
  destruct (apply_plan_app ms dir pre (m :: post) _ _ _ _ Hpre) as [_ ->].
  cbn [apply_plan].
  rewrite (applyMigration_statement_failure ms m dir qs1 qs2 q w1 w2 w3 cause Hqs Hqs1 Hq).
  unfold Errorf_w. by rewrite !append_assoc.
Qed.

(** When every migration of the plan completes, the run returns their
    number and no error. *)
Lemma all_complete_counts_plan (ms : MigrationSet) (src : MigrationSource)
    (dir : MigrationDirection) (max : Z) (w w0 w1 : World) (plan : list Migration)
    (n : nat) :
  ExecMax_plan ms src dir max w = Some (w0, inr plan) ->
  apply_plan ms dir plan 0 w0 = (w1, (n, None)) ->
  ExecMax ms src dir max w = Some (w1, (length plan, None)).
Proof.
  intros Hplan Hrun. unfold ExecMax. rewrite Hplan, Hrun.
  destruct (apply_plan_app ms dir plan [] _ _ _ _ Hrun) as [-> _]. reflexivity.
Qed.

End executor_properties.

Lemma first_failure_aborts_run_witness :
  ExecMax (client := ledger_db sample_set) sample_set sample_source Up 0
    (fresh_db ["fill 2_b"]) =
  Some ({| ledger := Some [("1_a", "2026-01-01T00:00:00Z")];
           journal := ["create 1_a"; "fill 1_a"; "create 2_b"];
           unreachable := ["fill 2_b"];
           wall_clock := "2026-01-01T00:00:00Z" |},
        (1%nat,
         Some (wrapError "failed to apply migration 2_b: connection refused"
                         (errorString "connection refused")))).
Proof.
  apply (first_failure_aborts_run (client := ledger_db sample_set) sample_set sample_source
           Up 0 (fresh_db ["fill 2_b"])
           {| ledger := Some []; journal := []; unreachable := ["fill 2_b"];
              wall_clock := "2026-01-01T00:00:00Z" |}
           {| ledger := Some [("1_a", "2026-01-01T00:00:00Z")];
              journal := ["create 1_a"; "fill 1_a"]; unreachable := ["fill 2_b"];
              wall_clock := "2026-01-01T00:00:00Z" |}
           {| ledger := Some [("1_a", "2026-01-01T00:00:00Z")];
              journal := ["create 1_a"; "fill 1_a"; "create 2_b"];
              unreachable := ["fill 2_b"];
              wall_clock := "2026-01-01T00:00:00Z" |}
           _
           [sample_migration "1_a"] [sample_migration "3_c"] (sample_migration "2_b")
           ["create 2_b"] [] "fill 2_b" (errorString "connection refused"));
    reflexivity.
Defined.

(** C6. A statement that the service refuses does not abort the run. The
    service answers the statement "fill 2_b" with an envelope whose
    success is false, which ToResult turns into the error "api error: SQL
    error in: fill 2_b"; the executor drops the envelope, goes on with the
    ledger row of 2_b and with 3_c, and returns the count 3 and no error,
    where the claim has the count 1 and an error that names 2_b. The
    journal shows that "fill 2_b" never ran, and the ledger holds 2_b. *)
Theorem refused_statement_does_not_abort :
  let refused := failure_envelope (lib := ascii_lib) "SQL error in: fill 2_b" in
  client_Query (D1Client := refusing_db sample_set ["fill 2_b"]) "fill 2_b" []
    {| ledger := Some [("1_a", "2026-01-01T00:00:00Z")];
       journal := ["create 1_a"; "fill 1_a"; "create 2_b"];
       unreachable := []; wall_clock := "2026-01-01T00:00:00Z" |} =
  ({| ledger := Some [("1_a", "2026-01-01T00:00:00Z")];
      journal := ["create 1_a"; "fill 1_a"; "create 2_b"];
      unreachable := []; wall_clock := "2026-01-01T00:00:00Z" |}, inr refused) /\
  Success refused = false /\
  ToResult refused = inl (errorString "api error: SQL error in: fill 2_b") /\
  ExecMax (client := refusing_db sample_set ["fill 2_b"]) sample_set sample_source Up 0
    (fresh_db []) =
  Some ({| ledger := Some [("1_a", "2026-01-01T00:00:00Z");
                           ("2_b", "2026-01-01T00:00:00Z");
                           ("3_c", "2026-01-01T00:00:00Z")];
           journal := ["create 1_a"; "fill 1_a"; "create 2_b"; "create 3_c"; "fill 3_c"];
           unreachable := [];
           wall_clock := "2026-01-01T00:00:00Z" |},
        (3%nat, None)).
Proof. repeat split; reflexivity. Qed.

(** ** The planner *)

Section planner_properties.

Lemma build_appliedMap_lookup (applied : list string) :
  forall (appliedMap : gmap string bool) (id : string),
  foldl (fun appliedMap id => <[id := true]> appliedMap) appliedMap applied !! id =
  if decide (id ∈ applied) then Some true else appliedMap !! id.
Proof.
  induction applied as [|a applied IH]; intros appliedMap id; cbn [foldl].
  - rewrite decide_False by set_solver. reflexivity.
  - rewrite IH. destruct (decide (id ∈ applied)) as [Hin|Hnot].
    + rewrite decide_True by set_solver. reflexivity.
    + destruct (decide (id = a)) as [->|Hne].
      * rewrite decide_True by set_solver. apply lookup_insert_eq.
      * rewrite decide_False by set_solver. by apply lookup_insert_ne.
Qed.

(** [appliedMap[id]] tells whether the id is in the ledger. *)
Lemma index_appliedMap (applied : list string) (id : string) :
  index_bool (build_appliedMap applied) id = bool_decide (id ∈ applied).
Proof.
  unfold index_bool, build_appliedMap. rewrite build_appliedMap_lookup, lookup_empty.
  destruct (decide (id ∈ applied)).
  - by rewrite bool_decide_eq_true_2.
  - by rewrite bool_decide_eq_false_2.
Qed.

Lemma plan_up_loop_filter (applied : list string) (all : list Migration) :
  forall toApply : list Migration,
  foldl (fun toApply m =>
           if negb (index_bool (build_appliedMap applied) (Id m))
           then (toApply ++ [m])%list else toApply)
        toApply all =
  (toApply ++ filter (fun m => Id m ∉ applied) all)%list.
Proof.
  induction all as [|m all IH]; intros toApply; cbn [foldl].
  - by rewrite app_nil_r.
  - rewrite IH, index_appliedMap. destruct (decide (Id m ∈ applied)) as [Hin|Hnot].
    + rewrite bool_decide_eq_true_2 by exact Hin. cbn [negb].
      by rewrite filter_cons_False by (intros Hn; by apply Hn).
    + rewrite bool_decide_eq_false_2 by exact Hnot. cbn [negb].
      rewrite filter_cons_True by exact Hnot. by rewrite <- app_assoc.
Qed.

(** The upward plan: the known migrations whose id is not in the ledger,
    in the order of the known migrations, cut at [max]. *)
Lemma planMigrations_Up (all : list Migration) (applied : list string) (max : Z) :
  planMigrations all applied Up max =
  capped max (filter (fun m => Id m ∉ applied) all).
Proof. unfold planMigrations, plan_up_loop. by rewrite plan_up_loop_filter. Qed.

Lemma sorted_byId_filter (P : Migration -> Prop) `{!forall m, Decision (P m)}
    (all : list Migration) :
  sorted_byId all -> sorted_byId (filter P all).
Proof.
  unfold sorted_byId. induction 1 as [|m all Hall IH Hm]; [constructor|].
  destruct (decide (P m)).
  - rewrite filter_cons_True by assumption. constructor; [exact IH|].
    apply Forall_forall. intros x Hx. apply list_elem_of_filter in Hx as [_ Hx].
    rewrite Forall_forall in Hm. by apply Hm.
  - by rewrite filter_cons_False.
Qed.

Lemma sorted_byId_capped (max : Z) (all : list Migration) :
  sorted_byId all -> sorted_byId (capped max all).
Proof.
  unfold sorted_byId, capped. intros Hall.
  destruct ((0 <? max) && (max <? len all)); [|exact Hall].
  rewrite <- (take_drop (Z.to_nat max) all) in Hall.
  by apply StronglySorted_app_1_l in Hall.
Qed.

Lemma capped_nil {A} (max : Z) : capped max (@nil A) = [].
Proof.
  unfold capped. destruct ((0 <? max) && (max <? len [])); [apply take_nil | reflexivity].
Qed.

Lemma capped_fmap {A B} (f : A -> B) (max : Z) (l : list A) :
  f <$> capped max l = capped max (f <$> l).
Proof.
  unfold capped, len. rewrite length_fmap.
  destruct ((0 <? max) && (max <? Z.of_nat (length l))); [apply fmap_take | reflexivity].
Qed.

(** The second plan is empty once the ledger holds the id of every known
    migration. *)
Lemma planMigrations_Up_nothing_left (all : list Migration) (applied : list string)
    (max : Z) :
  (forall m, m ∈ all -> Id m ∈ applied) ->
  planMigrations all applied Up max = [].
Proof.
  intros Hall. rewrite planMigrations_Up.
  replace (filter (fun m => Id m ∉ applied) all) with (@nil Migration);
    [apply capped_nil|].
  symmetry. induction all as [|m all IH]; [reflexivity|].
  rewrite filter_cons_False by (intros Hn; apply Hn, Hall; set_solver).
  apply IH. intros m' Hm'. apply Hall. set_solver.
Qed.

Lemma build_migrationMap_lookup (all : list Migration) :
  forall (migrationMap : gmap string Migration) (id : string),
  (forall i m, migrationMap !! i = Some m -> Id m = i) ->
  (forall m, foldl (fun migrationMap m => <[Id m := m]> migrationMap) migrationMap all
               !! id = Some m -> Id m = id) /\
  (is_Some (foldl (fun migrationMap m => <[Id m := m]> migrationMap) migrationMap all !! id)
   <-> id ∈ Id <$> all \/ is_Some (migrationMap !! id)).
Proof.
  induction all as [|a all IH]; intros migrationMap id Hmap; cbn [foldl].
  - split; [by apply Hmap|]. rewrite fmap_nil. set_solver.
  - destruct (IH (<[Id a := a]> migrationMap) id) as [IH1 IH2].
    { intros i m. destruct (decide (Id a = i)) as [<-|Hne].
      - rewrite lookup_insert_eq. by intros [= <-].
      - rewrite lookup_insert_ne by exact Hne. apply Hmap. }
    split; [exact IH1|]. rewrite IH2, fmap_cons.
    destruct (decide (Id a = id)) as [<-|Hne].
    + rewrite lookup_insert_eq. split; [set_solver|]. intros _. right. by eexists.
    + rewrite lookup_insert_ne by exact Hne. set_solver.
Qed.

(** The loop of the downward branch walks the applied ids from the last
    to the first and keeps the migrations it finds. *)
Lemma plan_down_loop_reverse (migrationMap : gmap string Migration) (applied : list string) :
  forall (n : nat) (toApply : list Migration),
  (n <= length applied)%nat ->
  plan_down_loop migrationMap applied n toApply =
  (toApply ++ omap (fun id => migrationMap !! id) (reverse (take n applied)))%list.
Proof.
  induction n as [|i IH]; intros toApply Hn; cbn [plan_down_loop].
  - rewrite take_0. cbn. by rewrite app_nil_r.
  - destruct (lookup_lt_is_Some_2 applied i) as [id Hid]; [lia|].
    rewrite Hid, (take_S_r _ _ _ Hid), reverse_snoc, IH by lia. cbn [omap list_omap].
    destruct (migrationMap !! id); [by rewrite <- app_assoc | reflexivity].
Qed.

Lemma omap_lookup_ids (all : list Migration) (ids : list string) :
  Id <$> omap (fun id => build_migrationMap all !! id) ids =
  filter (fun id => id ∈ known_ids all) ids.
Proof.
  unfold known_ids. induction ids as [|id ids IH]; [reflexivity|]. cbn [omap list_omap].
  destruct (build_migrationMap_lookup all ∅ id) as [Hid Hsome].
  { intros i m. by rewrite lookup_empty. }
  fold (build_migrationMap all) in Hid, Hsome.
  destruct (build_migrationMap all !! id) as [m|] eqn:Hm.
  - rewrite filter_cons_True.
    + rewrite fmap_cons, IH, (Hid m eq_refl). reflexivity.
    + destruct (proj1 Hsome) as [Hin|[? Hempty]]; [by eexists | exact Hin |].
      by rewrite lookup_empty in Hempty.
  - rewrite filter_cons_False; [exact IH|].
    intros Hin. destruct (proj2 Hsome (or_introl Hin)) as [? Hnone]. discriminate Hnone.
Qed.

(** The downward plan: the applied ids that have a known migration, from
    the last of the list the planner is given to the first, cut at
    [max]. *)
Lemma planMigrations_Down_ids (all : list Migration) (applied : list string) (max : Z) :
  Id <$> planMigrations all applied Down max =
  capped max (filter (fun id => id ∈ known_ids all) (reverse applied)).
Proof.
  unfold planMigrations. fold (capped max (plan_down_loop (build_migrationMap all) applied
                                            (length applied) [])).
  rewrite capped_fmap, plan_down_loop_reverse by lia.
  rewrite firstn_all. cbn [app]. by rewrite omap_lookup_ids.
Qed.

End planner_properties.

(** ** The order of the ids as text *)

Section text_order.

Lemma ascii_compare_lt_trans (x y z : ascii) :
  Ascii.compare x y = Lt -> Ascii.compare y z = Lt -> Ascii.compare x z = Lt.
Proof.
  unfold Ascii.compare. rewrite !N.compare_lt_iff. apply N.lt_trans.
Qed.

Lemma string_compare_le_trans (a : string) :
  forall b c : string,
  String.compare a b <> Gt -> String.compare b c <> Gt -> String.compare a c <> Gt.
Proof.
  induction a as [|x a IH]; intros [|y b] [|z c]; cbn; try congruence.
  destruct (Ascii.compare x y) eqn:Hxy; [| |congruence].
  - apply Ascii.compare_eq_iff in Hxy as ->.
    destruct (Ascii.compare y z); [apply IH | congruence | congruence].
  - destruct (Ascii.compare y z) eqn:Hyz; [| |congruence].
    + apply Ascii.compare_eq_iff in Hyz as ->. rewrite Hxy. congruence.
    + rewrite (ascii_compare_lt_trans x y z Hxy Hyz). congruence.
Qed.

Lemma text_le_compare (a b : string) : text_le a b <-> String.compare a b <> Gt.
Proof. unfold text_le, String.leb. destruct (String.compare a b); split; congruence. Qed.

#[global] Instance text_le_trans : Transitive text_le.
Proof.
  intros a b c. rewrite !text_le_compare. apply string_compare_le_trans.
Qed.

#[global] Instance text_le_total : Total text_le.
Proof. intros a b. apply String.leb_total. Qed.

#[global] Instance text_le_antisymm : AntiSymm eq text_le.
Proof. intros a b. apply String.leb_antisym. Qed.

(** The ids of a ledger come back in ascending order, and the same for
    every order in which they were inserted. *)
Lemma sorted_ids_ascending (ids : list string) :
  StronglySorted text_le (merge_sort text_le ids).
Proof. apply StronglySorted_merge_sort; apply _. Qed.

Lemma sorted_ids_order_independent (ids ids' : list string) :
  ids ≡ₚ ids' -> merge_sort text_le ids = merge_sort text_le ids'.
Proof.
  intros Hperm. apply (StronglySorted_unique text_le); try apply sorted_ids_ascending.
  by rewrite !merge_sort_Permutation.
Qed.

End text_order.

(** ** The executor on the reference database *)

Section ledger_properties.
Context {lib : GoLib}.
Variable ms : MigrationSet.

Local Abbreviation DB := (ledger_db ms).

Lemma db_ensureTable (w : LedgerDB) :
  ensureTable_query ms ∉ unreachable w ->
  ensureTable (client := DB) ms w = (ensured w, None).
Proof.
  intros Hreach. unfold ensureTable, ensured. cbn [client_CreateTable ledger_db].
  unfold db_CreateTable. rewrite bool_decide_eq_false_2 by exact Hreach.
  rewrite String.eqb_refl. by destruct (ledger w).
Qed.

Lemma ToRows_loop_ids (ids : list string) (i : nat) :
  ToRows_loop ["id"] i ((fun r => WArray (WString <$> r)) <$> ((fun id => [id]) <$> ids)) =
  inr (id_rows ids).
Proof.
  revert i. induction ids as [|id ids IH]; intros i; [reflexivity|].
  cbn [fmap list_fmap ToRows_loop length Nat.eqb fill_rowMap].
  change (list_fmap _ _ (fun r => WArray (WString <$> r))) with
    (fmap (M := list) (fun r : list string => WArray (F := float64) (WString <$> r))).
  change (list_fmap _ _ (fun id => [id])) with (fmap (M := list) (fun id : string => [id])).
  rewrite IH. unfold id_rows. cbn [fmap list_fmap]. by rewrite insert_empty.
Qed.

(** The answer to the select on the ledger normalizes to one row per id,
    in the order of the answer. *)
Lemma ToRows_select_answer (ids : list string) :
  ToRows (success_envelope ["id"] ((fun id => [id]) <$> ids)) =
  inr {| rows := id_rows ids; columns := ["id"]; current := -1; lastErr := None |}.
Proof.
  rewrite (ToRows_carries _ ["id"]
             ((fun r => WArray (WString <$> r)) <$> ((fun id => [id]) <$> ids))).
  - rewrite ToRows_loop_ids. unfold NewRows. by destruct (id_rows ids).
  - split; [reflexivity|]. eexists _, _, _. split; [reflexivity|].
    split; [apply lookup_insert_eq|].
    split; [by rewrite lookup_insert_ne, lookup_insert_eq|].
    by rewrite lookup_insert_eq.
Qed.

Lemma id_rows_lookup (ids : list string) (k : nat) (id : string) :
  ids !! k = Some id -> id_rows ids !! k = Some {[ "id" := WString id ]}.
Proof. intros Hk. unfold id_rows. by rewrite list_lookup_fmap, Hk. Qed.

(** The loop that reads the ids, from a cursor that stands on row [k - 1]
    of the answer: it reads the ids from row [k] on. *)
Lemma getAppliedMigrations_loop_ids (ids : list string) (n : nat) :
  forall (k fuel : nat) (acc : list string) (e : option error),
  (k + n = length ids)%nat -> (n < fuel)%nat -> fits_int (length ids) ->
  getAppliedMigrations_loop fuel
    {| rows := id_rows ids; columns := ["id"]; current := Z.of_nat k - 1; lastErr := e |} acc =
  Some (inr (acc ++ drop k ids)%list).
Proof.
  unfold fits_int.
  induction n as [|n IH]; intros k fuel acc e Hk Hfuel Hfits;
    (destruct fuel as [|fuel]; [lia|]); cbn [getAppliedMigrations_loop].
  - rewrite Rows_Next_in_range by (cbn [current]; lia). unfold advanced. cbn [current rows columns lastErr].
    unfold len, id_rows. rewrite length_fmap.
    replace (Z.of_nat k - 1 + 1 <? Z.of_nat (length ids)) with false
      by (symmetry; apply Z.ltb_ge; lia).
    rewrite drop_ge by lia. by rewrite app_nil_r.
  - rewrite Rows_Next_in_range by (cbn [current]; lia). unfold advanced. cbn [current rows columns lastErr].
    unfold len. replace (length (id_rows ids)) with (length ids)
      by (unfold id_rows; by rewrite length_fmap).
    replace (Z.of_nat k - 1 + 1 <? Z.of_nat (length ids)) with true
      by (symmetry; apply Z.ltb_lt; lia).
    destruct (lookup_lt_is_Some_2 ids k) as [id Hid]; [lia|].
    unfold StructScan_ptr, closed_or_unpositioned, row_at. cbn [current rows].
    unfold len. replace (length (id_rows ids)) with (length ids)
      by (unfold id_rows; by rewrite length_fmap).
    replace (Z.of_nat k - 1 + 1 <? 0) with false by (symmetry; apply Z.ltb_ge; lia).
    replace (Z.of_nat k - 1 + 1 >=? Z.of_nat (length ids)) with false
      by (symmetry; rewrite Z.geb_leb; apply Z.leb_gt; lia).
    cbn [orb record_zero]. replace (Z.to_nat (Z.of_nat k - 1 + 1)) with k by lia.
    rewrite (id_rows_lookup ids k id Hid). cbn [default StructScan_loop db Name nonempty cell].
    unfold Datatypes.id. rewrite lookup_singleton_eq. cbn [convertAssign Sprintf_v StructScan_loop record_Id].
    replace (Z.of_nat k - 1 + 1) with (Z.of_nat (S k) - 1) by lia.
    rewrite (IH (S k) fuel (acc ++ [id])%list e) by lia.
    by rewrite (drop_S ids id k Hid), <- app_assoc.
Qed.

(** Reading the ledger gives its ids in ascending order, whatever the
    order in which they were inserted, and leaves the database as it
    is. *)
Lemma db_getAppliedMigrations (w : LedgerDB) (l : list (string * string)) :
  select_query ms ∉ unreachable w -> ledger w = Some l -> fits_int (length l) ->
  getAppliedMigrations (client := DB) ms w = Some (w, inr (merge_sort text_le l.*1)).
Proof.
  intros Hreach Hl Hfits. unfold getAppliedMigrations. cbn [client_Query ledger_db].
  unfold db_Query. rewrite bool_decide_eq_false_2 by exact Hreach.
  rewrite String.eqb_refl, Hl, ToRows_select_answer.
  unfold row_count. cbn [rows].
  assert (Hlen : length (merge_sort text_le l.*1) = length l).
  { by rewrite merge_sort_Permutation, length_fmap. }
  rewrite (getAppliedMigrations_loop_ids (merge_sort text_le l.*1)
             (length (merge_sort text_le l.*1)) 0 _ [] None).
  - reflexivity.
  - lia.
  - unfold id_rows. rewrite length_fmap. lia.
  - by rewrite Hlen.
Qed.





Lemma ledger_ensured (w : LedgerDB) :
  ledger (ensured w) = Some (default [] (ledger w)) /\
  ledger_ids (ensured w) = ledger_ids w /\
  unreachable (ensured w) = unreachable w.
Proof. unfold ensured, ledger_ids. by destruct (ledger w) eqn:Hl; cbn; rewrite ?Hl. Qed.

Lemma ledger_ids_default (w : LedgerDB) : (default [] (ledger w)).*1 = ledger_ids w.
Proof. unfold ledger_ids. by destruct (ledger w). Qed.

(** The plan of a run on the reference database, in either direction:
    the planner is given the ids of the ledger in ascending order. *)
Lemma db_ExecMax_plan (all : list Migration) (dir : MigrationDirection) (max : Z)
    (w : LedgerDB) :
  ledger_reachable ms w -> fits_int (length (ledger_ids w)) ->
  ExecMax_plan (client := DB) ms {| FindMigrations := inr all |} dir max w =
  Some (ensured w,
        inr (planMigrations all (merge_sort text_le (ledger_ids w)) dir max)).
Proof.
  intros [Hcreate Hselect] Hfits. unfold ExecMax_plan.
  rewrite db_ensureTable by exact Hcreate.
  destruct (ledger_ensured w) as (Hl & Hids & Hun).
  rewrite (db_getAppliedMigrations (ensured w) _ ltac:(by rewrite Hun) Hl).
  - cbn [FindMigrations]. by rewrite ledger_ids_default.
  - rewrite <- (length_fmap fst), ledger_ids_default. exact Hfits.
Qed.


(** Two ledgers with the same ids, inserted in different orders, give the
    same plan. *)
Lemma plan_ignores_application_order (all : list Migration) (dir : MigrationDirection)
    (max : Z) (w w' : LedgerDB) :
  ledger_reachable ms w -> ledger_reachable ms w' ->
  fits_int (length (ledger_ids w)) ->
  ledger_ids w' ≡ₚ ledger_ids w ->
  exists plan : list Migration,
    ExecMax_plan (client := DB) ms {| FindMigrations := inr all |} dir max w =
    Some (ensured w, inr plan) /\
    ExecMax_plan (client := DB) ms {| FindMigrations := inr all |} dir max w' =
    Some (ensured w', inr plan).
Proof.
  intros Hreach Hreach' Hfits Hperm. eexists. split; [by apply db_ExecMax_plan|].
  rewrite db_ExecMax_plan; [|exact Hreach'|by rewrite Hperm].
  by rewrite (sorted_ids_order_independent _ _ Hperm).
Qed.

End ledger_properties.



(** ** Upward runs on the reference database *)

Section upward_properties.
Context {lib : GoLib}.
Variable ms : MigrationSet.

Local Abbreviation DB := (ledger_db ms).

Lemma db_ensureTable_unreachable (w : LedgerDB) :
  ensureTable_query ms ∈ unreachable w ->
  ensureTable (client := DB) ms w = (w, Some (errorString "connection refused")).
Proof.
  intros Hin. unfold ensureTable. cbn [client_CreateTable ledger_db].
  unfold db_CreateTable. by rewrite bool_decide_eq_true_2 by exact Hin.
Qed.

Lemma db_getAppliedMigrations_unreachable (w : LedgerDB) :
  select_query ms ∈ unreachable w ->
  getAppliedMigrations (client := DB) ms w =
  Some (w, inl (errorString "connection refused")).
Proof.
  intros Hin. unfold getAppliedMigrations. cbn [client_Query ledger_db].
  unfold db_Query. by rewrite bool_decide_eq_true_2 by exact Hin.
Qed.

(** A statement of a migration, which the executor sends without
    parameters, leaves the ledger as it is. *)
Lemma db_Query_statement (q : string) (w : LedgerDB) :
  ledger (db_Query ms q [] w).1 = ledger w /\
  unreachable (db_Query ms q [] w).1 = unreachable w.
Proof.
  unfold db_Query.
  destruct (bool_decide (q ∈ unreachable w)); [done|].
  destruct (String.eqb q (select_query ms));
    [destruct (ledger w) eqn:Hl; cbn [fst]; by rewrite ?Hl|].
  destruct (String.eqb q (insert_query ms));
    [destruct (ledger w) eqn:Hl; cbn [fst]; by rewrite ?Hl|].
  destruct (String.eqb q (delete_query ms));
    [destruct (ledger w) eqn:Hl; cbn [fst]; by rewrite ?Hl|].
  done.
Qed.

Lemma db_run_queries (queries : list string) :
  forall (w w' : LedgerDB) (err : option error),
  run_queries (client := DB) queries w = (w', err) ->
  ledger w' = ledger w /\ unreachable w' = unreachable w.
Proof.
  induction queries as [|q queries IH]; intros w w' err Hrun; cbn [run_queries] in Hrun.
  - by injection Hrun as <- <-.
  - destruct (db_Query_statement q w) as [Hl Hu]. cbn [client_Query ledger_db] in Hrun.
    destruct (db_Query ms q [] w) as [w0 res]. cbn [fst] in Hl, Hu.
    destruct (err_of res).
    + injection Hrun as <- <-. by split.
    + destruct (IH _ _ _ Hrun) as [Hl' Hu']. split; congruence.
Qed.

(** An upward migration that completes leaves its id in the ledger and
    removes none. *)
Lemma db_applyMigration_Up (m : Migration) (w w' : LedgerDB) (l : list (string * string)) :
  applyMigration (client := DB) ms m Up w = (w', None) ->
  ledger w = Some l ->
  exists l', ledger w' = Some l' /\ l.*1 ⊆ l'.*1 /\ Id m ∈ l'.*1 /\
             unreachable w' = unreachable w.
Proof.
  unfold applyMigration. intros Happly Hl.
  destruct (run_queries (client := DB) (Migration_Up m) w) as [w0 [err|]] eqn:Hrun; [discriminate Happly|].
  destruct (db_run_queries _ _ _ _ Hrun) as [Hl0 Hu0]. rewrite Hl in Hl0.
  cbn [client_Query ledger_db time_Now_RFC3339] in Happly. unfold db_Query in Happly.
  destruct (bool_decide (insert_query ms ∈ unreachable w0)); [discriminate Happly|].
  replace (String.eqb (insert_query ms) (select_query ms)) with false in Happly
    by reflexivity.
  rewrite String.eqb_refl, Hl0 in Happly.
  destruct (bool_decide (Id m ∈ l.*1)) eqn:Hin.
  - injection Happly as <-. apply bool_decide_eq_true_1 in Hin.
    exists l. by rewrite Hl0.
  - injection Happly as <-. cbn [ledger unreachable set_ledger].
    eexists. split; [reflexivity|]. rewrite fmap_app. cbn [fmap list_fmap fst].
    split; [|split; [|exact Hu0]].
    + intros x Hx. apply elem_of_app. by left.
    + apply elem_of_app. right. apply list_elem_of_singleton. reflexivity.
Qed.

Lemma db_apply_plan_Up (plan : list Migration) :
  forall (count n : nat) (w w' : LedgerDB) (l : list (string * string)),
  apply_plan (client := DB) ms Up plan count w = (w', (n, None)) ->
  ledger w = Some l ->
  exists l', ledger w' = Some l' /\ l.*1 ⊆ l'.*1 /\
             (forall m, m ∈ plan -> Id m ∈ l'.*1) /\
             unreachable w' = unreachable w.
Proof.
  induction plan as [|m plan IH]; intros count n w w' l Hrun Hl; cbn [apply_plan] in Hrun.
  - injection Hrun as <- <-. exists l.
    split; [exact Hl|]. split; [reflexivity|]. split; [|reflexivity].
    intros m Hm. by apply elem_of_nil in Hm.
  - destruct (applyMigration (client := DB) ms m Up w) as [w0 [err|]] eqn:Happly; [discriminate Hrun|].
    destruct (db_applyMigration_Up m w w0 l Happly Hl) as (l0 & Hl0 & Hsub0 & Hm0 & Hu0).
    destruct (IH _ _ _ _ l0 Hrun Hl0) as (l' & Hl' & Hsub' & Hplan & Hu').
    exists l'. split; [exact Hl'|]. split; [by etrans|]. split; [|congruence].
    intros m' Hm'. apply elem_of_cons in Hm' as [->|Hm']; [by apply Hsub' | by apply Hplan].
Qed.

(** C5. On the reference database, with the known migrations in ascending
    order: the upward plan of a run is the known migrations whose id is
    not in the ledger, in ascending order (cut at [max] when it is
    positive); and after a complete upward run that returned no error, a
    second complete upward run applies nothing and changes nothing. *)
Theorem upward_plan_exact_and_idempotent (all : list Migration) (max : Z)
    (w w1 : LedgerDB) (n : nat) :
  sorted_byId all ->
  fits_int (length (ledger_ids w)) -> fits_int (length (ledger_ids w1)) ->
  ExecMax (client := DB) ms {| FindMigrations := inr all |} Up 0 w = Some (w1, (n, None)) ->
  ExecMax_plan (client := DB) ms {| FindMigrations := inr all |} Up max w =
  Some (ensured w, inr (capped max (filter (fun m => Id m ∉ ledger_ids w) all))) /\
  sorted_byId (capped max (filter (fun m => Id m ∉ ledger_ids w) all)) /\
  ExecMax (client := DB) ms {| FindMigrations := inr all |} Up 0 w1 = Some (w1, (O, None)).
Proof.
  intros Hsorted Hfits Hfits1 Hrun.
  assert (Hreach : ledger_reachable ms w).
  { split.
    - intros Hin. unfold ExecMax, ExecMax_plan in Hrun.
      rewrite (db_ensureTable_unreachable w Hin) in Hrun. discriminate Hrun.
    - intros Hin. unfold ExecMax, ExecMax_plan in Hrun.
      destruct (ensureTable (client := DB) ms w) as [w0 [err|]] eqn:Hensure; [discriminate Hrun|].
      assert (Hu0 : unreachable w0 = unreachable w).
      { unfold ensureTable in Hensure. cbn [client_CreateTable ledger_db] in Hensure.
        unfold db_CreateTable in Hensure.
        destruct (bool_decide _); [discriminate Hensure|].
        rewrite String.eqb_refl in Hensure.
        destruct (ledger w); by injection Hensure as <-. }
      rewrite db_getAppliedMigrations_unreachable in Hrun by (by rewrite Hu0).
      discriminate Hrun. }
  assert (Hfilter : forall applied : list string,
            applied ≡ₚ ledger_ids w ->
            filter (fun m => Id m ∉ applied) all =
            filter (fun m => Id m ∉ ledger_ids w) all).
  { intros applied Hperm. apply list_filter_iff. intros m. by rewrite Hperm. }
  split; [|split].
  - rewrite (db_ExecMax_plan ms all Up max w Hreach Hfits), planMigrations_Up.
    by rewrite Hfilter by apply merge_sort_Permutation.
  - by apply sorted_byId_capped, sorted_byId_filter.
  - unfold ExecMax in Hrun.
    rewrite (db_ExecMax_plan ms all Up 0 w Hreach Hfits) in Hrun.
    injection Hrun as Hrun.
    destruct (ledger_ensured w) as (Hl & Hids & Hun).
    destruct (db_apply_plan_Up _ _ _ _ _ _ Hrun Hl) as (l1 & Hl1 & Hsub & Hplan & Hu1).
    assert (Hreach1 : ledger_reachable ms w1).
    { unfold ledger_reachable. rewrite Hu1, Hun. exact Hreach. }
    assert (Hids1 : ledger_ids w1 = l1.*1) by (unfold ledger_ids; by rewrite Hl1).
    unfold ExecMax. rewrite (db_ExecMax_plan ms all Up 0 w1 Hreach1 Hfits1).
    rewrite planMigrations_Up_nothing_left.
    + cbn [apply_plan]. unfold ensured. by rewrite Hl1.
    + intros m Hm. rewrite merge_sort_Permutation, Hids1.
      destruct (decide (Id m ∈ ledger_ids w)) as [Hin|Hnot].
      * apply Hsub. by rewrite ledger_ids_default.
      * apply Hplan. rewrite planMigrations_Up.
        rewrite Hfilter by apply merge_sort_Permutation.
        unfold capped. cbn [Z.ltb andb]. by apply list_elem_of_filter.
Qed.

End upward_properties.

Lemma upward_plan_exact_and_idempotent_witness :
  let all := [sample_migration "1_a"; sample_migration "2_b"; sample_migration "3_c"] in
  let w := {| ledger := Some [("1_a", "2026-01-01T00:00:00Z"); ("3_c", "2026-01-02T00:00:00Z")];
              journal := []; unreachable := []; wall_clock := "2026-01-03T00:00:00Z" |} in
  let w1 := {| ledger := Some [("1_a", "2026-01-01T00:00:00Z"); ("3_c", "2026-01-02T00:00:00Z");
                               ("2_b", "2026-01-03T00:00:00Z")];
               journal := ["create 2_b"; "fill 2_b"]; unreachable := [];
               wall_clock := "2026-01-03T00:00:00Z" |} in
  ExecMax_plan (client := ledger_db sample_set) sample_set {| FindMigrations := inr all |}
    Up 0 w =
  Some (ensured w, inr (capped 0 (filter (fun m => Id m ∉ ledger_ids w) all))) /\
  sorted_byId (capped 0 (filter (fun m => Id m ∉ ledger_ids w) all)) /\
  ExecMax (client := ledger_db sample_set) sample_set {| FindMigrations := inr all |} Up 0 w1 =
  Some (w1, (O, None)).
Proof.
  intros all w w1.
  apply (upward_plan_exact_and_idempotent (lib := ascii_lib) sample_set all 0 w w1 1).
  - unfold sorted_byId, all.
    repeat constructor.
  - unfold fits_int, max_int. cbn. lia.
  - unfold fits_int, max_int. cbn. lia.
  - reflexivity.
Defined.

(** ** The order of the migrations *)

Section ordering_properties.

Lemma span_digits_digits (s : string) :
  forall acc : Z, 0 <= acc ->
  exists n : Z, digits_value acc (span_digits s).1 = Some n /\ 0 <= n.
Proof.
  induction s as [|c s IH]; intros acc Hacc; cbn [span_digits].
  - exists acc. by split.
  - unfold is_digit. destruct (digit_value c) as [d|] eqn:Hd.
    + destruct (span_digits s) as [ds rest] eqn:Hspan. cbn [fst digits_value] in *.
      rewrite Hd. apply IH. unfold digit_value in Hd.
      destruct ((48 <=? Z.of_nat (nat_of_ascii c)) && (Z.of_nat (nat_of_ascii c) <=? 57))
        eqn:Hrange; [|discriminate Hd].
      injection Hd as <-. apply andb_true_iff in Hrange as [Hlo _].
      apply Z.leb_le in Hlo. lia.
    + exists acc. by split.
Qed.

Lemma span_digits_no_sign (s : string) :
  match (span_digits s).1 with
  | String c _ => c <> "-"%char /\ c <> "+"%char
  | EmptyString => True
  end.
Proof.
  destruct s as [|c s]; [exact I|]. cbn [span_digits]. unfold is_digit.
  destruct (digit_value c) eqn:Hd; [|exact I].
  destruct (span_digits s). cbn [fst].
  split; intros ->; discriminate Hd.
Qed.

Lemma span_digits_rest_newline (s : string) :
  has_newline s = false -> has_newline (span_digits s).2 = false.
Proof.
  induction s as [|c s IH]; [done|]. cbn [span_digits has_newline].
  intros Hnl. apply orb_false_iff in Hnl as [Hc Hs].
  destruct (is_digit c).
  - destruct (span_digits s). cbn [snd] in *. by apply IH.
  - cbn [snd has_newline]. by rewrite Hc, Hs.
Qed.

(** On an id of one line, [isNumeric] tells whether the id starts with a
    numeric run. *)
Lemma isNumeric_starts_numeric (m : Migration) :
  has_newline (Id m) = false -> isNumeric m = starts_numeric (Id m).
Proof.
  intros Hnl. unfold isNumeric, NumberPrefixMatches, numberPrefixRegex_FindStringSubmatch,
    starts_numeric, numeric_run.
  pose proof (span_digits_rest_newline (Id m) Hnl) as Hrest.
  destruct (span_digits (Id m)) as [ds rest]. cbn [fst snd] in *. rewrite Hrest.
  by destruct (nonempty ds).
Qed.

(** On an id whose numeric run is a value of an [int64], [VersionInt] is
    the value of the run. *)
Lemma VersionInt_run_value (m : Migration) :
  isNumeric m = true -> run_value (Id m) <= max_int -> VersionInt m = run_value (Id m).
Proof.
  unfold isNumeric, VersionInt, NumberPrefixMatches, numberPrefixRegex_FindStringSubmatch,
    run_value, numeric_run.
  pose proof (span_digits_digits (Id m) 0 ltac:(lia)) as (n & Hn & Hpos).
  pose proof (span_digits_no_sign (Id m)) as Hsign.
  destruct (span_digits (Id m)) as [ds rest]. cbn [fst] in *.
  destruct (nonempty ds && negb (has_newline rest)) eqn:Hmatch; [|discriminate].
  intros _. rewrite Hn. cbn [default from_option lookup list_lookup]. unfold Datatypes.id.
  intros Hfit. apply andb_true_iff in Hmatch as [Hds _].
  unfold strconv_ParseInt. destruct ds as [|c ds]; [discriminate Hds|].
  destruct Hsign as [Hminus Hplus].
  replace (match String c ds with
           | String "-"%char s' => (true, s')
           | String "+"%char s' => (false, s')
           | _ => (false, String c ds)
           end) with (false, String c ds).
  - rewrite Hn.
    replace ((min_int <=? n) && (n <=? max_int)) with true; [reflexivity|].
    symmetry. apply andb_true_iff. split; apply Z.leb_le; [unfold min_int; lia | exact Hfit].
  - destruct c as [[] [] [] [] [] [] [] []]; try reflexivity; congruence.
Qed.

(** On ids of one line whose numeric runs are values of an [int64], [Less]
    is the ordering rule. *)
Lemma Less_ordering_rule (m other : Migration) :
  has_newline (Id m) = false -> has_newline (Id other) = false ->
  run_value (Id m) <= max_int -> run_value (Id other) <= max_int ->
  Less m other = ordering_rule (Id m) (Id other).
Proof.
  intros Hnl Hnl' Hfit Hfit'. unfold Less, ordering_rule.
  rewrite <- !isNumeric_starts_numeric by assumption.
  destruct (isNumeric m) eqn:Hm, (isNumeric other) eqn:Ho; cbn [andb negb]; try reflexivity.
  rewrite !VersionInt_run_value by assumption.
  by destruct (run_value (Id m) =? run_value (Id other)).
Qed.

End ordering_properties.

(** C4. The code breaks the ordering rule on a numeric run that is no
    value of an [int64]: the id 9223372036854775808_x starts with a
    numeric run of a larger value than the run of 1_y, and [VersionInt]
    gives 0 for it, so that [Less] puts it before 1_y. *)
Theorem Less_long_numeric_run :
  let long := sample_migration "9223372036854775808_x" in
  let short := sample_migration "1_y" in
  isNumeric long = true /\ isNumeric short = true /\
  run_value (Id long) = 9223372036854775808 /\ run_value (Id short) = 1 /\
  VersionInt long = 0 /\
  Less long short = true /\ Less short long = false /\
  ordering_rule (Id long) (Id short) = false.
Proof. repeat split. Qed.

(** The ids 10_x, 2_y and alpha have one ascending order: 2_y, 10_x,
    alpha. *)
Lemma sample_ids_sorted (ms : list Migration) :
  ms ≡ₚ [sample_migration "10_x"; sample_migration "2_y"; sample_migration "alpha"] ->
  sorted_byId ms ->
  ms = [sample_migration "2_y"; sample_migration "10_x"; sample_migration "alpha"].
Proof.
  intros Hperm Hsorted. symmetry in Hperm. apply permutations_Permutation in Hperm.
  unfold sorted_byId in Hsorted.
  repeat (apply elem_of_cons in Hperm as [->|Hperm]); try (by apply elem_of_nil in Hperm);
    try reflexivity;
    repeat (match goal with
            | H : StronglySorted _ (_ :: _) |- _ =>
                apply StronglySorted_inv in H as [? ?]
            | H : Forall _ (_ :: _) |- _ => apply Forall_cons in H as [? ?]
            end); discriminate.
Qed.

(** ** More on the cursor *)

Section cursor_properties.
Context {lib : GoLib}.

Lemma Next_times_fresh (rs : list (gmap string (wire float64))) (cols : list string)
    (k : nat) :
  Z.of_nat k <= max_int ->
  Next_times k (NewRows rs cols) =
  {| rows := rs; columns := columns (NewRows rs cols);
     current := Z.of_nat k - 1; lastErr := None |}.
Proof.
  induction k as [|k IH]; intros Hk.
  - reflexivity.
  - cbn [Next_times]. rewrite IH by lia.
    rewrite Rows_Next_in_range by (cbn [current]; lia).
    unfold advanced. cbn [fst rows columns current lastErr]. f_equal. lia.
Qed.

(** X1. On a cursor made by NewRows, the first calls of Next, as many as
    there are rows, return true, and every call after them returns false
    (for fewer than 2^63 calls): call number k + 1 returns true exactly
    when k is less than the number of rows. *)
Theorem Next_true_once_per_row (rs : list (gmap string (wire float64)))
    (cols : list string) (k : nat) :
  Z.of_nat k < max_int ->
  (Rows_Next (Next_times k (NewRows rs cols))).2 = bool_decide (k < length rs)%nat.
Proof.
  intros Hk. rewrite Next_times_fresh by lia.
  rewrite Rows_Next_in_range by (cbn [current]; lia). cbn [snd rows current].
  unfold len. destruct (decide (k < length rs)%nat) as [Hlt|Hge].
  - rewrite bool_decide_eq_true_2 by exact Hlt. apply Z.ltb_lt. lia.
  - rewrite bool_decide_eq_false_2 by exact Hge. apply Z.ltb_ge. lia.
Qed.

Lemma closed_after_Close (r : Rows) : closed_or_unpositioned (Rows_Close r).1 = true.
Proof.
  unfold closed_or_unpositioned, Rows_Close. cbn [fst current rows]. unfold len. cbn [length].
  destruct (current r <? 0) eqn:Hneg; [reflexivity|]. cbn [orb].
  apply Z.ltb_ge in Hneg. rewrite Z.geb_leb. apply Z.leb_le. lia.
Qed.

(** X2. After Close, Scan and StructScan fail with "sql: Rows is closed"
    for every destination and leave it as it was, wherever the cursor
    stood. *)
Theorem Scan_after_Close_fails (r : Rows) (dest : list Dest) (sdest : StructDest) :
  Rows_Scan (Rows_Close r).1 dest = (dest, Some (errorString "sql: Rows is closed")) /\
  Rows_StructScan (Rows_Close r).1 sdest =
  (sdest, Some (errorString "sql: Rows is closed")).
Proof.
  unfold Rows_Scan, Rows_StructScan, StructScan_ptr. rewrite closed_after_Close.
  split; [reflexivity | by destruct sdest].
Qed.

(** X3. StructScanAll on a closed cursor is no error: it returns nil and
    leaves the destination slice as it was. *)
Theorem StructScanAll_after_Close_succeeds (r : Rows) (tname : string) (zero : Elem)
    (s : slice Elem) :
  -1 <= current r < max_int ->
  Rows_StructScanAll (Rows_Close r).1 (PtrToSlice tname zero s) =
  Some (advanced (Rows_Close r).1, PtrToSlice tname zero s, None).
Proof.
  intros Hc. unfold Rows_StructScanAll.
  rewrite StructScanAll_loop_no_rows; [reflexivity | reflexivity | exact Hc].
Qed.

(** X4. Scan checks the cursor before it counts the destinations: on a
    cursor that stands on a row, a number of destinations that is not the
    number of columns is an error that names both numbers, and no
    destination is written. *)
Theorem Scan_arity_mismatch (r : Rows) (dest : list Dest) :
  closed_or_unpositioned r = false ->
  length dest <> length (columns r) ->
  Rows_Scan r dest =
  (dest, Some (errorString ("sql: expected " ++ format_n (length (columns r)) ++
                            " destination arguments in Scan, not " ++
                            format_n (length dest)))).
Proof.
  intros Hopen Hne. unfold Rows_Scan. rewrite Hopen.
  apply Nat.eqb_neq in Hne. by rewrite Hne.
Qed.

Lemma Rows_Scan_loop_any (row : gmap string (wire float64)) (cols : list string) :
  forall (i : nat) (olds : list (wire float64)),
  length olds = length cols ->
  Rows_Scan_loop row i cols (PAny <$> olds) =
  (PAny <$> ((fun col => default WNull (row !! col)) <$> cols), None).
Proof.
  induction cols as [|col cols IH]; intros i [|old olds] Hlen; try discriminate Hlen;
    [reflexivity|].
  cbn [fmap list_fmap Rows_Scan_loop convertAssign].
  change (list_fmap _ _ PAny olds) with (PAny <$> olds).
  rewrite IH by (cbn in Hlen; lia).
  by destruct (row !! col).
Qed.

(** X5. Scan into destinations of type interface{}, one per column, never
    fails: it gives the values of the current row in the order of the
    columns, and nil for a column the row does not have. *)
Theorem Scan_into_any (r : Rows) (olds : list (wire float64)) :
  closed_or_unpositioned r = false ->
  length olds = length (columns r) ->
  Rows_Scan r (PAny <$> olds) =
  (PAny <$> ((fun col => default WNull (row_at r (current r) !! col)) <$> columns r), None).
Proof.
  intros Hopen Hlen. unfold Rows_Scan. rewrite Hopen, length_fmap, Hlen, Nat.eqb_refl.
  cbn [negb]. by apply Rows_Scan_loop_any.
Qed.

(** X6. A conversion never changes the kind of a destination, and a
    conversion that fails leaves the destination as it was, unless the
    destination is a Scanner, whose Scan method decides. A string or an
    interface{} destination takes every wire value without error. *)
Theorem convertAssign_failure_keeps_destination (d : Dest) (src : wire float64) :
  same_kind d (convertAssign d src).1 /\
  (forall err, (convertAssign d src).2 = Some err ->
     (forall s, d <> PScanner s) -> (convertAssign d src).1 = d) /\
  (forall v, (convertAssign (PString v) src).2 = None) /\
  (forall v, convertAssign (PAny v) src = (PAny src, None)).
Proof.
  split; [|split; [|split]].
  - destruct d, src; cbn; try exact I; try reflexivity.
    + by destruct (Sscanf_d s).
    + by destruct (Scanner_Scan v WNull).
    + by destruct (Scanner_Scan v (WBool b)).
    + by destruct (Scanner_Scan v (WNumber f)).
    + by destruct (Scanner_Scan v (WString s)).
    + by destruct (Scanner_Scan v (WArray l)).
    + by destruct (Scanner_Scan v (WObject m)).
  - intros err Herr Hscan. destruct d, src; cbn in *; try discriminate Herr; try reflexivity.
    + by destruct (Sscanf_d s).
    + by destruct (Hscan v).
    + by destruct (Hscan v).
    + by destruct (Hscan v).
    + by destruct (Hscan v).
    + by destruct (Hscan v).
    + by destruct (Hscan v).
  - intros v. by destruct src.
  - reflexivity.
Qed.

End cursor_properties.

Lemma Next_true_once_per_row_witness :
  (Rows_Next (Next_times 2 (NewRows (lib := ascii_lib)
      [ {[ "n" := WNumber 1%Z ]}; {[ "n" := WNumber 2%Z ]} ] ["n"]))).2 =
  bool_decide (2 < 2)%nat.
Proof.
  apply (Next_true_once_per_row (lib := ascii_lib)). unfold max_int. lia.
Defined.

Lemma StructScanAll_after_Close_succeeds_witness :
  Rows_StructScanAll (lib := ascii_lib)
    (Rows_Close (NewRows [ {[ "n" := WNumber 1%Z ]} ] ["n"])).1
    (PtrToSlice "*[]main.User" (Struct []) nil_slice) =
  Some (advanced (Rows_Close (NewRows [ {[ "n" := WNumber 1%Z ]} ] ["n"])).1,
        PtrToSlice "*[]main.User" (Struct []) nil_slice, None).
Proof.
  apply (StructScanAll_after_Close_succeeds (lib := ascii_lib)).
  cbn. unfold max_int. lia.
Defined.

Lemma Scan_arity_mismatch_witness :
  Rows_Scan (lib := ascii_lib)
    {| rows := [ {[ "name" := WString "Alice" ]} ]; columns := ["name"; "age"];
       current := 0; lastErr := None |} [PString "x"] =
  ([PString "x"],
   Some (errorString "sql: expected 2 destination arguments in Scan, not 1")).
Proof.
  apply (Scan_arity_mismatch (lib := ascii_lib)); [reflexivity | cbn; lia].
Defined.

Lemma Scan_into_any_witness :
  Rows_Scan (lib := ascii_lib)
    {| rows := [ {[ "name" := WString "Alice" ]} ]; columns := ["name"; "age"];
       current := 0; lastErr := None |} (PAny <$> [WNull; WNull]) =
  (PAny <$> [WString "Alice"; WNull], None).
Proof.
  refine (eq_trans (Scan_into_any (lib := ascii_lib)
           {| rows := [ {[ "name" := WString "Alice" ]} ]; columns := ["name"; "age"];
              current := 0; lastErr := None |} [WNull; WNull] _ _) _); reflexivity.
Defined.

(** ** Scanning into records *)

Section record_properties.
Context {lib : GoLib}.

(** X7. StructScan changes the cells of the fields only: a field keeps its
    name and its tag, and a field whose column the row does not have keeps
    its value too. *)
Theorem StructScan_keeps_unmatched_fields (row : gmap string (wire float64))
    (fields : list Field) (i : nat) (field : Field) :
  fields !! i = Some field ->
  exists field',
    (StructScan_loop row fields).1 !! i = Some field' /\
    Name field' = Name field /\ db field' = db field /\
    (row !! column_of field = None -> field' = field).
Proof.
  revert i. induction fields as [|f fields IH]; intros i Hi; [discriminate Hi|].
  cbn [StructScan_loop]. fold (column_of f).
  destruct i as [|i]; cbn in Hi.
  - injection Hi as ->.
    destruct (row !! column_of field) as [val|].
    + destruct (convertAssign (cell field) val) as [d' [err|]];
        [|destruct (StructScan_loop row fields)];
        (eexists; split; [reflexivity|]; cbn; by repeat split).
    + destruct (StructScan_loop row fields). exists field. by repeat split.
  - destruct (IH i Hi) as (field' & Hlook & Hrest).
    destruct (row !! column_of f) as [val|].
    + destruct (convertAssign (cell f) val) as [d' [err|]].
      * exists field. by repeat split.
      * destruct (StructScan_loop row fields). exists field'. by split.
    + destruct (StructScan_loop row fields). exists field'. by split.
Qed.

Lemma StructScan_loop_insert (row : gmap string (wire float64)) (fields : list Field)
    (k : string) (v : wire float64) :
  Forall (fun field => column_of field <> k) fields ->
  StructScan_loop (<[k := v]> row) fields = StructScan_loop row fields.
Proof.
  induction 1 as [|field fields Hfield _ IH]; [reflexivity|].
  cbn [StructScan_loop]. fold (column_of field).
  rewrite lookup_insert_ne by (intros Heq; by apply Hfield). by rewrite IH.
Qed.

(** X8. StructScan ignores the columns of the row that no field is matched
    with: with such a column added to the current row, or given another
    value, the record and the error are the same. *)
Theorem StructScan_ignores_unmatched_columns (r : Rows) (fields : list Field)
    (k : string) (v : wire float64) (before after : list (gmap string (wire float64)))
    (row : gmap string (wire float64)) :
  rows r = (before ++ row :: after)%list ->
  current r = Z.of_nat (length before) ->
  Forall (fun field => column_of field <> k) fields ->
  Rows_StructScan
    {| rows := (before ++ <[k := v]> row :: after)%list; columns := columns r;
       current := current r; lastErr := lastErr r |} (PtrTo (Struct fields)) =
  Rows_StructScan r (PtrTo (Struct fields)).
Proof.
  intros Hrows Hcur Hfields. unfold Rows_StructScan, StructScan_ptr, closed_or_unpositioned,
    row_at, len. cbn [rows current]. rewrite Hrows, Hcur, !length_app. cbn [length].
  destruct ((Z.of_nat (length before) <? 0)
            || (Z.of_nat (length before) >=? Z.of_nat (length before + S (length after))));
    [reflexivity|].
  rewrite Nat2Z.id, !list_lookup_middle by reflexivity. cbn [default from_option].
  unfold Datatypes.id. by rewrite StructScan_loop_insert.
Qed.

(** The loop of StructScanAll keeps the elements the slice has and puts
    the new ones after them: at most one for each step. *)
Lemma StructScanAll_loop_appends (fuel : nat) :
  forall (r r' : Rows) (zero : Elem) (s s' : slice Elem) (count : nat) (err : option error),
  StructScanAll_loop fuel r zero s count = Some (r', s', err) ->
  exists new : list Elem,
    slice_elems s' = (slice_elems s ++ new)%list /\
    (length new <= fuel)%nat /\
    (new = [] -> s' = s).
Proof.
  induction fuel as [|fuel IH]; intros r r' zero s s' count err Hloop; [discriminate Hloop|].
  cbn [StructScanAll_loop] in Hloop. destruct (Rows_Next r) as [r1 more].
  destruct more.
  - destruct (StructScan_ptr r1 zero) as [elem [e|]].
    + injection Hloop as <- <- <-. exists []. rewrite app_nil_r.
      split; [reflexivity|]. split; [cbn; lia | reflexivity].
    + destruct (IH _ _ _ _ _ _ _ Hloop) as (new & Helems & Hlen & _).
      cbn [slice_append slice_elems] in *. exists (elem :: new).
      rewrite <- app_assoc in Helems. split; [exact Helems|].
      split; [cbn; lia | discriminate].
  - injection Hloop as <- <- <-. exists []. rewrite app_nil_r.
    split; [reflexivity|]. split; [cbn; lia | reflexivity].
Qed.

(** X9. StructScanAll appends: whatever it returns, also an error, the
    elements the destination slice had are still its first elements, and a
    slice to which nothing is added is the slice as it was (a nil slice is
    still nil). *)
Theorem StructScanAll_appends (r r' : Rows) (tname : string) (zero : Elem) (s : slice Elem)
    (dest' : SliceDest) (err : option error) :
  Rows_StructScanAll r (PtrToSlice tname zero s) = Some (r', dest', err) ->
  exists (s' : slice Elem) (new : list Elem),
    dest' = PtrToSlice tname zero s' /\
    slice_elems s' = (slice_elems s ++ new)%list /\
    (new = [] -> s' = s).
Proof.
  unfold Rows_StructScanAll, row_count. intros Hall.
  destruct (StructScanAll_loop _ r zero s 0) as [[[r1 s1] e1]|] eqn:Hloop; [|discriminate Hall].
  injection Hall as <- <- <-.
  destruct (StructScanAll_loop_appends _ _ _ _ _ _ _ _ Hloop) as (new & Helems & Hlen & Hnil).
  by exists s1, new.
Qed.


Lemma StructScan_ptr_open (r : Rows) (e e' : Elem) :
  StructScan_ptr r e = (e', None) -> closed_or_unpositioned r = false.
Proof.
  unfold StructScan_ptr. by destruct (closed_or_unpositioned r).
Qed.

Lemma open_in_range (r : Rows) :
  closed_or_unpositioned r = false -> 0 <= current r < len (rows r).
Proof.
  unfold closed_or_unpositioned. intros Hopen. apply orb_false_iff in Hopen as [Hneg Hge].
  apply Z.ltb_ge in Hneg. rewrite Z.geb_leb in Hge. apply Z.leb_gt in Hge. lia.
Qed.

Lemma wrap_int_nonneg (z : Z) : 0 <= z <= 2 ^ 63 -> 0 <= wrap_int z -> wrap_int z = z.
Proof.
  unfold wrap_int. intros Hz Hw. destruct (decide (z = 2 ^ 63)) as [->|Hne].
  - exfalso. replace (2 ^ 63 + 2 ^ 63) with (1 * 2 ^ 64) in Hw by lia.
    rewrite Z.mod_mul in Hw by lia. lia.
  - rewrite Z.mod_small by lia. lia.
Qed.

Lemma wrap_int_range (z : Z) : min_int <= wrap_int z <= max_int.
Proof.
  unfold wrap_int, min_int, max_int.
  pose proof (Z.mod_pos_bound (z + 2 ^ 63) (2 ^ 64) ltac:(lia)). lia.
Qed.

Lemma StructScanAll_loop_in_order (fields : list Field) (fuel : nat) :
  forall (r r' : Rows) (s s' : slice Elem) (count : nat),
  -1 <= current r < len (rows r) -> fits_int (length (rows r)) ->
  StructScanAll_loop fuel r (Struct fields) s count = Some (r', s', None) ->
  slice_elems s' =
  (slice_elems s ++
   ((fun row => Struct (StructScan_loop row fields).1) <$>
      drop (Z.to_nat (current r + 1)) (rows r)))%list.
Proof.
  unfold fits_int, len.
  induction fuel as [|fuel IH]; intros r r' s s' count Hcur Hfits Hloop;
    [discriminate Hloop|].
  cbn [StructScanAll_loop] in Hloop.
  rewrite Rows_Next_in_range in Hloop by lia. unfold len in Hloop.
  destruct (current r + 1 <? Z.of_nat (length (rows r))) eqn:Hmore.
  - apply Z.ltb_lt in Hmore.
    destruct (lookup_lt_is_Some_2 (rows r) (Z.to_nat (current r + 1))) as [row Hrow]; [lia|].
    unfold StructScan_ptr, closed_or_unpositioned, row_at, advanced, len in Hloop.
    cbn [rows current] in Hloop.
    replace (current r + 1 <? 0) with false in Hloop by (symmetry; apply Z.ltb_ge; lia).
    replace (current r + 1 >=? Z.of_nat (length (rows r))) with false in Hloop
      by (symmetry; rewrite Z.geb_leb; apply Z.leb_gt; lia).
    cbn [orb] in Hloop. rewrite Hrow in Hloop. cbn [default from_option] in Hloop.
    unfold Datatypes.id in Hloop.
    destruct (StructScan_loop row fields) as [fields' [e|]] eqn:Hscan; [discriminate Hloop|].
    apply IH in Hloop; cbn [current rows]; [|lia|exact Hfits].
    cbn [current rows slice_append slice_elems] in Hloop.
    replace (Z.to_nat (current r + 1 + 1)) with (S (Z.to_nat (current r + 1))) in Hloop by lia.
    rewrite Hloop, <- app_assoc. f_equal.
    rewrite (drop_S _ _ _ Hrow). cbn [fmap list_fmap]. rewrite Hscan. reflexivity.
  - apply Z.ltb_ge in Hmore. injection Hloop as <- <-.
    rewrite drop_ge by lia. by rewrite app_nil_r.
Qed.

(** X10. StructScanAll that returns no error has added one record for each row
    after the current one, in the order of the rows: the record scanned
    from the row into a new value of the element type. When no row is
    left the slice is as it was. *)
Theorem StructScanAll_scans_rows_in_order (r r' : Rows) (tname : string)
    (fields : list Field) (s : slice Elem) (dest' : SliceDest) :
  -1 <= current r < len (rows r) -> fits_int (length (rows r)) ->
  Rows_StructScanAll r (PtrToSlice tname (Struct fields) s) = Some (r', dest', None) ->
  exists s' : slice Elem,
    dest' = PtrToSlice tname (Struct fields) s' /\
    slice_elems s' =
    (slice_elems s ++
     ((fun row => Struct (StructScan_loop row fields).1) <$>
        drop (Z.to_nat (current r + 1)) (rows r)))%list /\
    (drop (Z.to_nat (current r + 1)) (rows r) = [] -> s' = s).
Proof.
  intros Hcur Hfits. unfold Rows_StructScanAll, row_count.
  destruct (StructScanAll_loop _ r (Struct fields) s 0) as [[[r1 s1] e1]|] eqn:Hloop;
    [|discriminate].
  intros [= <- <- ->]. exists s1. split; [reflexivity|].
  pose proof (StructScanAll_loop_in_order _ _ _ _ _ _ _ Hcur Hfits Hloop) as Helems.
  split; [exact Helems|]. intros Hnone.
  destruct (StructScanAll_loop_appends _ _ _ _ _ _ _ _ Hloop) as (new & Hnew & _ & Hnil).
  apply Hnil. rewrite Hnone in Helems. cbn [fmap list_fmap] in Helems.
  rewrite Helems in Hnew. rewrite app_nil_r in Hnew.
  symmetry. by apply (app_inv_head (slice_elems s)); rewrite app_nil_r.
Qed.

(** X11. With an element type that is no struct, StructScanAll fails at the
    first row, with an error that wraps the one of StructScan and names
    index 0; it is the rows that make it fail: without a row it
    succeeds. *)
Theorem StructScanAll_element_not_struct (r : Rows) (tname etype : string) (s : slice Elem)
    (row : gmap string (wire float64)) (rest : list (gmap string (wire float64))) :
  rows r = row :: rest -> current r = -1 ->
  Rows_StructScanAll r (PtrToSlice tname (NotStruct etype) s) =
  Some (advanced r, PtrToSlice tname (NotStruct etype) s,
        Some (wrapError
                "StructScan failed at index 0: sql: StructScan requires a pointer to a struct"
                (errorString "sql: StructScan requires a pointer to a struct"))).
Proof.
  intros Hrows Hcur. unfold Rows_StructScanAll, row_count. rewrite Hrows.
  cbn [length StructScanAll_loop].
  rewrite Rows_Next_in_range by (rewrite Hcur; unfold max_int; lia).
  rewrite Hrows, Hcur. cbn.
  unfold StructScan_ptr, closed_or_unpositioned, advanced, len. cbn [current rows].
  rewrite Hrows, Hcur. reflexivity.
Qed.

Lemma StructScanAll_loop_returns (fuel : nat) :
  forall (r : Rows) (zero : Elem) (s : slice Elem) (count : nat),
  fits_int (length (rows r)) ->
  0 <= current r < len (rows r) ->
  len (rows r) - current r <= Z.of_nat fuel ->
  is_Some (StructScanAll_loop fuel r zero s count).
Proof.
  unfold fits_int, len.
  induction fuel as [|fuel IH]; intros r zero s count Hfits Hcur Hfuel; [lia|].
  cbn [StructScanAll_loop]. rewrite Rows_Next_in_range by lia.
  destruct (current r + 1 <? len (rows r)) eqn:Hmore; [|by eexists].
  apply Z.ltb_lt in Hmore. unfold len in Hmore.
  destruct (StructScan_ptr (advanced r) zero) as [elem [e|]] eqn:Hscan; [by eexists|].
  apply IH; cbn [advanced current rows]; lia.
Qed.

(** X12. StructScanAll returns: the loop over the cursor ends after at most one
    step for each row and one more, for every destination and wherever
    the cursor stands. *)
Theorem StructScanAll_returns (r : Rows) (dest : SliceDest) :
  fits_int (length (rows r)) ->
  is_Some (Rows_StructScanAll r dest).
Proof.
  intros Hfits.
  destruct dest as [tname zero s| |]; [|by eexists|by eexists].
  unfold Rows_StructScanAll, row_count.
  assert (Hloop : is_Some (StructScanAll_loop (S (length (rows r))) r zero s 0)).
  { cbn [StructScanAll_loop]. unfold Rows_Next. cbn [rows current].
    set (r1 := {| rows := rows r; columns := columns r;
                  current := wrap_int (current r + 1); lastErr := lastErr r |}).
    destruct (wrap_int (current r + 1) <? len (rows r)) eqn:Hmore; [|by eexists].
    destruct (StructScan_ptr r1 zero) as [elem [e|]] eqn:Hscan; [by eexists|].
    pose proof (open_in_range _ (StructScan_ptr_open _ _ _ Hscan)) as Hrange.
    apply StructScanAll_loop_returns; [exact Hfits | exact Hrange|].
    cbn [current rows r1] in *. unfold len in *. lia. }
  destruct Hloop as [[[r1 s1] e1] ->]. by eexists.
Qed.

End record_properties.

Lemma StructScan_keeps_unmatched_fields_witness :
  exists field',
    (StructScan_loop (lib := ascii_lib) {[ "name" := WString "Alice" ]}
       [ {| Name := "Name"; db := "name"; cell := PString "" |};
         {| Name := "Age"; db := ""; cell := PInt 7 |} ]).1 !! 1%nat = Some field' /\
    Name field' = "Age" /\ db field' = "" /\
    (({[ "name" := WString "Alice" ]} : gmap string (wire Z)) !!
       column_of (lib := ascii_lib) {| Name := "Age"; db := ""; cell := PInt 7 |} = None ->
     field' = {| Name := "Age"; db := ""; cell := PInt 7 |}).
Proof.
  exact (StructScan_keeps_unmatched_fields (lib := ascii_lib) {[ "name" := WString "Alice" ]}
           [ {| Name := "Name"; db := "name"; cell := PString "" |};
             {| Name := "Age"; db := ""; cell := PInt 7 |} ] 1
           {| Name := "Age"; db := ""; cell := PInt 7 |} eq_refl).
Defined.

Lemma StructScan_ignores_unmatched_columns_witness :
  let fields := [ {| Name := "Name"; db := "name"; cell := PString "" |} ] in
  Rows_StructScan (lib := ascii_lib)
    {| rows := ([] ++ <["extra" := WNull]> {[ "name" := WString "Alice" ]} :: [])%list;
       columns := ["name"]; current := 0; lastErr := None |} (PtrTo (Struct fields)) =
  Rows_StructScan
    {| rows := [ {[ "name" := WString "Alice" ]} ]; columns := ["name"];
       current := 0; lastErr := None |} (PtrTo (Struct fields)).
Proof.
  intros fields.
  apply (StructScan_ignores_unmatched_columns (lib := ascii_lib)
           {| rows := [ {[ "name" := WString "Alice" ]} ]; columns := ["name"];
              current := 0; lastErr := None |} fields "extra" WNull [] []
           {[ "name" := WString "Alice" ]}).
  - reflexivity.
  - reflexivity.
  - repeat constructor. discriminate.
Defined.

Lemma StructScanAll_appends_witness :
  exists (s' : slice Elem) (new : list Elem),
    PtrToSlice "*[]main.User" (Struct []) (slice_of [Struct []; Struct []]) =
    PtrToSlice "*[]main.User" (Struct []) s' /\
    slice_elems s' = (slice_elems (slice_of [Struct []]) ++ new)%list /\
    (new = [] -> s' = slice_of [Struct []]).
Proof.
  apply (StructScanAll_appends (lib := ascii_lib)
           (NewRows [ {[ "n" := WNumber 1%Z ]} ] ["n"])
           (advanced (advanced (NewRows [ {[ "n" := WNumber 1%Z ]} ] ["n"])))
           "*[]main.User" (Struct []) (slice_of [Struct []]) _ None).
  reflexivity.
Defined.

Lemma StructScanAll_scans_rows_in_order_witness :
  let fields := [ {| Name := "Name"; db := "name"; cell := PString "" |} ] in
  let r := NewRows (lib := ascii_lib)
             [ {[ "name" := WString "Alice" ]}; {[ "name" := WString "Bob" ]} ] ["name"] in
  exists s' : slice Elem,
    PtrToSlice "*[]main.User" (Struct fields)
      (slice_of [ Struct [ {| Name := "Name"; db := "name"; cell := PString "Alice" |} ];
                  Struct [ {| Name := "Name"; db := "name"; cell := PString "Bob" |} ] ]) =
    PtrToSlice "*[]main.User" (Struct fields) s' /\
    slice_elems s' =
    (slice_elems nil_slice ++
     ((fun row => Struct (StructScan_loop row fields).1) <$>
        drop (Z.to_nat (current r + 1)) (rows r)))%list /\
    (drop (Z.to_nat (current r + 1)) (rows r) = [] -> s' = nil_slice).
Proof.
  intros fields r.
  apply (StructScanAll_scans_rows_in_order (lib := ascii_lib) r (advanced (advanced (advanced r)))
           "*[]main.User" fields nil_slice).
  - subst r. unfold len. cbn. lia.
  - subst r. unfold fits_int, max_int. cbn. lia.
  - reflexivity.
Defined.

Lemma StructScanAll_element_not_struct_witness :
  Rows_StructScanAll (lib := ascii_lib) (NewRows [ {[ "n" := WNumber 1%Z ]} ] ["n"])
    (PtrToSlice "*[]int" (NotStruct "int") nil_slice) =
  Some (advanced (NewRows [ {[ "n" := WNumber 1%Z ]} ] ["n"]),
        PtrToSlice "*[]int" (NotStruct "int") nil_slice,
        Some (wrapError
                "StructScan failed at index 0: sql: StructScan requires a pointer to a struct"
                (errorString "sql: StructScan requires a pointer to a struct"))).
Proof.
  apply (StructScanAll_element_not_struct (lib := ascii_lib) _ _ _ _
           {[ "n" := WNumber 1%Z ]} []); reflexivity.
Defined.

Lemma StructScanAll_returns_witness :
  is_Some (Rows_StructScanAll (lib := ascii_lib)
             {| rows := [ {[ "n" := WNumber 1%Z ]} ]; columns := ["n"];
                current := -7; lastErr := None |}
             (PtrToSlice "*[]main.User" (Struct []) nil_slice)).
Proof.
  apply (StructScanAll_returns (lib := ascii_lib)). unfold fits_int, max_int. cbn. lia.
Defined.

(** ** More on the envelope *)

Section envelope_shape_properties.
Context {lib : GoLib}.

Lemma ToRows_loop_keyed (cols : list string) (maps : list (gmap string (wire float64))) :
  forall i : nat, ToRows_loop cols i (WObject <$> maps) = inr maps.
Proof.
  induction maps as [|m maps IH]; intros i; [reflexivity|].
  cbn [fmap list_fmap ToRows_loop].
  change (list_fmap _ _ WObject maps) with (WObject <$> maps). by rewrite IH.
Qed.

(** X13. Keyed rows pass through: when every raw row is an object, the cursor
    holds these objects as its rows, unchanged and in their order,
    whatever the Column Set is. *)
Theorem ToRows_keyed_rows_pass_through (r : APIResponse) (cols : list string)
    (maps : list (gmap string (wire float64))) :
  carries r cols (WObject <$> maps) ->
  ToRows r = inr (NewRows maps cols) /\ rows (NewRows maps cols) = maps.
Proof.
  intros Hcarries. rewrite (ToRows_carries r cols _ Hcarries), ToRows_loop_keyed.
  split; [reflexivity|]. unfold NewRows. by destruct cols, maps.
Qed.

(** A cursor from ToRows stands before its first row and carries no
    error. *)
Lemma ToRows_fresh (r : APIResponse) (rs : Rows) :
  ToRows r = inr rs -> current rs = -1 /\ lastErr rs = None.
Proof.
  unfold ToRows. intros Hrows.
  repeat match type of Hrows with
         | (if ?b then _ else _) = _ => destruct b
         | match ?x with _ => _ end = _ => destruct x
         end; try discriminate Hrows; by injection Hrows as <-.
Qed.

(** X14. On a success envelope ToRows is lenient where the rows are missing: an
    empty result list, and a first result whose rows field is absent or no
    list, give a cursor without rows and without columns, also when the
    result names columns. *)
Theorem ToRows_without_rows (r : APIResponse) :
  Success r = true ->
  (Result r = WArray [] \/
   exists (queryResult resultsData : gmap string (wire float64)) (rest : list (wire float64)),
     Result r = WArray (WObject queryResult :: rest) /\
     queryResult !! "results" = Some (WObject resultsData) /\
     as_array (index_object resultsData "rows") = None) ->
  ToRows r = inr {| rows := []; columns := []; current := -1; lastErr := None |}.
Proof.
  intros Hok [Hres|(queryResult & resultsData & rest & Hres & Hq & Hrows)];
    unfold ToRows; rewrite Hok, Hres; cbn [negb as_array as_object]; [reflexivity|].
  unfold index_object at 1. rewrite Hq. cbn [as_object]. by rewrite Hrows.
Qed.

(** ToRows and ToResult read the first result of the list only: what
    comes after it changes nothing. *)
Theorem first_result_only (r : APIResponse) (first : wire float64)
    (rest rest' : list (wire float64)) :
  Result r = WArray (first :: rest) ->
  ToRows {| Result := WArray (first :: rest'); Success := Success r; Errors := Errors r |} =
  ToRows r /\
  ToResult {| Result := WArray (first :: rest'); Success := Success r; Errors := Errors r |} =
  ToResult r.
Proof.
  intros Hres. unfold ToRows, ToResult, api_failure. cbn [Result Success Errors].
  rewrite Hres. split; reflexivity.
Qed.

(** X15. The meta block of the first result: the count of affected rows is the
    changes field when it is a number; the rows_written field counts only
    when there is no changes field; a changes field that is no number
    gives 0, whatever rows_written is. *)
Theorem ToResult_prefers_changes (r : APIResponse)
    (queryResult metaData : gmap string (wire float64)) (rest : list (wire float64)) :
  Success r = true ->
  Result r = WArray (WObject queryResult :: rest) ->
  queryResult !! "meta" = Some (WObject metaData) ->
  exists result : ExecResult,
    ToResult r = inr result /\
    (forall f, metaData !! "changes" = Some (WNumber f) ->
       rowsAffected result = float64_to_int64 f) /\
    (forall f, metaData !! "changes" = None ->
       metaData !! "rows_written" = Some (WNumber f) ->
       rowsAffected result = float64_to_int64 f) /\
    (forall val, metaData !! "changes" = Some val -> as_float64 val = None ->
       rowsAffected result = 0) /\
    (forall f, metaData !! "last_row_id" = Some (WNumber f) ->
       lastInsertId result = float64_to_int64 f).
Proof.
  intros Hok Hres Hmeta. unfold ToResult. rewrite Hok, Hres. cbn [negb as_array as_object].
  unfold index_object. rewrite Hmeta. cbn [as_object]. eexists. split; [reflexivity|].
  cbn [rowsAffected lastInsertId]. repeat split.
  - by intros f ->.
  - by intros f -> ->.
  - by intros val -> ->.
  - by intros f ->.
Qed.

(** X16. Get reads the first row only: it fails with "sql: no rows in result
    set" when the cursor has no row, and else gives what StructScan makes
    of the first row, whatever rows come after it. *)
Theorem Get_reads_first_row (r : APIResponse) (rs : Rows) (fields : list Field) :
  ToRows r = inr rs ->
  APIResponse_Get r (PtrTo (Struct fields)) =
  match rows rs with
  | [] => (PtrTo (Struct fields), Some (errorString "sql: no rows in result set"))
  | row :: _ =>
      (PtrTo (Struct (StructScan_loop row fields).1), (StructScan_loop row fields).2)
  end.
Proof.
  intros Hrows. unfold APIResponse_Get. rewrite Hrows.
  destruct (ToRows_fresh r rs Hrows) as [Hcur _].
  rewrite Rows_Next_in_range by (rewrite Hcur; unfold max_int; lia). rewrite Hcur.
  destruct (rows rs) as [|row rest] eqn:Hrs; [reflexivity|].
  unfold len. cbn [length Z.add]. replace (-1 + 1 <? Z.of_nat (S (length rest))) with true
    by (symmetry; apply Z.ltb_lt; lia).
  cbn [negb]. unfold Rows_StructScan, StructScan_ptr, closed_or_unpositioned, row_at,
    advanced, len. cbn [current rows]. rewrite Hrs, Hcur. cbn [length].
  replace (-1 + 1 >=? Z.of_nat (S (length rest))) with false
    by (symmetry; rewrite Z.geb_leb; apply Z.leb_gt; lia).
  change (-1 + 1) with 0. cbn [Z.ltb Z.compare orb].
  change (default ∅ ((row :: rest) !! Z.to_nat 0)) with row.
  by destruct (StructScan_loop row fields).
Qed.

End envelope_shape_properties.

Lemma ToRows_keyed_rows_pass_through_witness :
  let maps : list (gmap string (wire Z)) :=
    [ {[ "name" := WString "Alice" ]}; {[ "name" := WString "Bob" ]} ] in
  let r := {| Result := WArray [WObject {[ "results" := WObject (<[ "columns" :=
                          WArray [WString "name"] ]> {[ "rows" := WArray (WObject <$> maps) ]}) ]}];
              Success := true; Errors := [] |} in
  ToRows (lib := ascii_lib) r = inr (NewRows maps ["name"]) /\
  rows (NewRows (lib := ascii_lib) maps ["name"]) = maps.
Proof.
  intros maps r.
  refine (ToRows_keyed_rows_pass_through (lib := ascii_lib) r ["name"] maps _).
  split; [reflexivity|]. eexists _, _, _. repeat split; reflexivity.
Defined.

Lemma ToRows_without_rows_witness :
  let r := {| Result := WArray [WObject {[ "results" := WObject (<[ "columns" :=
                          WArray [WString "name"] ]> {[ "rows" := WString "none" ]}) ]}];
              Success := true; Errors := [] |} in
  ToRows (lib := ascii_lib) r =
  inr {| rows := []; columns := []; current := -1; lastErr := None |}.
Proof.
  intros r. refine (ToRows_without_rows (lib := ascii_lib) r eq_refl _).
  right. eexists _, _, _. repeat split; reflexivity.
Defined.

Lemma first_result_only_witness :
  let first : wire Z := WObject {[ "meta" := WObject {[ "changes" := WNumber 3%Z ]} ]} in
  let r := {| Result := WArray [first; WObject {[ "meta" :=
                          WObject {[ "changes" := WNumber 5%Z ]} ]}];
              Success := true; Errors := [] |} in
  ToRows (lib := ascii_lib) {| Result := WArray [first]; Success := true; Errors := [] |} =
  ToRows r /\
  ToResult (lib := ascii_lib) {| Result := WArray [first]; Success := true; Errors := [] |} =
  ToResult r.
Proof.
  intros first r. exact (first_result_only (lib := ascii_lib) r first _ [] eq_refl).
Defined.

Lemma ToResult_prefers_changes_witness :
  let metaData : gmap string (wire Z) :=
    <[ "changes" := WString "3" ]> {[ "rows_written" := WNumber 7%Z ]} in
  let r := {| Result := WArray [WObject {[ "meta" := WObject metaData ]}];
              Success := true; Errors := [] |} in
  exists result : ExecResult,
    ToResult (lib := ascii_lib) r = inr result /\ rowsAffected result = 0.
Proof.
  intros metaData r.
  destruct (ToResult_prefers_changes (lib := ascii_lib) r _ metaData [] eq_refl eq_refl eq_refl)
    as (result & Hresult & _ & _ & Hzero & _).
  exists result. split; [exact Hresult|].
  exact (Hzero (WString "3") eq_refl eq_refl).
Defined.

Lemma Get_reads_first_row_witness :
  let maps : list (gmap string (wire Z)) :=
    [ {[ "name" := WString "Alice" ]}; {[ "name" := WString "Bob" ]} ] in
  let r := {| Result := WArray [WObject {[ "results" := WObject (<[ "columns" :=
                          WArray [WString "name"] ]> {[ "rows" := WArray (WObject <$> maps) ]}) ]}];
              Success := true; Errors := [] |} in
  let fields := [ {| Name := "Name"; db := "name"; cell := PString "" |} ] in
  APIResponse_Get (lib := ascii_lib) r (PtrTo (Struct fields)) =
  (PtrTo (Struct [ {| Name := "Name"; db := "name"; cell := PString "Alice" |} ]), None).
Proof.
  intros maps r fields.
  refine (eq_trans (Get_reads_first_row (lib := ascii_lib) r (NewRows maps ["name"]) fields _) _);
    reflexivity.
Defined.

(** ** The order of the migrations *)

Section migration_order.

Lemma string_compare_lt_trans (a : string) :
  forall b c : string,
  String.compare a b = Lt -> String.compare b c = Lt -> String.compare a c = Lt.
Proof.
  induction a as [|x a IH]; intros [|y b] [|z c]; cbn; try congruence.
  destruct (Ascii.compare x y) eqn:Hxy; [| |congruence].
  - apply Ascii.compare_eq_iff in Hxy as ->.
    destruct (Ascii.compare y z); [apply IH | congruence | congruence].
  - destruct (Ascii.compare y z) eqn:Hyz; [| |congruence].
    + apply Ascii.compare_eq_iff in Hyz as ->. by rewrite Hxy.
    + by rewrite (ascii_compare_lt_trans x y z Hxy Hyz).
Qed.

Lemma string_ltb_trans (a b c : string) :
  String.ltb a b = true -> String.ltb b c = true -> String.ltb a c = true.
Proof.
  unfold String.ltb. intros Hab Hbc.
  rewrite (string_compare_lt_trans a b c); [reflexivity| |].
  - by destruct (String.compare a b).
  - by destruct (String.compare b c).
Qed.

Lemma string_ltb_irrefl (a : string) : String.ltb a a = false.
Proof.
  unfold String.ltb. pose proof (String.compare_antisym a a) as Hanti.
  by destruct (String.compare a a).
Qed.

Lemma string_ltb_connex (a b : string) :
  a <> b -> String.ltb a b = negb (String.ltb b a).
Proof.
  intros Hne. unfold String.ltb. rewrite (String.compare_antisym b a).
  destruct (String.compare a b) eqn:Hab; try reflexivity.
  by apply String.compare_eq_iff in Hab.
Qed.

(** [Less] by cases on the two numeric prefixes. *)
Lemma Less_cases (m other : Migration) :
  Less m other =
  match isNumeric m, isNumeric other with
  | true, true =>
      if VersionInt m =? VersionInt other then String.ltb (Id m) (Id other)
      else VersionInt m <? VersionInt other
  | true, false => true
  | false, true => false
  | false, false => String.ltb (Id m) (Id other)
  end.
Proof.
  unfold Less. destruct (isNumeric m), (isNumeric other); cbn [andb negb]; try reflexivity.
  by destruct (VersionInt m =? VersionInt other).
Qed.

(** [Less] looks at the ids only. *)
Lemma Less_Id (a a' b b' : Migration) :
  Id a = Id a' -> Id b = Id b' -> Less a b = Less a' b'.
Proof.
  intros Ha Hb. unfold Less, isNumeric, VersionInt, NumberPrefixMatches. by rewrite Ha, Hb.
Qed.

Lemma Less_irrefl (m : Migration) : Less m m = false.
Proof.
  rewrite Less_cases. destruct (isNumeric m); [|apply string_ltb_irrefl].
  rewrite Z.eqb_refl. apply string_ltb_irrefl.
Qed.

Lemma Less_trans (a b c : Migration) :
  Less a b = true -> Less b c = true -> Less a c = true.
Proof.
  rewrite !Less_cases.
  destruct (isNumeric a), (isNumeric b), (isNumeric c); try congruence;
    try apply string_ltb_trans.
  destruct (Z.eqb_spec (VersionInt a) (VersionInt b)) as [Hab|Hab],
           (Z.eqb_spec (VersionInt b) (VersionInt c)) as [Hbc|Hbc],
           (Z.eqb_spec (VersionInt a) (VersionInt c)) as [Hac|Hac];
    rewrite ?Z.ltb_lt; try lia; try apply string_ltb_trans.
Qed.

Lemma Less_connex (a b : Migration) :
  Id a <> Id b -> Less a b = negb (Less b a).
Proof.
  intros Hne. rewrite !Less_cases.
  destruct (isNumeric a), (isNumeric b); try reflexivity;
    try by apply string_ltb_connex.
  rewrite (Z.eqb_sym (VersionInt b)).
  destruct (Z.eqb_spec (VersionInt a) (VersionInt b)) as [Hab|Hab];
    [by apply string_ltb_connex|].
  destruct (Z.ltb_spec (VersionInt a) (VersionInt b)),
           (Z.ltb_spec (VersionInt b) (VersionInt a)); cbn; lia.
Qed.

#[global] Instance byId_le_trans : Transitive byId_le.
Proof.
  intros a b c. unfold byId_le. intros Hba Hcb.
  destruct (Less c a) eqn:Hca; [|reflexivity].
  destruct (decide (Id b = Id a)) as [Heq|Hne].
  - by rewrite (Less_Id c c b a eq_refl Heq), Hca in Hcb.
  - rewrite (Less_connex b a Hne) in Hba. apply negb_false_iff in Hba.
    by rewrite (Less_trans c a b Hca Hba) in Hcb.
Qed.

#[global] Instance byId_le_total : Total byId_le.
Proof.
  intros a b. unfold byId_le. destruct (decide (Id a = Id b)) as [Heq|Hne].
  - left. by rewrite (Less_Id b b a b eq_refl Heq), Less_irrefl.
  - rewrite (Less_connex a b Hne). destruct (Less b a); [by right|by left].
Qed.

(** X17. [Less] is a strict total order of the ids: no migration is before
    itself or before one of its own id, the order is transitive, and of
    two migrations of different ids exactly one is before the other. This
    holds for every id, with or without a numeric prefix and whatever the
    length of the prefix. *)
Theorem Less_strict_total_order (a b c : Migration) :
  (Id a = Id b -> Less a b = false) /\
  (Id a <> Id b -> Less a b = negb (Less b a)) /\
  (Less a b = true -> Less b c = true -> Less a c = true).
Proof.
  split; [|split].
  - intros Heq. by rewrite (Less_Id a b b b Heq eq_refl), Less_irrefl.
  - apply Less_connex.
  - apply Less_trans.
Qed.

Lemma sorted_byId_unique (l1 l2 : list Migration) :
  NoDup (Id <$> l1) -> sorted_byId l1 -> sorted_byId l2 -> l1 ≡ₚ l2 -> l1 = l2.
Proof.
  intros Hdistinct Hs1 Hs2 Hperm.
  apply (StronglySorted_unique_strong (fun a b => Less b a = false)); try assumption.
  intros x1 x2 Hx1 Hx2 H21 H12.
  rewrite <- Hperm in Hx2.
  destruct (decide (Id x1 = Id x2)) as [Heq|Hne].
  - apply list_elem_of_lookup in Hx1 as [i Hi]. apply list_elem_of_lookup in Hx2 as [j Hj].
    assert (i = j) as ->; [|congruence].
    apply (NoDup_lookup (Id <$> l1) i j (Id x1)); [exact Hdistinct| |].
    + by rewrite list_lookup_fmap, Hi.
    + by rewrite list_lookup_fmap, Hj, Heq.
  - rewrite (Less_connex x1 x2 Hne), H21 in H12. discriminate H12.
Qed.

(** X18. The in-memory source never fails and gives its migrations back
    sorted: the result is a rearrangement of the migrations of the source
    in which no migration is [Less] than one before it. Where the ids are
    distinct this is the only such rearrangement, so that the result does
    not depend on the order in which the source holds them. *)
Theorem MemoryMigrationSource_sorted (m : MemoryMigrationSource) :
  exists migrations : list Migration,
    MemoryMigrationSource_FindMigrations m = inr migrations /\
    migrations ≡ₚ Migrations m /\
    sorted_byId migrations /\
    (NoDup (Id <$> Migrations m) ->
     forall l : list Migration,
     l ≡ₚ Migrations m -> sorted_byId l -> l = migrations).
Proof.
  exists (merge_sort byId_le (Migrations m)). split; [reflexivity|].
  assert (sorted_byId (merge_sort byId_le (Migrations m))) as Hsorted.
  { apply (StronglySorted_merge_sort byId_le). }
  split; [apply merge_sort_Permutation|]. split; [exact Hsorted|].
  intros Hdistinct l Hperm Hl. apply sorted_byId_unique; try assumption.
  - by rewrite Hperm.
  - by rewrite Hperm, merge_sort_Permutation.
Qed.

End migration_order.

Lemma Less_strict_total_order_witness :
  let a := {| Id := "2_b"; Migration_Up := []; Migration_Down := [];
              DisableTransactionUp := false; DisableTransactionDown := false |} in
  let b := {| Id := "10_a"; Migration_Up := []; Migration_Down := [];
              DisableTransactionUp := false; DisableTransactionDown := false |} in
  let c := {| Id := "init"; Migration_Up := []; Migration_Down := [];
              DisableTransactionUp := false; DisableTransactionDown := false |} in
  Less a c = true.
Proof.
  intros a b c.
  exact (proj2 (proj2 (Less_strict_total_order a b c)) eq_refl eq_refl).
Defined.

Lemma MemoryMigrationSource_sorted_witness :
  let a := {| Id := "2_a"; Migration_Up := ["CREATE TABLE a (id INTEGER)"];
              Migration_Down := ["DROP TABLE a"];
              DisableTransactionUp := false; DisableTransactionDown := false |} in
  let b := {| Id := "10_b"; Migration_Up := ["CREATE TABLE b (id INTEGER)"];
              Migration_Down := ["DROP TABLE b"];
              DisableTransactionUp := false; DisableTransactionDown := false |} in
  MemoryMigrationSource_FindMigrations {| Migrations := [b; a] |} = inr [a; b].
Proof.
  intros a b.
  destruct (MemoryMigrationSource_sorted {| Migrations := [b; a] |})
    as (migrations & Hfind & _ & _ & Hunique).
  rewrite Hfind. f_equal. symmetry. apply Hunique.
  - apply (bool_decide_unpack _). reflexivity.
  - apply Permutation_swap.
  - unfold sorted_byId. repeat constructor.
Defined.

(** ** More on the parser *)

Section parser_result_properties.
Context {lib : GoLib}.

Lemma appendStatement_Down_loop (stmts : list string) :
  forall p : ParsedMigration,
  foldl (fun p stmt =>
           let stmt := strings_TrimSpace stmt in
           if negb (nonempty stmt) then p
           else
             {| UpStatements := UpStatements p;
                DownStatements := (DownStatements p ++ [stmt])%list;
                DisableTransactionUp_p := DisableTransactionUp_p p;
                DisableTransactionDown_p := DisableTransactionDown_p p |})
        p stmts =
  {| UpStatements := UpStatements p;
     DownStatements :=
       (DownStatements p ++
        filter (fun stmt => nonempty stmt = true) (strings_TrimSpace <$> stmts))%list;
     DisableTransactionUp_p := DisableTransactionUp_p p;
     DisableTransactionDown_p := DisableTransactionDown_p p |}.
Proof.
  induction stmts as [|stmt stmts IH]; intros p.
  - cbn. rewrite app_nil_r. by destruct p.
  - cbn [foldl fmap list_fmap]. cbv zeta. rewrite IH.
    destruct (nonempty (strings_TrimSpace stmt)) eqn:Hne; cbn [negb].
    + rewrite filter_cons_True by exact Hne. cbn. by rewrite <- app_assoc.
    + rewrite filter_cons_False by (rewrite Hne; discriminate). reflexivity.
Qed.

(** The statements of the buffer, in order, go after the down statements. *)
Lemma appendStatement_Down (p : ParsedMigration) (sql : string) :
  appendStatement p Down sql =
  {| UpStatements := UpStatements p;
     DownStatements := (DownStatements p ++ statements_of sql)%list;
     DisableTransactionUp_p := DisableTransactionUp_p p;
     DisableTransactionDown_p := DisableTransactionDown_p p |}.
Proof. apply appendStatement_Down_loop. Qed.

Lemma statements_of_nonempty (sql : string) :
  Forall (fun stmt => nonempty stmt = true) (statements_of sql).
Proof.
  apply Forall_forall. intros stmt Hstmt. unfold statements_of in Hstmt.
  by apply list_elem_of_filter in Hstmt as [Hne _].
Qed.

Lemma appendStatement_no_empty (p : ParsedMigration) (dir : MigrationDirection)
    (sql : string) :
  no_empty_statement p -> no_empty_statement (appendStatement p dir sql).
Proof.
  intros [Hup Hdown]. destruct dir; [rewrite appendStatement_Up | rewrite appendStatement_Down];
    split; cbn; try assumption; apply Forall_app; split;
    try assumption; apply statements_of_nonempty.
Qed.

Lemma flush_no_empty (st : parser_state) :
  no_empty_statement (parsed st) -> no_empty_statement (flush st).
Proof.
  intros Hst. unfold flush. destruct (nonempty (buf st)); [|exact Hst].
  by apply appendStatement_no_empty.
Qed.

Lemma parse_line_no_empty (st : parser_state) (line : string) :
  no_empty_statement (parsed st) -> no_empty_statement (parsed (parse_line st line)).
Proof.
  intros Hst. pose proof (flush_no_empty st Hst) as [Hup Hdown]. unfold parse_line.
  repeat (match goal with |- context [if ?b then _ else _] => destruct b end);
    cbn [parsed]; try exact Hst; by split.
Qed.

Lemma parse_loop_no_empty (lines : list string) :
  forall st : parser_state,
  no_empty_statement (parsed st) -> no_empty_statement (parsed (foldl parse_line st lines)).
Proof.
  induction lines as [|line lines IH]; intros st Hst; [exact Hst|].
  cbn [foldl]. by apply IH, parse_line_no_empty.
Qed.

(** X19. No statement of a parsed migration is empty, in either direction:
    what is between two semicolons is trimmed and dropped when nothing is
    left of it. *)
Theorem ParseMigration_no_empty_statement (id text : string) (m : Migration) :
  ParseMigration id text = inr m ->
  Id m = id /\
  forall stmt : string,
  stmt ∈ Migration_Up m \/ stmt ∈ Migration_Down m -> nonempty stmt = true.
Proof.
  unfold ParseMigration, parseMigration. intros Hm. injection Hm as <-.
  split; [reflexivity|]. cbn [Migration_Up Migration_Down].
  destruct (flush_no_empty (foldl parse_line parser_init (bufio_ScanLines text)))
    as [Hup Hdown].
  { apply parse_loop_no_empty. split; constructor. }
  fold (parse_lines (bufio_ScanLines text)) in Hup, Hdown.
  rewrite Forall_forall in Hup, Hdown. intros stmt [Hstmt|Hstmt]; auto.
Qed.

(** *** The directives *)

Lemma prefix_common (s : string) :
  forall p q : string,
  String.prefix p s = true -> String.prefix q s = true ->
  String.prefix p q = true \/ String.prefix q p = true.
Proof.
  induction s as [|c s IH]; intros [|x p] [|y q]; cbn; auto; try discriminate.
  destruct (ascii_dec x c) as [->|]; [|discriminate].
  destruct (ascii_dec y c) as [->|]; [|discriminate].
  destruct (ascii_dec c c) as [_|Hne]; [apply IH | by destruct Hne].
Qed.

Lemma direction_is_no_block (line : string) :
  is_direction_directive line = true -> is_block_directive line = false.
Proof.
  unfold is_direction_directive, is_block_directive, strings_HasPrefix.
  intros Hdir. apply orb_true_iff in Hdir. apply orb_false_iff.
  split; apply not_true_is_false; intros Hblock;
    destruct Hdir as [Hdir|Hdir];
    destruct (prefix_common line _ _ Hdir Hblock) as [Hc|Hc]; discriminate Hc.
Qed.

Lemma Up_is_not_Down (line : string) :
  strings_HasPrefix line "-- +migrate Up" = true ->
  strings_HasPrefix line "-- +migrate Down" = false.
Proof.
  unfold strings_HasPrefix. intros Hup. apply not_true_is_false. intros Hdown.
  destruct (prefix_common line _ _ Hup Hdown) as [Hc|Hc]; discriminate Hc.
Qed.

Lemma parse_line_block (st : parser_state) (line : string) :
  is_block_directive line = true -> parse_line st line = st.
Proof.
  intros Hblock. unfold parse_line.
  destruct (strings_HasPrefix line "-- +migrate Up") eqn:Hup.
  { rewrite direction_is_no_block in Hblock; [discriminate Hblock|].
    unfold is_direction_directive. by rewrite Hup. }
  destruct (strings_HasPrefix line "-- +migrate Down") eqn:Hdown.
  { rewrite direction_is_no_block in Hblock; [discriminate Hblock|].
    unfold is_direction_directive. by rewrite Hup, Hdown. }
  unfold is_block_directive in Hblock.
  destruct (strings_HasPrefix line "-- +migrate StatementBegin"); [reflexivity|].
  cbn [orb] in Hblock. by rewrite Hblock.
Qed.

Lemma parse_loop_without_blocks (lines : list string) :
  forall st : parser_state,
  foldl parse_line st (filter (fun line => is_block_directive line = false) lines) =
  foldl parse_line st lines.
Proof.
  induction lines as [|line lines IH]; intros st; [reflexivity|].
  destruct (is_block_directive line) eqn:Hblock.
  - rewrite filter_cons_False by (rewrite Hblock; discriminate).
    cbn [foldl]. by rewrite parse_line_block.
  - rewrite filter_cons_True by exact Hblock. cbn [foldl]. apply IH.
Qed.

(** X20. The StatementBegin and StatementEnd lines change nothing: a text
    parses to what it parses to without these lines, so that the
    semicolons between them split the statements as everywhere else. *)
Theorem block_directives_are_inert (text text' : string) :
  bufio_ScanLines text' =
  filter (fun line => is_block_directive line = false) (bufio_ScanLines text) ->
  parseMigration text' = parseMigration text.
Proof.
  intros Hlines. unfold parseMigration, parse_lines.
  by rewrite Hlines, parse_loop_without_blocks.
Qed.

Lemma appendStatement_flags (p : ParsedMigration) (dir : MigrationDirection) (sql : string) :
  DisableTransactionUp_p (appendStatement p dir sql) = DisableTransactionUp_p p /\
  DisableTransactionDown_p (appendStatement p dir sql) = DisableTransactionDown_p p.
Proof.
  destruct dir; [rewrite appendStatement_Up | rewrite appendStatement_Down]; by split.
Qed.

Lemma flush_flags (st : parser_state) :
  DisableTransactionUp_p (flush st) = DisableTransactionUp_p (parsed st) /\
  DisableTransactionDown_p (flush st) = DisableTransactionDown_p (parsed st).
Proof.
  unfold flush. destruct (nonempty (buf st)); [apply appendStatement_flags | by split].
Qed.

Lemma parse_line_flags (st : parser_state) (line : string) :
  DisableTransactionUp_p (parsed (parse_line st line)) =
    DisableTransactionUp_p (parsed st) ||
    (strings_HasPrefix line "-- +migrate Up" && strings_Contains line "notransaction") /\
  DisableTransactionDown_p (parsed (parse_line st line)) =
    DisableTransactionDown_p (parsed st) ||
    (strings_HasPrefix line "-- +migrate Down" && strings_Contains line "notransaction").
Proof.
  destruct (flush_flags st) as [Hup Hdown]. unfold parse_line.
  destruct (strings_HasPrefix line "-- +migrate Up") eqn:Hu.
  - rewrite (Up_is_not_Down line Hu).
    destruct (strings_Contains line "notransaction"); cbn; rewrite ?Hup, ?Hdown;
      by rewrite ?orb_true_r, ?orb_false_r.
  - destruct (strings_HasPrefix line "-- +migrate Down").
    + destruct (strings_Contains line "notransaction"); cbn; rewrite ?Hup, ?Hdown;
        by rewrite ?orb_true_r, ?orb_false_r.
    + repeat (match goal with |- context [if ?b then _ else _] => destruct b end);
        cbn; by rewrite ?orb_false_r.
Qed.

Lemma parse_loop_flags (lines : list string) :
  forall st : parser_state,
  DisableTransactionUp_p (parsed (foldl parse_line st lines)) =
    DisableTransactionUp_p (parsed st) ||
    existsb (fun line => strings_HasPrefix line "-- +migrate Up" &&
                         strings_Contains line "notransaction") lines /\
  DisableTransactionDown_p (parsed (foldl parse_line st lines)) =
    DisableTransactionDown_p (parsed st) ||
    existsb (fun line => strings_HasPrefix line "-- +migrate Down" &&
                         strings_Contains line "notransaction") lines.
Proof.
  induction lines as [|line lines IH]; intros st; cbn [foldl existsb].
  - by rewrite !orb_false_r.
  - destruct (IH (parse_line st line)) as [-> ->].
    destruct (parse_line_flags st line) as [-> ->]. by rewrite !orb_assoc.
Qed.

(** X21. The transaction of a direction is disabled exactly when some line of
    the text starts with the directive of this direction and holds the
    word notransaction, wherever the line stands and whatever else it
    holds. *)
Theorem ParseMigration_notransaction (id text : string) (m : Migration) :
  ParseMigration id text = inr m ->
  DisableTransactionUp m =
    existsb (fun line => strings_HasPrefix line "-- +migrate Up" &&
                         strings_Contains line "notransaction") (bufio_ScanLines text) /\
  DisableTransactionDown m =
    existsb (fun line => strings_HasPrefix line "-- +migrate Down" &&
                         strings_Contains line "notransaction") (bufio_ScanLines text).
Proof.
  unfold ParseMigration, parseMigration, parse_lines. intros Hm. injection Hm as <-.
  cbn [DisableTransactionUp DisableTransactionDown].
  destruct (flush_flags (foldl parse_line parser_init (bufio_ScanLines text))) as [-> ->].
  destruct (parse_loop_flags (bufio_ScanLines text) parser_init) as [-> ->].
  by split.
Qed.

End parser_result_properties.

Lemma ParseMigration_no_empty_statement_witness :
  let text := "-- +migrate Up" ++ nl ++ "CREATE TABLE t(x);;" ++ nl ++ " ; " ++ nl ++
              "INSERT INTO t VALUES (1);" ++ nl ++
              "-- +migrate Down" ++ nl ++ "DROP TABLE t;" ++ nl in
  let m := {| Id := "1_init";
              Migration_Up := ["CREATE TABLE t(x)"; "INSERT INTO t VALUES (1)"];
              Migration_Down := ["DROP TABLE t"];
              DisableTransactionUp := false; DisableTransactionDown := false |} in
  Id m = "1_init" /\
  forall stmt : string,
  stmt ∈ Migration_Up m \/ stmt ∈ Migration_Down m -> nonempty stmt = true.
Proof.
  intros text m.
  exact (ParseMigration_no_empty_statement (lib := ascii_lib) "1_init" text m eq_refl).
Defined.

Lemma block_directives_are_inert_witness :
  parseMigration (lib := ascii_lib)
    ("-- +migrate Up" ++ nl ++ "CREATE TRIGGER g BEGIN" ++ nl ++
     "UPDATE t SET x = 1; END;" ++ nl) =
  parseMigration (lib := ascii_lib)
    ("-- +migrate Up" ++ nl ++ "-- +migrate StatementBegin" ++ nl ++
     "CREATE TRIGGER g BEGIN" ++ nl ++ "UPDATE t SET x = 1; END;" ++ nl ++
     "-- +migrate StatementEnd" ++ nl).
Proof.
  apply (block_directives_are_inert (lib := ascii_lib)
           ("-- +migrate Up" ++ nl ++ "-- +migrate StatementBegin" ++ nl ++
            "CREATE TRIGGER g BEGIN" ++ nl ++ "UPDATE t SET x = 1; END;" ++ nl ++
            "-- +migrate StatementEnd" ++ nl)
           ("-- +migrate Up" ++ nl ++ "CREATE TRIGGER g BEGIN" ++ nl ++
            "UPDATE t SET x = 1; END;" ++ nl)).
  reflexivity.
Defined.

Lemma ParseMigration_notransaction_witness :
  let text := "-- +migrate Up notransaction" ++ nl ++ "CREATE INDEX i ON t(x);" ++ nl ++
              "-- +migrate Down" ++ nl ++ "DROP INDEX i;" ++ nl in
  let m := {| Id := "2_index";
              Migration_Up := ["CREATE INDEX i ON t(x)"];
              Migration_Down := ["DROP INDEX i"];
              DisableTransactionUp := true; DisableTransactionDown := false |} in
  DisableTransactionUp m =
    existsb (fun line => strings_HasPrefix line "-- +migrate Up" &&
                         strings_Contains line "notransaction")
            (bufio_ScanLines (GoLib := ascii_lib) text) /\
  DisableTransactionDown m =
    existsb (fun line => strings_HasPrefix line "-- +migrate Down" &&
                         strings_Contains line "notransaction")
            (bufio_ScanLines (GoLib := ascii_lib) text).
Proof.
  intros text m.
  exact (ParseMigration_notransaction (lib := ascii_lib) "2_index" text m eq_refl).
Defined.

(** ** More on the planner *)

Section plan_properties.

Lemma capped_subseteq {A} (max : Z) (l : list A) : capped max l ⊆ l.
Proof.
  unfold capped. destruct ((0 <? max) && (max <? len l)); [|reflexivity].
  apply subseteq_take.
Qed.

Lemma build_migrationMap_elem (all : list Migration) :
  forall (migrationMap : gmap string Migration) (id : string) (m : Migration),
  foldl (fun migrationMap m => <[Id m := m]> migrationMap) migrationMap all !! id = Some m ->
  m ∈ all \/ migrationMap !! id = Some m.
Proof.
  induction all as [|a all IH]; intros migrationMap id m Hm; cbn [foldl] in Hm.
  - by right.
  - destruct (IH _ _ _ Hm) as [Hin|Hlookup]; [left; by right|].
    destruct (decide (Id a = id)) as [<-|Hne].
    + rewrite lookup_insert_eq in Hlookup. injection Hlookup as <-. left. by left.
    + rewrite lookup_insert_ne in Hlookup by exact Hne. by right.
Qed.

(** X22. A plan holds known migrations only. The upward plan holds none whose
    id is in the ledger, and the downward plan none whose id is not. *)
Theorem plan_members (all : list Migration) (applied : list string)
    (dir : MigrationDirection) (max : Z) (m : Migration) :
  m ∈ planMigrations all applied dir max ->
  m ∈ all /\
  match dir with
  | Up => Id m ∉ applied
  | Down => Id m ∈ applied
  end.
Proof.
  destruct dir.
  - rewrite planMigrations_Up. intros Hm. apply capped_subseteq in Hm.
    by apply list_elem_of_filter in Hm as [Hnot Hin].
  - unfold planMigrations.
    fold (capped max (plan_down_loop (build_migrationMap all) applied (length applied) [])).
    intros Hm. apply capped_subseteq in Hm.
    rewrite plan_down_loop_reverse in Hm by lia. rewrite firstn_all in Hm. cbn [app] in Hm.
    apply list_elem_of_omap in Hm as (id & Hid & Hlookup).
    rewrite elem_of_reverse in Hid.
    destruct (build_migrationMap_lookup all ∅ id) as [HId _].
    { intros i x. by rewrite lookup_empty. }
    rewrite (HId m Hlookup).
    destruct (build_migrationMap_elem all ∅ id m Hlookup) as [Hin|Hempty].
    + by split.
    + by rewrite lookup_empty in Hempty.
Qed.

(** A positive [max] cuts the plan to its first [max] migrations; a
    [max] of zero or less leaves the plan whole. *)
Theorem plan_respects_max (all : list Migration) (applied : list string)
    (dir : MigrationDirection) (max : Z) :
  (0 < max ->
   planMigrations all applied dir max =
     take (Z.to_nat max) (planMigrations all applied dir 0) /\
   Z.of_nat (length (planMigrations all applied dir max)) <= max) /\
  (max <= 0 -> planMigrations all applied dir max = planMigrations all applied dir 0).
Proof.
  unfold planMigrations. cbn [Z.ltb Z.compare andb].
  set (toApply := match dir with
                  | Up => plan_up_loop (build_appliedMap applied) all
                  | Down => plan_down_loop (build_migrationMap all) applied (length applied) []
                  end).
  unfold len. split.
  - intros Hmax. replace (0 <? max) with true by (symmetry; apply Z.ltb_lt; lia).
    cbn [andb]. destruct (Z.ltb_spec max (Z.of_nat (length toApply))) as [Hlt|Hge].
    + split; [reflexivity|]. rewrite length_take. lia.
    + split; [|lia]. symmetry. apply take_ge. lia.
  - intros Hmax. by replace (0 <? max) with false by (symmetry; apply Z.ltb_ge; lia).
Qed.

(** X23. The upward plan keeps the order of the known migrations: it is what
    is left of their list when some are taken out, and it is sorted when
    the list is. *)
Theorem Up_plan_keeps_source_order (all : list Migration) (applied : list string)
    (max : Z) :
  planMigrations all applied Up max `sublist_of` all /\
  (sorted_byId all -> sorted_byId (planMigrations all applied Up max)).
Proof.
  rewrite planMigrations_Up. split.
  - trans (filter (fun m => Id m ∉ applied) all); [|apply sublist_filter].
    unfold capped. destruct ((0 <? max) && _); [apply sublist_take | reflexivity].
  - intros Hsorted. by apply sorted_byId_capped, sorted_byId_filter.
Qed.

End plan_properties.

Lemma plan_members_witness :
  sample_migration "2_b" ∈ [sample_migration "1_a"; sample_migration "2_b"] /\
  "2_b" ∈ ["2_b"; "9_gone"].
Proof.
  apply (plan_members [sample_migration "1_a"; sample_migration "2_b"] ["2_b"; "9_gone"]
           Down 0 (sample_migration "2_b")).
  replace (planMigrations [sample_migration "1_a"; sample_migration "2_b"]
             ["2_b"; "9_gone"] Down 0)
    with [sample_migration "2_b"] by reflexivity.
  by left.
Defined.

Lemma plan_respects_max_witness :
  planMigrations [sample_migration "1_a"; sample_migration "2_b"; sample_migration "3_c"]
    [] Up (-1) =
  planMigrations [sample_migration "1_a"; sample_migration "2_b"; sample_migration "3_c"]
    [] Up 0.
Proof.
  apply (proj2 (plan_respects_max _ [] Up (-1))). lia.
Defined.

Lemma Up_plan_keeps_source_order_witness :
  sorted_byId (planMigrations
                 [sample_migration "1_a"; sample_migration "2_b"; sample_migration "10_c"]
                 ["2_b"] Up 0).
Proof.
  apply (proj2 (Up_plan_keeps_source_order _ ["2_b"] 0)).
  unfold sorted_byId. repeat constructor.
Defined.

(** ** More on the executor *)

Section run_properties.
Context {lib : GoLib} {client : D1Client}.

Lemma apply_plan_count (ms : MigrationSet) (dir : MigrationDirection)
    (plan : list Migration) :
  forall (count n : nat) (w w' : World) (err : option error),
  apply_plan ms dir plan count w = (w', (n, err)) ->
  (count <= n <= count + length plan)%nat /\
  (err = None <-> n = (count + length plan)%nat).
Proof.
  induction plan as [|m plan IH]; intros count n w w' err Hrun; cbn [apply_plan] in Hrun.
  - injection Hrun as <- <- <-. cbn [length]. split; [lia|]. split; [lia | reflexivity].
  - destruct (applyMigration ms m dir w) as [w0 [cause|]].
    + injection Hrun as <- <- <-. cbn [length]. split; [lia|]. split; [discriminate | lia].
    + destruct (IH _ _ _ _ _ Hrun) as [Hn Herr]. cbn [length]. split; [lia|].
      rewrite Herr. lia.
Qed.

(** X24. The count a run returns is the number of the migrations of the plan
    that completed: it never exceeds the length of the plan, and it is the
    length of the plan exactly when the run returns no error. *)
Theorem count_tells_progress (ms : MigrationSet) (src : MigrationSource)
    (dir : MigrationDirection) (max : Z) (w w0 w1 : World) (plan : list Migration)
    (n : nat) (err : option error) :
  ExecMax_plan ms src dir max w = Some (w0, inr plan) ->
  ExecMax ms src dir max w = Some (w1, (n, err)) ->
  (n <= length plan)%nat /\ (err = None <-> n = length plan).
Proof.
  intros Hplan Hrun. unfold ExecMax in Hrun. rewrite Hplan in Hrun. injection Hrun as Hrun.
  destruct (apply_plan_count ms dir plan _ _ _ _ _ Hrun) as [Hn Herr].
  split; [lia | exact Herr].
Qed.

(** A run that fails before the plan is made applies nothing: it returns
    the count 0 with the error, and the world is the one its last call to
    the database left. *)
Lemma no_plan_no_progress (ms : MigrationSet) (src : MigrationSource)
    (dir : MigrationDirection) (max : Z) (w w0 : World) (err : error) :
  ExecMax_plan ms src dir max w = Some (w0, inl err) ->
  ExecMax ms src dir max w = Some (w0, (O, Some err)).
Proof. intros Hplan. unfold ExecMax. by rewrite Hplan. Qed.

(** X25. When the statements of [m] ran and the write to the ledger fails, the
    run stops as for a failing statement: the count leaves [m] out and the
    error names its id, while the statements of [m] stay executed. *)
Theorem ledger_write_failure_aborts_run (ms : MigrationSet) (src : MigrationSource)
    (dir : MigrationDirection) (max : Z) (w w0 w1 w2 w3 : World)
    (pre post : list Migration) (m : Migration) (cause : error) :
  ExecMax_plan ms src dir max w = Some (w0, inr (pre ++ m :: post)%list) ->
  apply_plan ms dir pre 0 w0 = (w1, (length pre, None)) ->
  run_queries (queries_of m dir) w1 = (w2, None) ->
  match dir with
  | Up => client_Query (insert_query ms) [Id m; time_Now_RFC3339 w2] w2
  | Down => client_Query (delete_query ms) [Id m] w2
  end = (w3, inl cause) ->
  ExecMax ms src dir max w =
  Some (w3, (length pre,
             Some (wrapError ("failed to apply migration " ++ Id m ++ ": " ++ Error cause)
                             cause))).
Proof.
  intros Hplan Hpre Hqs Hwrite. unfold ExecMax. rewrite Hplan.
  destruct (apply_plan_app ms dir pre (m :: post) _ _ _ _ Hpre) as [_ ->].
  cbn [apply_plan]. unfold applyMigration. fold (queries_of m dir). rewrite Hqs.
  destruct dir; rewrite Hwrite; cbn [err_of]; unfold Errorf_w; by rewrite !append_assoc.
Qed.

Section answered.
Variable I : World -> Prop.
Hypothesis answered : forall (q : string) (params : list string) (w : World),
  I w -> I (client_Query q params w).1 /\ err_of (client_Query q params w).2 = None.

Lemma run_queries_answered (queries : list string) :
  forall w : World, I w -> exists w', run_queries queries w = (w', None) /\ I w'.
Proof.
  induction queries as [|q queries IH]; intros w Hw; cbn [run_queries].
  - by exists w.
  - destruct (answered q [] w Hw) as [Hw' Herr].
    destruct (client_Query q [] w) as [w' res]. cbn [fst snd] in Hw', Herr.
    rewrite Herr. by apply IH.
Qed.

Lemma applyMigration_answered (ms : MigrationSet) (m : Migration) (dir : MigrationDirection)
    (w : World) :
  I w -> exists w', applyMigration ms m dir w = (w', None) /\ I w'.
Proof.
  intros Hw. unfold applyMigration.
  destruct (run_queries_answered (match dir with Down => Migration_Down m
                                  | Up => Migration_Up m end) w Hw) as (w1 & -> & Hw1).
  destruct dir.
  - destruct (answered (insert_query ms) [Id m; time_Now_RFC3339 w1] w1 Hw1) as [Hw' Herr].
    destruct (client_Query (insert_query ms) _ w1) as [w' res]. cbn [fst snd] in Hw', Herr.
    exists w'. by rewrite Herr.
  - destruct (answered (delete_query ms) [Id m] w1 Hw1) as [Hw' Herr].
    destruct (client_Query (delete_query ms) _ w1) as [w' res]. cbn [fst snd] in Hw', Herr.
    exists w'. by rewrite Herr.
Qed.

Lemma apply_plan_answered (ms : MigrationSet) (dir : MigrationDirection)
    (plan : list Migration) :
  forall (count : nat) (w : World),
  I w -> exists w', apply_plan ms dir plan count w = (w', ((count + length plan)%nat, None)) /\
                    I w'.
Proof.
  induction plan as [|m plan IH]; intros count w Hw; cbn [apply_plan length].
  - exists w. by rewrite Nat.add_0_r.
  - destruct (applyMigration_answered ms m dir w Hw) as (w1 & -> & Hw1).
    destruct (IH (S count) w1 Hw1) as (w' & -> & Hw'). exists w'.
    split; [|exact Hw']. by rewrite Nat.add_succ_r.
Qed.

End answered.

(** X26. The executor looks at the Go error of a call only and drops the
    response: as long as every call is answered, whatever the answers say,
    every migration of the plan counts as applied and the run returns no
    error. [I] is kept by the calls and singles out the worlds in which
    they are answered. *)
Theorem answered_calls_count_as_applied (I : World -> Prop) (ms : MigrationSet)
    (src : MigrationSource) (dir : MigrationDirection) (max : Z) (w w0 : World)
    (plan : list Migration) :
  (forall (q : string) (params : list string) (w : World),
     I w -> I (client_Query q params w).1 /\ err_of (client_Query q params w).2 = None) ->
  ExecMax_plan ms src dir max w = Some (w0, inr plan) -> I w0 ->
  exists w1 : World, ExecMax ms src dir max w = Some (w1, (length plan, None)) /\ I w1.
Proof.
  intros Hanswered Hplan Hw0. unfold ExecMax. rewrite Hplan.
  destruct (apply_plan_answered I Hanswered ms dir plan 0 w0 Hw0) as (w1 & -> & Hw1).
  by exists w1.
Qed.

End run_properties.

Lemma count_tells_progress_witness :
  (1 <= length [sample_migration "1_a"; sample_migration "2_b"; sample_migration "3_c"])%nat.
Proof.
  refine (proj1 (count_tells_progress (client := ledger_db sample_set) sample_set
                   sample_source Up 0 (fresh_db ["fill 2_b"])
                   {| ledger := Some []; journal := []; unreachable := ["fill 2_b"];
                      wall_clock := "2026-01-01T00:00:00Z" |}
                   {| ledger := Some [("1_a", "2026-01-01T00:00:00Z")];
                      journal := ["create 1_a"; "fill 1_a"; "create 2_b"];
                      unreachable := ["fill 2_b"];
                      wall_clock := "2026-01-01T00:00:00Z" |}
                   _ 1
                   (Some (wrapError "failed to apply migration 2_b: connection refused"
                                    (errorString "connection refused"))) _ _));
    reflexivity.
Defined.

Lemma ledger_write_failure_aborts_run_witness :
  ExecMax (client := ledger_db sample_set) sample_set sample_source Up 0
    (fresh_db [insert_query sample_set]) =
  Some ({| ledger := Some []; journal := ["create 1_a"; "fill 1_a"];
           unreachable := [insert_query sample_set];
           wall_clock := "2026-01-01T00:00:00Z" |},
        (0%nat,
         Some (wrapError "failed to apply migration 1_a: connection refused"
                         (errorString "connection refused")))).
Proof.
  apply (ledger_write_failure_aborts_run (client := ledger_db sample_set) sample_set
           sample_source Up 0 (fresh_db [insert_query sample_set])
           {| ledger := Some []; journal := []; unreachable := [insert_query sample_set];
              wall_clock := "2026-01-01T00:00:00Z" |}
           {| ledger := Some []; journal := []; unreachable := [insert_query sample_set];
              wall_clock := "2026-01-01T00:00:00Z" |}
           {| ledger := Some []; journal := ["create 1_a"; "fill 1_a"];
              unreachable := [insert_query sample_set];
              wall_clock := "2026-01-01T00:00:00Z" |}
           _
           [] [sample_migration "2_b"; sample_migration "3_c"] (sample_migration "1_a")
           (errorString "connection refused"));
    reflexivity.
Defined.

(** ** The downward run on the reference database *)

Section downward_properties.
Context {lib : GoLib}.
Variable ms : MigrationSet.

Local Abbreviation DB := (ledger_db ms).

(** In a world where the transport reaches the service for every
    statement, every call is answered, also the ones the service
    refuses. *)
Lemma db_answers (q : string) (params : list string) (w : LedgerDB) :
  unreachable w = [] ->
  unreachable (db_Query ms q params w).1 = [] /\ err_of (db_Query ms q params w).2 = None.
Proof.
  intros Hw. unfold db_Query. rewrite Hw.
  rewrite bool_decide_eq_false_2 by apply not_elem_of_nil.
  repeat match goal with
         | |- context [if ?b then _ else _] => destruct b
         | |- context [match ?x with _ => _ end] => destruct x
         end; by split.
Qed.

(** A downward migration that completes takes its id out of the ledger
    and leaves the other rows as they are. *)
Lemma db_applyMigration_Down (m : Migration) (w w' : LedgerDB) (l : list (string * string)) :
  applyMigration (client := DB) ms m Down w = (w', None) ->
  ledger w = Some l ->
  ledger w' = Some (filter (fun row => row.1 ≠ Id m) l) /\
  unreachable w' = unreachable w.
Proof.
  unfold applyMigration. intros Happly Hl.
  destruct (run_queries (client := DB) (Migration_Down m) w) as [w0 [err|]] eqn:Hrun;
    [discriminate Happly|].
  destruct (db_run_queries ms _ _ _ _ Hrun) as [Hl0 Hu0]. rewrite Hl in Hl0.
  cbn [client_Query ledger_db] in Happly. unfold db_Query in Happly.
  destruct (bool_decide (delete_query ms ∈ unreachable w0)); [discriminate Happly|].
  replace (String.eqb (delete_query ms) (select_query ms)) with false in Happly
    by reflexivity.
  replace (String.eqb (delete_query ms) (insert_query ms)) with false in Happly
    by reflexivity.
  rewrite String.eqb_refl, Hl0 in Happly. injection Happly as <-.
  cbn [ledger unreachable set_ledger]. by split.
Qed.

Lemma filter_ext_elem {A} (P Q : A -> Prop) `{!forall x, Decision (P x)}
    `{!forall x, Decision (Q x)} (l : list A) :
  (forall x, x ∈ l -> P x <-> Q x) -> filter P l = filter Q l.
Proof.
  induction l as [|x l IH]; intros Hl; [reflexivity|].
  assert (filter P l = filter Q l) as Htl.
  { apply IH. intros y Hy. apply Hl. by right. }
  destruct (decide (P x)) as [HP|HP].
  - rewrite !filter_cons_True; [by rewrite Htl | by apply Hl; [left|] | exact HP].
  - rewrite !filter_cons_False; [exact Htl | | exact HP].
    intros HQ. apply HP. apply Hl; [by left | exact HQ].
Qed.

Lemma filter_all {A} (P : A -> Prop) `{!forall x, Decision (P x)} (l : list A) :
  (forall x, x ∈ l -> P x) -> filter P l = l.
Proof.
  induction l as [|x l IH]; intros Hl; [reflexivity|].
  rewrite filter_cons_True by (apply Hl; by left). f_equal. apply IH.
  intros y Hy. apply Hl. by right.
Qed.

Lemma filter_fst_not_elem (ids : list string) (l : list (string * string)) :
  (filter (fun row => row.1 ∉ ids) l).*1 = filter (fun id => id ∉ ids) l.*1.
Proof.
  induction l as [|row l IH]; [reflexivity|]. cbn [fmap list_fmap].
  destruct (decide (row.1 ∉ ids)) as [HP|HP].
  - rewrite !filter_cons_True by exact HP. cbn [fmap list_fmap]. by rewrite <- IH.
  - rewrite !filter_cons_False by exact HP. exact IH.
Qed.

Lemma db_apply_plan_Down (plan : list Migration) :
  forall (count n : nat) (w w' : LedgerDB) (l : list (string * string)),
  apply_plan (client := DB) ms Down plan count w = (w', (n, None)) ->
  ledger w = Some l ->
  ledger w' = Some (filter (fun row => row.1 ∉ Id <$> plan) l) /\
  unreachable w' = unreachable w.
Proof.
  induction plan as [|m plan IH]; intros count n w w' l Hrun Hl; cbn [apply_plan] in Hrun.
  - injection Hrun as <- <-. split; [|reflexivity]. rewrite Hl. f_equal.
    symmetry. apply filter_all. intros row _. cbn. apply not_elem_of_nil.
  - destruct (applyMigration (client := DB) ms m Down w) as [w0 [err|]] eqn:Happly;
      [discriminate Hrun|].
    destruct (db_applyMigration_Down m w w0 l Happly Hl) as [Hl0 Hu0].
    destruct (IH _ _ _ _ _ Hrun Hl0) as [Hl' Hu']. split; [|congruence].
    rewrite Hl', list_filter_filter. do 2 f_equal. apply list_filter_iff. intros row.
    cbn [fmap list_fmap]. rewrite not_elem_of_cons. tauto.
Qed.

(** X27. A downward run without a limit that returns no error rolls back
    every migration of the ledger that is known and no other: the ids
    left in the ledger are the ones without a known migration, in their
    order, and the count is the number of the ids taken out. *)
Theorem downward_run_removes_known_ids (all : list Migration) (w w1 : LedgerDB) (n : nat) :
  fits_int (length (ledger_ids w)) ->
  ExecMax (client := DB) ms {| FindMigrations := inr all |} Down 0 w = Some (w1, (n, None)) ->
  ledger_ids w1 = filter (fun id => id ∉ known_ids all) (ledger_ids w) /\
  n = length (filter (fun id => id ∈ known_ids all) (ledger_ids w)).
Proof.
  intros Hfits Hrun.
  assert (Hreach : ledger_reachable ms w).
  { split.
    - intros Hin. unfold ExecMax, ExecMax_plan in Hrun.
      rewrite (db_ensureTable_unreachable ms w Hin) in Hrun. discriminate Hrun.
    - intros Hin. unfold ExecMax, ExecMax_plan in Hrun.
      destruct (ensureTable (client := DB) ms w) as [w0 [err|]] eqn:Hensure;
        [discriminate Hrun|].
      assert (Hu0 : unreachable w0 = unreachable w).
      { unfold ensureTable in Hensure. cbn [client_CreateTable ledger_db] in Hensure.
        unfold db_CreateTable in Hensure.
        destruct (bool_decide _); [discriminate Hensure|].
        rewrite String.eqb_refl in Hensure.
        destruct (ledger w); by injection Hensure as <-. }
      rewrite db_getAppliedMigrations_unreachable in Hrun by (by rewrite Hu0).
      discriminate Hrun. }
  unfold ExecMax in Hrun. rewrite (db_ExecMax_plan ms all Down 0 w Hreach Hfits) in Hrun.
  injection Hrun as Hrun.
  set (plan := planMigrations all (merge_sort text_le (ledger_ids w)) Down 0) in *.
  assert (Hids : Id <$> plan =
                 filter (fun id => id ∈ known_ids all)
                        (reverse (merge_sort text_le (ledger_ids w)))).
  { unfold plan. rewrite planMigrations_Down_ids. unfold capped. reflexivity. }
  destruct (ledger_ensured w) as (Hl & _ & _).
  destruct (db_apply_plan_Down plan _ _ _ _ _ Hrun Hl) as [Hl1 _].
  destruct (apply_plan_count ms Down plan _ _ _ _ _ Hrun) as [_ Hn].
  split.
  - unfold ledger_ids at 1. rewrite Hl1.
    rewrite filter_fst_not_elem, ledger_ids_default.
    apply filter_ext_elem. intros id Hid.
    rewrite Hids, list_elem_of_filter, elem_of_reverse, merge_sort_Permutation.
    tauto.
  - rewrite (proj1 Hn eq_refl). cbn [Nat.add].
    rewrite <- (length_fmap Id), Hids.
    apply Permutation_length. apply filter_Permutation.
    by rewrite reverse_Permutation, merge_sort_Permutation.
Qed.

End downward_properties.

Lemma answered_calls_count_as_applied_witness :
  exists w1 : LedgerDB,
    ExecMax (client := ledger_db sample_set) sample_set
      {| FindMigrations := inr [sample_migration "1_a"; sample_migration "1_a"] |} Up 0
      (fresh_db []) =
    Some (w1, (2%nat, None)) /\
    unreachable w1 = [].
Proof.
  apply (answered_calls_count_as_applied (client := ledger_db sample_set)
           (fun w : LedgerDB => unreachable w = []) sample_set
           {| FindMigrations := inr [sample_migration "1_a"; sample_migration "1_a"] |} Up 0
           (fresh_db [])
           {| ledger := Some []; journal := []; unreachable := [];
              wall_clock := "2026-01-01T00:00:00Z" |}
           [sample_migration "1_a"; sample_migration "1_a"]).
  - intros q params w. apply db_answers.
  - reflexivity.
  - reflexivity.
Defined.

Lemma downward_run_removes_known_ids_witness :
  let all := [sample_migration "1_a"; sample_migration "2_b"] in
  let w1 := {| ledger := Some [("3_c", "2026-01-02T00:00:00Z")];
               journal := ["empty 2_b"; "drop 2_b"; "empty 1_a"; "drop 1_a"];
               unreachable := []; wall_clock := "2026-01-04T00:00:00Z" |} in
  ledger_ids w1 = filter (fun id => id ∉ known_ids all) (ledger_ids applied_db) /\
  2%nat = length (filter (fun id => id ∈ known_ids all) (ledger_ids applied_db)).
Proof.
  intros all w1.
  apply (downward_run_removes_known_ids (lib := ascii_lib) sample_set all applied_db w1 2).
  - unfold fits_int, max_int. cbn. lia.
  - reflexivity.
Defined.

(** ** The parameters of a query *)

Section params_properties.
Context {lib : GoLib} {plib : ParamsLib}.

Lemma ConvertParams_loop_pointwise (args : list Arg) :
  forall (k : nat) (result : list string),
  ConvertParams_loop k args = inr result ->
  length result = length args /\
  forall (i : nat) (arg : Arg),
  args !! i = Some arg ->
  exists s : string, convertParam (k + i) arg = inr s /\ result !! i = Some s.
Proof.
  induction args as [|a args IH]; intros k result Hloop; cbn [ConvertParams_loop] in Hloop.
  - injection Hloop as <-. split; [reflexivity|]. intros i arg Hi. discriminate Hi.
  - destruct (convertParam k a) as [err|s] eqn:Ha; [discriminate Hloop|].
    destruct (ConvertParams_loop (S k) args) as [err|rest] eqn:Hrest; [discriminate Hloop|].
    injection Hloop as <-. destruct (IH _ _ Hrest) as [Hlen Hpoint].
    split; [cbn [length]; by rewrite Hlen|].
    intros [|i] arg Hi.
    + injection Hi as <-. exists s. by rewrite Nat.add_0_r.
    + destruct (Hpoint i arg Hi) as (s' & Hs' & Hi'). exists s'.
      by rewrite Nat.add_succ_r.
Qed.

(** X28. A conversion that succeeds gives one parameter for each argument, in
    the order of the arguments: the parameter at an index is the text of
    the argument at that index. *)
Theorem ConvertParams_one_per_argument (args : list Arg) (result : list string) :
  ConvertParams args = inr result ->
  length result = length args /\
  forall (i : nat) (arg : Arg),
  args !! i = Some arg ->
  exists s : string, convertParam i arg = inr s /\ result !! i = Some s.
Proof.
  intros Hconv. apply (ConvertParams_loop_pointwise args 0).
  by destruct args.
Qed.

Lemma ConvertParams_loop_app (pre : list Arg) :
  forall (k : nat) (ok : list string) (post : list Arg),
  ConvertParams_loop k pre = inr ok ->
  ConvertParams_loop k (pre ++ post)%list =
  match ConvertParams_loop (k + length pre) post with
  | inl err => inl err
  | inr rest => inr (ok ++ rest)%list
  end.
Proof.
  induction pre as [|a pre IH]; intros k ok post Hpre; cbn [ConvertParams_loop] in Hpre.
  - injection Hpre as <-. cbn [app length]. rewrite Nat.add_0_r.
    by destruct (ConvertParams_loop k post).
  - destruct (convertParam k a) as [err|s] eqn:Ha; [discriminate Hpre|].
    destruct (ConvertParams_loop (S k) pre) as [err|rest] eqn:Hrest; [discriminate Hpre|].
    injection Hpre as <-. cbn [app ConvertParams_loop length]. rewrite Ha.
    rewrite (IH _ _ post Hrest). rewrite Nat.add_succ_r.
    change (S k + length pre)%nat with (S (k + length pre)).
    by destruct (ConvertParams_loop (S (k + length pre)) post).
Qed.

(** X29. The conversion stops at the first argument that [json.Marshal]
    refuses: the error names the index of this argument, counted from 0,
    and its type, and no parameter is returned, also for the arguments
    before it. *)
Theorem ConvertParams_first_failure (pre post : list Arg) (ok : list string)
    (v : other) (cause : error) :
  ConvertParams pre = inr ok ->
  json_Marshal v = inl cause ->
  ConvertParams (pre ++ ArgOther v :: post)%list =
  inl (errorString ("无法转换参数 #" ++ format_n (length pre) ++ " (类型:" ++
                    other_typeName v ++ "): " ++ Error cause)).
Proof.
  intros Hpre Hv.
  assert (ConvertParams_loop 0 pre = inr ok) as Hloop by (by destruct pre).
  replace (ConvertParams (pre ++ ArgOther v :: post)%list)
    with (ConvertParams_loop 0 (pre ++ ArgOther v :: post)%list) by (by destruct pre).
  rewrite (ConvertParams_loop_app pre 0 ok _ Hloop).
  cbn [Nat.add ConvertParams_loop convertParam]. by rewrite Hv.
Qed.

End params_properties.

Lemma ConvertParams_one_per_argument_witness :
  let args := [ArgString "O'Neil"; ArgNil; ArgBool true; ArgInt (-7)] in
  length ["O'Neil"; ""; "1"; "-7"] = length args /\
  forall (i : nat) (arg : Arg),
  args !! i = Some arg ->
  exists s : string, convertParam i arg = inr s /\ ["O'Neil"; ""; "1"; "-7"] !! i = Some s.
Proof.
  intros args.
  exact (ConvertParams_one_per_argument (plib := ascii_params) args _ eq_refl).
Defined.

Lemma ConvertParams_first_failure_witness :
  ConvertParams (plib := ascii_params) [ArgInt 1; ArgOther None; ArgString "x"] =
  inl (errorString ("无法转换参数 #1 (类型:chan int): json: unsupported type: chan int")).
Proof.
  exact (ConvertParams_first_failure (plib := ascii_params) [ArgInt 1] [ArgString "x"]
           ["1"] None (errorString "json: unsupported type: chan int") eq_refl eq_refl).
Defined.

(** ** The client *)

Section client_properties.
Context {lib : GoLib} {plib : ParamsLib} {net : Transport}.

(** X30. A client as NewClient makes it is connected to no database: its
    calls on the connected database fail with "no database connected,
    call ConnectDB first", send no request and leave the destination as it
    was. Select, Get and Exec convert their arguments first, and fail
    with the error of the conversion when there is one. *)
Theorem fresh_client_is_not_connected (accountID apiToken : string) (c : Client)
    (query : string) (params : slice string) (args : list Arg)
    (dest : SliceDest) (sdest : StructDest) (w : Net) :
  NewClient accountID apiToken = Some c ->
  Client_Query c query params w = (w, inl not_connected) /\
  Client_CreateTable c query w = (w, inl not_connected) /\
  Client_RemoveTable c query w = (w, inl not_connected) /\
  let err := match ConvertParams args with inl err => err | inr _ => not_connected end in
  Client_Select c dest query args w = Some (w, dest, Some err) /\
  Client_Get c sdest query args w = (w, sdest, Some err) /\
  Client_Exec c query args w = (w, (0, Some err)).
Proof.
  unfold NewClient. intros Hnew.
  destruct (negb (nonempty accountID) || negb (nonempty apiToken)); [discriminate Hnew|].
  injection Hnew as <-.
  unfold Client_Select, Client_Get, Client_Exec, Client_Query, Client_CreateTable,
    Client_RemoveTable. cbn [DatabaseID nonempty negb].
  repeat split; by destruct (ConvertParams args).
Qed.

End client_properties.

Lemma fresh_client_is_not_connected_witness :
  let c := {| AccountID := "acct"; APIToken := "token"; DatabaseID := "" |} in
  Client_Exec (net := logging_net) c "DELETE FROM users;" [] [] =
  ([], (0, Some not_connected)).
Proof.
  intros c.
  exact (proj2 (proj2 (proj2 (proj2 (proj2
           (fresh_client_is_not_connected (net := logging_net) "acct" "token" c
              "DELETE FROM users;" nil_slice [] (NotPtrAtAll "int") (NotPtrTo "int") []
              eq_refl)))))).
Defined.
